(** * QuickSignPDF: a shallow embedding of [src/quicksignpdf/app.py]

    The development follows the layout of the Python module:

    - the Python run-time notions the code relies on (exceptions, [max],
      [min], [range], true division, [int()]);
    - the arithmetic of Python's [float], as an interface [PyFloat] with two
      instances: [exact] (rationals, no rounding) and [binary64] (the IEEE
      doubles the program really runs on, through Rocq's primitive floats);
    - the Qt value types used by the code ([QPointF], [QRect], [QRectF],
      [QImage]) with the methods the code calls, written after the Qt
      documentation;
    - [crop_alpha_bbox], [insert_signature_png], [SignatureCanvas],
      [SignaturePad] and [PdfViewer], function by function;
    - the theorems. *)

From Stdlib Require Import ZArith QArith Qabs Qminmax Lqa Lia List Bool String Ascii.
From Stdlib Require Floats.PrimFloat Floats.FloatOps Floats.SpecFloat.
From Stdlib Require DecimalString.
Import ListNotations.

Local Open Scope Z_scope.

(* ================================================================== *)
(** * Python run-time model *)
(* ================================================================== *)

(** The exceptions the modelled code can raise, with their message. *)
Inductive exn : Type :=
| ZeroDivisionError (msg : string)
| IndexError (msg : string)
| ValueError (msg : string)
| AttributeError (msg : string)
| FileNotFoundError (msg : string).

(** [str(e)]. *)
Definition str_exn (e : exn) : string :=
  match e with
  | ZeroDivisionError m | IndexError m | ValueError m | AttributeError m
  | FileNotFoundError m => m
  end.

(** A computation either raises or returns. *)
Inductive result (A : Type) : Type :=
| Raise (e : exn)
| Return (a : A).
Arguments Raise {A} e.
Arguments Return {A} a.

Definition bind {A B : Type} (m : result A) (k : A -> result B) : result B :=
  match m with
  | Raise e => Raise e
  | Return a => k a
  end.

(** Methods read and update the fields of [self] and may raise: a state and
    error monad.  The state reached when the exception is raised is kept,
    as in Python. *)
Definition M (S A : Type) : Type := S -> result A * S.

Definition ret {S A : Type} (a : A) : M S A := fun s => (Return a, s).
Definition raise {S A : Type} (e : exn) : M S A := fun s => (Raise e, s).
Definition mbind {S A B : Type} (m : M S A) (k : A -> M S B) : M S B :=
  fun s =>
    match m s with
    | (Raise e, s') => (Raise e, s')
    | (Return a, s') => k a s'
    end.
Definition get {S : Type} : M S S := fun s => (Return s, s).
Definition put {S : Type} (s : S) : M S unit := fun _ => (Return tt, s).
Definition modify {S : Type} (f : S -> S) : M S unit :=
  fun s => (Return tt, f s).
Definition lift {S A : Type} (r : result A) : M S A := fun s => (r, s).

Declare Scope py_monad_scope.
Delimit Scope py_monad_scope with pym.
Notation "x <- m ;; k" := (mbind m (fun x => k))
  (at level 61, m at next level, right associativity) : py_monad_scope.
Notation "m ;; k" := (mbind m (fun _ => k))
  (at level 61, right associativity) : py_monad_scope.

(** [range(n)]. *)
Definition range (n : Z) : list Z := map Z.of_nat (seq 0 (Z.to_nat n)).

(** [max(a, b)] and [min(a, b)] on [int]: the first argument is kept unless
    the second is strictly better. *)
Definition max_int (a b : Z) : Z := if a <? b then b else a.
Definition min_int (a b : Z) : Z := if b <? a then b else a.

(** [str(n)] for an [int], as an f-string prints it. *)
Definition str_int (n : Z) : string :=
  DecimalString.NilZero.string_of_int (Z.to_int n).

(** [s.lower()], written for the ASCII letters; the only use is the test
    [endswith(".pdf")], which looks at ASCII characters. *)
Definition lower_ascii (c : ascii) : ascii :=
  let n := nat_of_ascii c in
  if (Nat.leb 65 n && Nat.leb n 90)%bool then ascii_of_nat (n + 32) else c.

Fixpoint lower (s : string) : string :=
  match s with
  | EmptyString => EmptyString
  | String c s' => String (lower_ascii c) (lower s')
  end.

(** [s.endswith(suffix)]. *)
Definition endswith (s suffix : string) : bool :=
  let n := String.length s in
  let k := String.length suffix in
  (Nat.leb k n && String.eqb (substring (n - k) k s) suffix)%bool.

(* ================================================================== *)
(** * Python [float] arithmetic *)
(* ================================================================== *)

(** The operations on [float] the program uses.  [of_int] is the implicit
    conversion of an [int] operand, [lit n d] the decimal literal [n/d]
    (for instance [0.14] is [lit 14 100]), [fsqrt x] is [x ** 0.5] and
    [to_int] is [int(x)], truncation toward zero. *)
Class PyFloat (F : Type) : Type := {
  fadd : F -> F -> F;
  fsub : F -> F -> F;
  fmul : F -> F -> F;
  fdiv : F -> F -> F;
  fneg : F -> F;
  fabs : F -> F;
  fsqrt : F -> F;
  flt : F -> F -> bool;
  fle : F -> F -> bool;
  feq : F -> F -> bool;
  of_int : Z -> F;
  lit : Z -> positive -> F;
  to_int : F -> Z
}.

Declare Scope py_scope.
Delimit Scope py_scope with py.
Notation "x + y" := (fadd x y) : py_scope.
Notation "x - y" := (fsub x y) : py_scope.
Notation "x * y" := (fmul x y) : py_scope.
Notation "x / y" := (fdiv x y) : py_scope.
Notation "- x" := (fneg x) : py_scope.
Notation "x <? y" := (flt x y) : py_scope.
Notation "x <=? y" := (fle x y) : py_scope.
Notation "x =? y" := (feq x y) : py_scope.

(** ** Exact arithmetic: the rationals *)

(** Square root on [Q], rounded down to a multiple of [1/den]; it is exact
    on squares of rationals.  No theorem below depends on its value. *)
Definition Qsqrt_floor (q : Q) : Q :=
  Qmake (Z.sqrt (Qnum q * Zpos (Qden q))) (Qden q).

Definition Qlt_bool (a b : Q) : bool := negb (Qle_bool b a).

Definition Qtrunc (q : Q) : Z := Z.quot (Qnum q) (Zpos (Qden q)).

#[export] Instance exact : PyFloat Q := {|
  fadd := Qplus;
  fsub := Qminus;
  fmul := Qmult;
  fdiv := Qdiv;
  fneg := Qopp;
  fabs := Qabs;
  fsqrt := Qsqrt_floor;
  flt := Qlt_bool;
  fle := Qle_bool;
  feq := Qeq_bool;
  of_int := inject_Z;
  lit := Qmake;
  to_int := Qtrunc
|}.

(** ** IEEE binary64: what CPython computes *)

(** [float(z)], correctly rounded. *)
Definition float_of_Z (z : Z) : PrimFloat.float :=
  FloatOps.SF2Prim
    (SpecFloat.binary_normalize FloatOps.prec FloatOps.emax z 0 false).

(** [int(x)] for a finite [x]. *)
Definition float_to_Z (x : PrimFloat.float) : Z :=
  match FloatOps.Prim2SF x with
  | SpecFloat.S754_finite s m e =>
      let a := if 0 <=? e then Zpos m * 2 ^ e else Zpos m / 2 ^ (- e) in
      if s then - a else a
  | _ => 0
  end.

(** A decimal literal is the double nearest to [n/d]; for the literals of
    the program [n] and [d] are themselves doubles, so the correctly rounded
    quotient is that double. *)
#[export] Instance binary64 : PyFloat PrimFloat.float := {|
  fadd := PrimFloat.add;
  fsub := PrimFloat.sub;
  fmul := PrimFloat.mul;
  fdiv := PrimFloat.div;
  fneg := PrimFloat.opp;
  fabs := PrimFloat.abs;
  fsqrt := PrimFloat.sqrt;
  flt := PrimFloat.ltb;
  fle := PrimFloat.leb;
  feq := PrimFloat.eqb;
  of_int := float_of_Z;
  lit := fun n d => PrimFloat.div (float_of_Z n) (float_of_Z (Zpos d));
  to_int := float_to_Z
|}.

Section FloatOps.
Context {F : Type} `{PyFloat F}.

(** [max(a, b)], [min(a, b)] on floats. *)
Definition max_float (a b : F) : F := if (a <? b)%py then b else a.
Definition min_float (a b : F) : F := if (b <? a)%py then b else a.

(** [x / y] on floats raises on a zero divisor. *)
Definition truediv (x y : F) : result F :=
  if (y =? of_int 0)%py
  then Raise (ZeroDivisionError "float division by zero")
  else Return (x / y)%py.

(** [x / n] with [n] an [int]. *)
Definition truediv_int (x : F) (n : Z) : result F :=
  if n =? 0
  then Raise (ZeroDivisionError "float division by zero")
  else Return (x / of_int n)%py.
End FloatOps.

(* ================================================================== *)
(** * Qt value types *)
(* ================================================================== *)

Record QSize : Type := mkQSize { size_width : Z; size_height : Z }.

(** [QRect]: integer rectangle, here only read through [x()], [y()],
    [width()], [height()]. *)
Record QRect : Type := mkQRect {
  rect_x : Z; rect_y : Z; rect_width : Z; rect_height : Z
}.

Record QPointF (F : Type) : Type := mkQPointF { px : F; py : F }.
Arguments mkQPointF {F} px py.
Arguments px {F} q.
Arguments py {F} q.

(** [QRectF]: a rectangle stored as top-left corner and size; the methods are
    those of Qt's [qrect.h] / [qrect.cpp] that the program calls. *)
Module QRectF.
Section Methods.
Context {F : Type} `{PyFloat F}.

Record t : Type := mk { xp : F; yp : F; w : F; h : F }.

(** [QRectF()]. *)
Definition null : t := mk (of_int 0) (of_int 0) (of_int 0) (of_int 0).

(** [QRectF(topLeft, bottomRight)]. *)
Definition of_points (a b : QPointF F) : t :=
  mk (px a) (py a) (px b - px a)%py (py b - py a)%py.

Definition x (r : t) : F := xp r.
Definition y (r : t) : F := yp r.
Definition width (r : t) : F := w r.
Definition height (r : t) : F := h r.
Definition left (r : t) : F := xp r.
Definition top (r : t) : F := yp r.
Definition right (r : t) : F := (xp r + w r)%py.
Definition bottom (r : t) : F := (yp r + h r)%py.

Definition setLeft (r : t) (pos : F) : t :=
  let diff := (pos - xp r)%py in
  mk (xp r + diff)%py (yp r) (w r - diff)%py (h r).
Definition setRight (r : t) (pos : F) : t :=
  mk (xp r) (yp r) (pos - xp r)%py (h r).
Definition setTop (r : t) (pos : F) : t :=
  let diff := (pos - yp r)%py in
  mk (xp r) (yp r + diff)%py (w r) (h r - diff)%py.
Definition setBottom (r : t) (pos : F) : t :=
  mk (xp r) (yp r) (w r) (pos - yp r)%py.
Definition setWidth (r : t) (v : F) : t := mk (xp r) (yp r) v (h r).
Definition setHeight (r : t) (v : F) : t := mk (xp r) (yp r) (w r) v.

Definition translate (r : t) (dx dy : F) : t :=
  mk (xp r + dx)%py (yp r + dy)%py (w r) (h r).

Definition center (r : t) : QPointF F :=
  mkQPointF (xp r + w r / of_int 2)%py (yp r + h r / of_int 2)%py.
Definition moveCenter (r : t) (p : QPointF F) : t :=
  mk (px p - w r / of_int 2)%py (py p - h r / of_int 2)%py (w r) (h r).

Definition isNull (r : t) : bool :=
  (w r =? of_int 0)%py && (h r =? of_int 0)%py.
Definition isEmpty (r : t) : bool :=
  (w r <=? of_int 0)%py || (h r <=? of_int 0)%py.

(** Truth value of a [QRectF] in a Python condition: PySide maps it to
    [not isNull()]. *)
Definition truthy (r : t) : bool := negb (isNull r).

Definition normalized (r : t) : t :=
  let r1 := if (w r <? of_int 0)%py
            then mk (xp r + w r)%py (yp r) (- w r)%py (h r) else r in
  if (h r1 <? of_int 0)%py
  then mk (xp r1) (yp r1 + h r1)%py (w r1) (- h r1)%py else r1.

(** The horizontal extent [l, r] of a rectangle whose width may be
    negative, and the vertical one. *)
Definition hspan (r : t) : F * F :=
  if (w r <? of_int 0)%py then ((xp r + w r)%py, xp r)
  else (xp r, (xp r + w r)%py).
Definition vspan (r : t) : F * F :=
  if (h r <? of_int 0)%py then ((yp r + h r)%py, yp r)
  else (yp r, (yp r + h r)%py).

Definition qMax (a b : F) : F := if (a <? b)%py then b else a.
Definition qMin (a b : F) : F := if (a <? b)%py then a else b.

Definition contains (r : t) (p : QPointF F) : bool :=
  let '(l, rr) := hspan r in
  if (l =? rr)%py then false
  else if (px p <? l)%py || (rr <? px p)%py then false
  else
    let '(tp, b) := vspan r in
    if (tp =? b)%py then false
    else if (py p <? tp)%py || (b <? py p)%py then false
    else true.

(** [operator&]: a null rectangle as soon as one operand has a null
    extent or the two do not overlap. *)
Definition intersected (r1 r2 : t) : t :=
  let '(l1, rr1) := hspan r1 in
  if (l1 =? rr1)%py then null else
  let '(l2, rr2) := hspan r2 in
  if (l2 =? rr2)%py then null else
  if (rr2 <=? l1)%py || (rr1 <=? l2)%py then null else
  let '(t1, b1) := vspan r1 in
  if (t1 =? b1)%py then null else
  let '(t2, b2) := vspan r2 in
  if (t2 =? b2)%py then null else
  if (b2 <=? t1)%py || (b1 <=? t2)%py then null else
  let nx := qMax l1 l2 in
  let ny := qMax t1 t2 in
  mk nx ny (qMin rr1 rr2 - nx)%py (qMin b1 b2 - ny)%py.
End Methods.
Arguments t F : clear implicits.
End QRectF.

(** [QImage] in format ARGB32: one 32-bit word per pixel, stored by scan
    lines. *)
Module QImage.
Record t : Type := mk {
  width : Z;
  height : Z;
  scanlines : list (list Z)
}.

(** [QImage()]. *)
Definition null : t := mk 0 0 [].

Definition isNull (img : t) : bool :=
  (width img <=? 0) || (height img <=? 0).

(** [QImage(size, format)] followed by [fill(colour)]. *)
Definition filled (size : QSize) (argb : Z) : t :=
  if (size_width size <=? 0) || (size_height size <=? 0) then null
  else mk (size_width size) (size_height size)
          (repeat (repeat argb (Z.to_nat (size_width size)))
                  (Z.to_nat (size_height size))).

(** [Qt.GlobalColor.transparent]. *)
Definition transparent : Z := 0.

(** [pixel(x, y)] for coordinates inside the image. *)
Definition pixel (img : t) (x y : Z) : Z :=
  nth (Z.to_nat x) (nth (Z.to_nat y) (scanlines img) []) 0.

(** [QColor.alpha()] of an ARGB word. *)
Definition alpha (argb : Z) : Z := Z.land (Z.shiftr argb 24) 255.

Definition inside (img : t) (x y : Z) : bool :=
  (0 <=? x) && (x <? width img) && (0 <=? y) && (y <? height img).

(** [copy(rect)]: the sub-image; what lies outside the source is
    transparent, and an empty rectangle gives the null image. *)
Definition copy (img : t) (r : QRect) : t :=
  if (rect_width r <=? 0) || (rect_height r <=? 0) then null
  else mk (rect_width r) (rect_height r)
          (map (fun j =>
                  map (fun i =>
                         if inside img (rect_x r + i) (rect_y r + j)
                         then pixel img (rect_x r + i) (rect_y r + j)
                         else transparent)
                      (range (rect_width r)))
               (range (rect_height r))).

(** ** PNG container

    [save(buf, "PNG")] and [loadFromData(bytes, "PNG")].  The container
    is kept to what the program depends on: the eight signature bytes,
    the two dimensions on four bytes each and the pixel words on four
    bytes each (compression and checksums are left out).  Saving a null
    image fails and leaves the buffer empty. *)
Definition png_signature : list Z := [137; 80; 78; 71; 13; 10; 26; 10].

Definition be32 (v : Z) : list Z :=
  [ (v / 16777216) mod 256; (v / 65536) mod 256; (v / 256) mod 256; v mod 256 ].

Definition save_png (img : t) : list Z :=
  if isNull img then []
  else png_signature ++ be32 (width img) ++ be32 (height img)
       ++ flat_map (flat_map be32) (scanlines img).

Definition read32 (bs : list Z) : option (Z * list Z) :=
  match bs with
  | b0 :: b1 :: b2 :: b3 :: rest =>
      Some (((b0 * 256 + b1) * 256 + b2) * 256 + b3, rest)
  | _ => None
  end.

Fixpoint read_line (n : nat) (bs : list Z) : option (list Z * list Z) :=
  match n with
  | O => Some ([], bs)
  | S n' =>
      match read32 bs with
      | None => None
      | Some (v, rest) =>
          match read_line n' rest with
          | None => None
          | Some (vs, rest') => Some (v :: vs, rest')
          end
      end
  end.

Fixpoint read_lines (n wd : nat) (bs : list Z)
  : option (list (list Z) * list Z) :=
  match n with
  | O => Some ([], bs)
  | S n' =>
      match read_line wd bs with
      | None => None
      | Some (l, rest) =>
          match read_lines n' wd rest with
          | None => None
          | Some (ls, rest') => Some (l :: ls, rest')
          end
      end
  end.

Definition load_png (bs : list Z) : option t :=
  if list_eq_dec Z.eq_dec (firstn 8 bs) png_signature then
    match read32 (skipn 8 bs) with
    | None => None
    | Some (wd, rest) =>
        match read32 rest with
        | None => None
        | Some (ht, rest') =>
            if (wd <=? 0) || (ht <=? 0) then None
            else
              match read_lines (Z.to_nat ht) (Z.to_nat wd) rest' with
              | Some (ls, []) => Some (mk wd ht ls)
              | _ => None
              end
        end
    end
  else None.
End QImage.

(* ================================================================== *)
(** * [crop_alpha_bbox] *)
(* ================================================================== *)

(** The body of the two nested loops: the running bounding box
    [(minx, miny, maxx, maxy)] after looking at pixel [(x, y)]. *)
Definition bbox_step (qimg : QImage.t) (y : Z) (box : Z * Z * Z * Z) (x : Z)
  : Z * Z * Z * Z :=
  let '(minx, miny, maxx, maxy) := box in
  if QImage.alpha (QImage.pixel qimg x y) >? 0 then
    let minx := if x <? minx then x else minx in
    let miny := if y <? miny then y else miny in
    let maxx := if x >? maxx then x else maxx in
    let maxy := if y >? maxy then y else maxy in
    (minx, miny, maxx, maxy)
  else box.

Definition bbox_scan (qimg : QImage.t) : Z * Z * Z * Z :=
  let w := QImage.width qimg in
  let h := QImage.height qimg in
  fold_left
    (fun box y => fold_left (bbox_step qimg y) (range w) box)
    (range h) (w, h, -1, -1).

Definition crop_alpha_bbox (qimg : QImage.t) (padding : Z) : QImage.t :=
  let w := QImage.width qimg in
  let h := QImage.height qimg in
  let '(minx, miny, maxx, maxy) := bbox_scan qimg in
  if maxx <? 0 then qimg
  else
    let minx := max_int 0 (minx - padding) in
    let miny := max_int 0 (miny - padding) in
    let maxx := min_int (w - 1) (maxx + padding) in
    let maxy := min_int (h - 1) (maxy + padding) in
    let rect := mkQRect minx miny (maxx - minx + 1) (maxy - miny + 1) in
    QImage.copy qimg rect.


(* ================================================================== *)
(** * [os.path] and PyMuPDF ([fitz]) *)
(* ================================================================== *)

(** [s.rfind(c)]: index of the last occurrence, [-1] when there is none. *)
Fixpoint rfind_from (c : ascii) (l : list ascii) (i acc : Z) : Z :=
  match l with
  | [] => acc
  | a :: l' => rfind_from c l' (i + 1) (if Ascii.eqb a c then i else acc)
  end.

Definition rfind (c : ascii) (s : string) : Z :=
  rfind_from c (list_ascii_of_string s) 0 (-1).

(** [os.path.splitext(p)] (POSIX flavour): the extension starts at the last
    dot of the last path component, unless that component has only leading
    dots before it. *)
Definition splitext (p : string) : string * string :=
  let sepIndex := rfind "/" p in
  let dotIndex := rfind "." p in
  if sepIndex <? dotIndex then
    let stem := substring (Z.to_nat (sepIndex + 1))
                          (Z.to_nat (dotIndex - sepIndex - 1)) p in
    if existsb (fun a => negb (Ascii.eqb a "."))
               (list_ascii_of_string stem)
    then (substring 0 (Z.to_nat dotIndex) p,
          substring (Z.to_nat dotIndex) (String.length p) p)
    else (p, EmptyString)
  else (p, EmptyString).

(** Documents handled through PyMuPDF.  A page keeps its size in points and
    the images stamped on it; the files on disk and the clock read by
    [datetime.now()] form the outside world. *)
Module fitz.
Section Model.
Context {F : Type} `{PyFloat F}.

Record Page : Type := mkPage {
  page_width : F;
  page_height : F;
  images : list ((F * F * F * F) * list Z)
}.

Record Document : Type := mkDocument {
  name : string;
  pages : list Page
}.

Record World : Type := mkWorld {
  files : list (string * list Page);
  strftime_now : string
}.

Fixpoint lookup (path : string) (fs : list (string * list Page))
  : option (list Page) :=
  match fs with
  | [] => None
  | (n, ps) :: fs' => if String.eqb n path then Some ps else lookup path fs'
  end.

(** [os.path.exists(path)]. *)
Definition exists_ (wd : World) (path : string) : bool :=
  match lookup path (files wd) with Some _ => true | None => false end.

(** [fitz.open(path)]. *)
Definition open (wd : World) (path : string) : result Document :=
  match lookup path (files wd) with
  | Some ps => Return (mkDocument path ps)
  | None => Raise (FileNotFoundError ("no such file: '" ++ path ++ "'")%string)
  end.

(** [len(doc)]. *)
Definition len (doc : Document) : Z := Z.of_nat (List.length (pages doc)).

(** [doc[i]]: any [i < len(doc)] is in the document, negative numbers
    counting from the end; the result is the position of the loaded page. *)
Definition getitem (doc : Document) (i : Z) : result nat :=
  if i <? len doc
  then Return (Z.to_nat (i mod len doc))
  else Raise (IndexError "page not in document").

(** [Rect.is_empty]. *)
Definition rect_is_empty (r : F * F * F * F) : bool :=
  let '(x0, y0, x1, y1) := r in (x1 <=? x0)%py || (y1 <=? y0)%py.

Fixpoint update_nth (n : nat) (f : Page -> Page) (ps : list Page)
  : list Page :=
  match ps, n with
  | [], _ => []
  | p :: ps', O => f p :: ps'
  | p :: ps', S n' => p :: update_nth n' f ps'
  end.

(** A page with one more image stamped on it. *)
Definition stamped (rect : F * F * F * F) (stream : list Z) (p : Page)
  : Page :=
  mkPage (page_width p) (page_height p) (images p ++ [(rect, stream)]).

(** [page.insert_image(rect, stream=...)] on the page at position [n]. *)
Definition insert_image (doc : Document) (n : nat) (rect : F * F * F * F)
  (stream : list Z) : result Document :=
  if rect_is_empty rect
  then Raise (ValueError "rect must be finite and not empty")
  else Return
         (mkDocument (name doc)
            (update_nth n (stamped rect stream) (pages doc))).

(** [doc.save(out, ...)]. *)
Definition save (wd : World) (doc : Document) (out : string) : World :=
  mkWorld ((out, pages doc) :: files wd) (strftime_now wd).
End Model.
Arguments Page F : clear implicits.
Arguments Document F : clear implicits.
Arguments World F : clear implicits.
End fitz.

(* ================================================================== *)
(** * [insert_signature_png] *)
(* ================================================================== *)

Section InsertSignature.
Context {F : Type} `{PyFloat F}.
Local Open Scope py_monad_scope.

(** The page actually stamped: [max(0, min(page_index, len(doc) - 1))]. *)
Definition clamp_page_index (page_index : Z) (doc : fitz.Document F) : Z :=
  max_int 0 (min_int page_index (fitz.len doc - 1)).

Definition insert_signature_png (pdf_path : string) (page_index : Z)
  (rect_pt : F * F * F * F) (png_bytes : list Z)
  : M (fitz.World F) string :=
  wd <- get ;;
  doc <- lift (fitz.open wd pdf_path) ;;
  let page_index := clamp_page_index page_index doc in
  page <- lift (fitz.getitem doc page_index) ;;
  let rect := rect_pt in
  doc <- lift (fitz.insert_image doc page rect png_bytes) ;;
  let '(base, ext) := splitext pdf_path in
  let out := (base ++ "_firmado.pdf")%string in
  let out := if fitz.exists_ wd out
             then (base ++ "_firmado_" ++ fitz.strftime_now wd ++ ".pdf")%string
             else out in
  put (fitz.save wd doc out) ;;
  ret out.
End InsertSignature.

(* ================================================================== *)
(** * [SignatureCanvas]: smoothing and Catmull-Rom *)
(* ================================================================== *)

Module SignatureCanvas.
Section Methods.
Context {F : Type} `{PyFloat F}.
Local Open Scope py_monad_scope.

(** [QPainter.drawLine] with the round-capped pen of the given width on the
    drawing buffer: Qt's antialiasing rasterizer, taken as given. *)
Variable drawLine : QImage.t -> Z -> QPointF F -> QPointF F -> QImage.t.

Record t : Type := mk {
  pen_width : Z;
  min_start_dist : Z;
  min_seg_len : F;
  press_threshold : F;
  _pressed : bool;
  _img : QImage.t;
  _points : list (QPointF F);
  _raw_prev : option (QPointF F);
  _smooth_prev : option (QPointF F);
  _last_ms : Z;
  smin : F;
  smax : F;
  vref : F;
  _ma_win : list (F * F);
  (* the widget's own [width()] and [height()] *)
  widget_width : Z;
  widget_height : Z
}.

Definition with_img (v : QImage.t) (s : t) : t :=
  mk (pen_width s) (min_start_dist s) (min_seg_len s) (press_threshold s)
     (_pressed s) v (_points s) (_raw_prev s) (_smooth_prev s) (_last_ms s)
     (smin s) (smax s) (vref s) (_ma_win s) (widget_width s) (widget_height s).
Definition with_points (v : list (QPointF F)) (s : t) : t :=
  mk (pen_width s) (min_start_dist s) (min_seg_len s) (press_threshold s)
     (_pressed s) (_img s) v (_raw_prev s) (_smooth_prev s) (_last_ms s)
     (smin s) (smax s) (vref s) (_ma_win s) (widget_width s) (widget_height s).
Definition with_prev (r sm : option (QPointF F)) (s : t) : t :=
  mk (pen_width s) (min_start_dist s) (min_seg_len s) (press_threshold s)
     (_pressed s) (_img s) (_points s) r sm (_last_ms s)
     (smin s) (smax s) (vref s) (_ma_win s) (widget_width s) (widget_height s).
Definition with_last_ms (v : Z) (s : t) : t :=
  mk (pen_width s) (min_start_dist s) (min_seg_len s) (press_threshold s)
     (_pressed s) (_img s) (_points s) (_raw_prev s) (_smooth_prev s) v
     (smin s) (smax s) (vref s) (_ma_win s) (widget_width s) (widget_height s).
Definition with_ma_win (v : list (F * F)) (s : t) : t :=
  mk (pen_width s) (min_start_dist s) (min_seg_len s) (press_threshold s)
     (_pressed s) (_img s) (_points s) (_raw_prev s) (_smooth_prev s)
     (_last_ms s) (smin s) (smax s) (vref s) v
     (widget_width s) (widget_height s).

(** [__init__(size_px, pen_width)]; [elapsed] is the reading of the timer
    that was just started and [ww], [wh] the size the layout gives to the
    widget. *)
Definition init (size_px : QSize) (pen_width : Z) (elapsed ww wh : Z) : t :=
  mk pen_width 6
     (max_float (lit 12 10 * of_int pen_width)%py (of_int 6))
     (lit 10 100) false
     (QImage.filled size_px QImage.transparent)
     [] None None elapsed
     (lit 14 100) (lit 65 100) (lit 28 10)
     []
     ww wh.

Definition image (self : t) : QImage.t := _img self.

(** ** Smoothing *)

Definition _alpha_for (v : F) : M t F :=
  self <- get ;;
  q <- lift (truediv v (vref self)) ;;
  let t := max_float (of_int 0) (min_float (of_int 1) q) in
  ret (smin self + (smax self - smin self) * t)%py.

(** The divisor of the speed: [dt = max(1, now - self._last_ms)]. *)
Definition ema_dt (self : t) (now : Z) : Z := max_int 1 (now - _last_ms self).

(** [now] is the reading [self._timer.elapsed()]. *)
Definition _ema (now : Z) (pt : QPointF F) : M t (QPointF F) :=
  self <- get ;;
  let dt := ema_dt self now in
  put (with_last_ms now self) ;;
  self <- get ;;
  match _smooth_prev self, _raw_prev self with
  | Some smooth_prev, Some raw_prev =>
      let dx := (px pt - px raw_prev)%py in
      let dy := (py pt - py raw_prev)%py in
      v <- lift (truediv_int (fsqrt (dx * dx + dy * dy)%py) dt) ;;
      a <- _alpha_for v ;;
      let sx := ((of_int 1 - a) * px smooth_prev + a * px pt)%py in
      let sy := ((of_int 1 - a) * py smooth_prev + a * py pt)%py in
      modify (with_prev (Some pt) (Some (mkQPointF sx sy))) ;;
      ret (mkQPointF sx sy)
  | _, _ =>
      modify (with_prev (Some pt) (Some pt)) ;;
      ret pt
  end.

(** [deque(maxlen=n).append(a)]. *)
Definition deque_append {A : Type} (maxlen : nat) (d : list A) (a : A)
  : list A :=
  let d' := d ++ [a] in
  if Nat.ltb maxlen (List.length d') then tl d' else d'.

(** [sum(...)] starts from the integer [0]. *)
Definition sum (xs : list F) : F := fold_left fadd xs (of_int 0).

Definition _moving_avg (pt : QPointF F) : M t (QPointF F) :=
  modify (fun self =>
            with_ma_win (deque_append 8 (_ma_win self) (px pt, py pt)) self) ;;
  self <- get ;;
  let n := Z.of_nat (List.length (_ma_win self)) in
  sx <- lift (truediv_int (sum (map fst (_ma_win self))) n) ;;
  sy <- lift (truediv_int (sum (map snd (_ma_win self))) n) ;;
  ret (mkQPointF sx sy).

(** ** Catmull-Rom *)

Definition _catmull (p0 p1 p2 p3 : QPointF F) (t : F) : QPointF F :=
  let t2 := (t * t)%py in
  let t3 := (t * t * t)%py in
  let x := (lit 5 10 * (
      (of_int 2 * px p1) + (- px p0 + px p2) * t +
      (of_int 2 * px p0 - of_int 5 * px p1 + of_int 4 * px p2 - px p3) * t2 +
      (- px p0 + of_int 3 * px p1 - of_int 3 * px p2 + px p3) * t3
    ))%py in
  let y := (lit 5 10 * (
      (of_int 2 * py p1) + (- py p0 + py p2) * t +
      (of_int 2 * py p0 - of_int 5 * py p1 + of_int 4 * py p2 - py p3) * t2 +
      (- py p0 + of_int 3 * py p1 - of_int 3 * py p2 + py p3) * t3
    ))%py in
  mkQPointF x y.

(** Offset of the drawing buffer, centred in the widget. *)
Definition buf_offset (self : t) : F * F :=
  ((of_int (widget_width self - QImage.width (_img self)) / of_int 2)%py,
   (of_int (widget_height self - QImage.height (_img self)) / of_int 2)%py).

Definition to_buf (off : F * F) (q : QPointF F) : QPointF F :=
  mkQPointF (px q - fst off)%py (py q - snd off)%py.

(** [(a - b).manhattanLength()]. *)
Definition manhattan (a b : QPointF F) : F :=
  (fabs (px a - px b) + fabs (py a - py b))%py.

(** The sub-segments stroked for one spline span: from the value at [0.0]
    through the values at [i / steps], [i = 1 .. steps]. *)
Definition spline_steps (p1b p2b : QPointF F) : Z :=
  max_int 16 (to_int (manhattan p2b p1b / lit 8 10)%py).

Definition _draw_spline_segment (p0 p1 p2 p3 : QPointF F) : M t unit :=
  self <- get ;;
  let off := buf_offset self in
  let p0b := to_buf off p0 in
  let p1b := to_buf off p1 in
  let p2b := to_buf off p2 in
  let p3b := to_buf off p3 in
  let steps := spline_steps p1b p2b in
  let prev := _catmull p0b p1b p2b p3b (of_int 0) in
  let '(img, _) :=
    fold_left
      (fun '(img, prev) i =>
         let t := (of_int i / of_int steps)%py in
         let cur := _catmull p0b p1b p2b p3b t in
         (drawLine img (pen_width self) prev cur, cur))
      (map (fun i => i + 1) (range steps))
      (_img self, prev) in
  put (with_img img self).

(** ** Stroke flow *)

Definition _stroke_begin (pos_w : QPointF F) : M t unit :=
  modify (fun self =>
            with_ma_win [] (with_prev None None (with_points [pos_w] self))).

Definition _stroke_add (now : Z) (pos_w : QPointF F) : M t unit :=
  s <- _ema now pos_w ;;
  s <- _moving_avg s ;;
  self <- get ;;
  match _points self with
  | [first] =>
      if (manhattan s first <? min_seg_len self)%py then ret tt
      else
        let off := buf_offset self in
        let a := to_buf off first in
        let b := to_buf off s in
        put (with_img (drawLine (_img self) (pen_width self) a b)
               (with_points [first; s] self))
  | _ =>
      let points := _points self ++ [s] in
      put (with_points points self) ;;
      match rev points with
      | p3 :: p2 :: p1 :: p0 :: _ => _draw_spline_segment p0 p1 p2 p3
      | _ => ret tt
      end
  end.

Definition _stroke_end : M t unit :=
  modify (fun self => with_ma_win [] (with_prev None None (with_points [] self))).

(** ** Mouse *)

Definition mousePressEvent (left_button : bool) (pos : QPointF F) : M t unit :=
  if negb left_button then ret tt else _stroke_begin pos.

Definition mouseMoveEvent (left_held : bool) (now : Z) (pos : QPointF F)
  : M t unit :=
  if negb left_held then ret tt else _stroke_add now pos.

Definition mouseReleaseEvent (left_button : bool) : M t unit :=
  if left_button then _stroke_end else ret tt.

Definition clear : M t unit :=
  modify (fun self =>
            with_img (QImage.filled
                        (mkQSize (QImage.width (_img self))
                                 (QImage.height (_img self)))
                        QImage.transparent) self).

(** ** Painting *)

(** [paintEvent]: where the buffer is drawn in the widget, and what is
    drawn. *)
Definition paintEvent (self : t) : Z * Z * QImage.t :=
  let pm := _img self in
  let x := (widget_width self - QImage.width pm) / 2 in
  let y := (widget_height self - QImage.height pm) / 2 in
  (x, y, pm).

(** ** Pen *)

Inductive tablet_type : Type :=
| TabletPress
| TabletMove
| TabletRelease
| TabletOther.

(** What [tabletEvent] reads of a [QTabletEvent]: its type, position and
    pressure, and whether the left button is among [buttons()]. *)
Record tablet_event : Type := mk_tablet_event {
  ev_type : tablet_type;
  ev_position : QPointF F;
  ev_pressure : F;
  ev_left_button : bool
}.

Definition with_pressed (v : bool) (s : t) : t :=
  mk (pen_width s) (min_start_dist s) (min_seg_len s) (press_threshold s)
     v (_img s) (_points s) (_raw_prev s) (_smooth_prev s) (_last_ms s)
     (smin s) (smax s) (vref s) (_ma_win s) (widget_width s) (widget_height s).

(** The pen counts as down for the pressed flag, a pressure above the
    threshold or the left button. *)
Definition tablet_down (self : t) (ev : tablet_event) : bool :=
  _pressed self
  || (press_threshold self <? ev_pressure ev)%py
  || ev_left_button ev.

(** [tabletEvent]; the result tells whether the event was accepted or
    passed on to the base class. *)
Definition tabletEvent (now : Z) (ev : tablet_event) : M t bool :=
  self <- get ;;
  let pos := ev_position ev in
  let down := tablet_down self ev in
  match ev_type ev with
  | TabletPress =>
      modify (with_pressed true) ;; _stroke_begin pos ;; ret true
  | TabletMove =>
      if negb down then
        modify (with_pressed false) ;; _stroke_end ;; ret true
      else
        (match _points self with
         | [] => _stroke_begin pos
         | _ => ret tt
         end) ;;
        _stroke_add now pos ;; ret true
  | TabletRelease =>
      modify (with_pressed false) ;; _stroke_end ;; ret true
  | TabletOther => ret false
  end.
End Methods.
Arguments t F : clear implicits.
Arguments tablet_event F : clear implicits.
End SignatureCanvas.

(* ================================================================== *)
(** * [SignaturePad]: the modal capture dialog *)
(* ================================================================== *)

Module SignaturePad.
Section Methods.
Context {F : Type} `{PyFloat F}.
Variable drawLine : QImage.t -> Z -> QPointF F -> QPointF F -> QImage.t.

Record t : Type := mk {
  canvas : SignatureCanvas.t F;
  _png_bytes : option (list Z)
}.

Inductive DialogCode : Type := Accepted | Rejected.

(** What the user does while the dialog runs. *)
Inductive event : Type :=
| MousePress (left_button : bool) (pos : QPointF F)
| MouseMove (left_held : bool) (now : Z) (pos : QPointF F)
| MouseRelease (left_button : bool)
| ClickClear
| ClickConfirm
| ClickCancel.

Definition init (size_px : QSize) (pen_width : Z) (elapsed ww wh : Z) : t :=
  mk (SignatureCanvas.init size_px pen_width elapsed ww wh) None.

Definition result_png_bytes (self : t) : option (list Z) := _png_bytes self.

(** [accept()]: the buffer cropped to its alpha box, saved as PNG. *)
Definition accept (self : t) : t :=
  let qimg := crop_alpha_bbox (SignatureCanvas.image (canvas self)) 16 in
  mk (canvas self) (Some (QImage.save_png qimg)).

Definition reject (self : t) : t := mk (canvas self) None.

(** An event delivered to the canvas; an exception escaping a handler is
    reported by the event loop and the state reached is kept. *)
Definition on_canvas (m : M (SignatureCanvas.t F) unit) (self : t) : t :=
  mk (snd (m (canvas self))) (_png_bytes self).

(** [exec()]: the events are handled until the dialog is confirmed or
    cancelled; closing the window rejects it. *)
Fixpoint exec (script : list event) (self : t) : DialogCode * t :=
  match script with
  | [] => (Rejected, reject self)
  | ClickConfirm :: _ => (Accepted, accept self)
  | ClickCancel :: _ => (Rejected, reject self)
  | MousePress b pos :: rest =>
      exec rest (on_canvas (SignatureCanvas.mousePressEvent b pos) self)
  | MouseMove b now pos :: rest =>
      exec rest
        (on_canvas (SignatureCanvas.mouseMoveEvent drawLine b now pos) self)
  | MouseRelease b :: rest =>
      exec rest (on_canvas (SignatureCanvas.mouseReleaseEvent b) self)
  | ClickClear :: rest => exec rest (on_canvas SignatureCanvas.clear self)
  end.
End Methods.
Arguments t F : clear implicits.
Arguments event F : clear implicits.
End SignaturePad.

(* ================================================================== *)
(** * [PdfViewer]: selection, editable preview, apply and cancel *)
(* ================================================================== *)

Module PdfViewer.
Section Methods.
Context {F : Type} `{PyFloat F}.
Variable drawLine : QImage.t -> Z -> QPointF F -> QPointF F -> QImage.t.
Local Open Scope py_monad_scope.

Inductive corner : Type := tl | tr | bl | br.

(** [QMessageBox.warning / critical / information (self, title, text)]. *)
Inductive message : Type :=
| warning (title text : string)
| critical (title text : string)
| information (title text : string).

(** The calls made on the painter of the canvas pixmap. *)
Inductive draw_cmd : Type :=
| drawPixmap (x y : Z)
| drawRect (r : QRectF.t F)
| drawImage (target : QRectF.t F) (img : QImage.t)
| fillRect (r : QRectF.t F).

Record t : Type := mk {
  doc : option (fitz.Document F);
  page_index : Z;
  render_scale : F;
  pm_size : QSize;
  (* [self.canvas.contentsRect()] and the pixmap set on the label *)
  contentsRect : QRect;
  canvas_pixmap : list draw_cmd;
  btn_apply_visible : bool;
  btn_cancel_visible : bool;
  sel_start : option (QPointF F);
  sel_rect : option (QRectF.t F);
  _page_pix : option QImage.t;
  _preview_active : bool;
  _preview_img : option QImage.t;
  _preview_rect : option (QRectF.t F);
  _dragging : bool;
  _resizing : option corner;
  _drag_start : option (QPointF F);
  _orig_rect : option (QRectF.t F);
  (* the message boxes shown so far, oldest first *)
  message_boxes : list message
}.

Definition with_canvas_pixmap (v : list draw_cmd) (s : t) : t :=
  mk (doc s) (page_index s) (render_scale s) (pm_size s) (contentsRect s) v
     (btn_apply_visible s) (btn_cancel_visible s) (sel_start s) (sel_rect s)
     (_page_pix s) (_preview_active s) (_preview_img s) (_preview_rect s)
     (_dragging s) (_resizing s) (_drag_start s) (_orig_rect s)
     (message_boxes s).
Definition with_buttons (apply_v cancel_v : bool) (s : t) : t :=
  mk (doc s) (page_index s) (render_scale s) (pm_size s) (contentsRect s)
     (canvas_pixmap s) apply_v cancel_v (sel_start s) (sel_rect s)
     (_page_pix s) (_preview_active s) (_preview_img s) (_preview_rect s)
     (_dragging s) (_resizing s) (_drag_start s) (_orig_rect s)
     (message_boxes s).
Definition with_sel (start : option (QPointF F)) (r : option (QRectF.t F))
  (s : t) : t :=
  mk (doc s) (page_index s) (render_scale s) (pm_size s) (contentsRect s)
     (canvas_pixmap s) (btn_apply_visible s) (btn_cancel_visible s) start r
     (_page_pix s) (_preview_active s) (_preview_img s) (_preview_rect s)
     (_dragging s) (_resizing s) (_drag_start s) (_orig_rect s)
     (message_boxes s).
Definition with_preview (active : bool) (img : option QImage.t)
  (r : option (QRectF.t F)) (s : t) : t :=
  mk (doc s) (page_index s) (render_scale s) (pm_size s) (contentsRect s)
     (canvas_pixmap s) (btn_apply_visible s) (btn_cancel_visible s)
     (sel_start s) (sel_rect s) (_page_pix s) active img r
     (_dragging s) (_resizing s) (_drag_start s) (_orig_rect s)
     (message_boxes s).
Definition with_preview_rect (r : QRectF.t F) (s : t) : t :=
  with_preview (_preview_active s) (_preview_img s) (Some r) s.
Definition with_gesture (dragging : bool) (resizing : option corner)
  (start : option (QPointF F)) (orig : option (QRectF.t F)) (s : t) : t :=
  mk (doc s) (page_index s) (render_scale s) (pm_size s) (contentsRect s)
     (canvas_pixmap s) (btn_apply_visible s) (btn_cancel_visible s)
     (sel_start s) (sel_rect s) (_page_pix s) (_preview_active s)
     (_preview_img s) (_preview_rect s) dragging resizing start orig
     (message_boxes s).
Definition show (m : message) (s : t) : t :=
  mk (doc s) (page_index s) (render_scale s) (pm_size s) (contentsRect s)
     (canvas_pixmap s) (btn_apply_visible s) (btn_cancel_visible s)
     (sel_start s) (sel_rect s) (_page_pix s) (_preview_active s)
     (_preview_img s) (_preview_rect s) (_dragging s) (_resizing s)
     (_drag_start s) (_orig_rect s) (message_boxes s ++ [m]).

(** [__init__]; [cr] is the rectangle the layout gives to the label. *)
Definition init (cr : QRect) : t :=
  mk None 0 (of_int 1) (mkQSize 1 1) cr [] false false None None None
     false None None false None None None [].

Definition _target_rect (self : t) : QRect := contentsRect self.

(** Truth value of an attribute holding [None] or a rectangle. *)
Definition rect_truthy (r : option (QRectF.t F)) : bool :=
  match r with Some r => QRectF.truthy r | None => false end.

(** Truth value of [self.doc]: a document is true when it has pages. *)
Definition doc_truthy (d : option (fitz.Document F)) : bool :=
  match d with Some d => negb (fitz.len d =? 0) | None => false end.

(** The page image inside the canvas, as the gesture handlers compute it. *)
Definition pix_rect (self : t) : QRectF.t F :=
  let cr := _target_rect self in
  QRectF.mk
    (of_int (rect_width cr - size_width (pm_size self)) / of_int 2)%py
    (of_int (rect_height cr - size_height (pm_size self)) / of_int 2)%py
    (of_int (size_width (pm_size self)))
    (of_int (size_height (pm_size self))).

(** Contain fit of an image of size [img_w] x [img_h] in [r]: the scale and
    the rectangle the image is drawn in. *)
Definition contain_fit (r : QRectF.t F) (img_w img_h : Z)
  : F * QRectF.t F :=
  let sx := (QRectF.width r / of_int img_w)%py in
  let sy := (QRectF.height r / of_int img_h)%py in
  let scale := min_float sx sy in
  let draw_w := (of_int img_w * scale)%py in
  let draw_h := (of_int img_h * scale)%py in
  let draw_x := (QRectF.x r + (QRectF.width r - draw_w) / of_int 2)%py in
  let draw_y := (QRectF.y r + (QRectF.height r - draw_h) / of_int 2)%py in
  (scale, QRectF.mk draw_x draw_y draw_w draw_h).

Definition handles (r : QRectF.t F) : list draw_cmd :=
  let handle := of_int 8 in
  map (fun '(cx, cy) =>
         fillRect (QRectF.mk (cx - handle / of_int 2)%py
                             (cy - handle / of_int 2)%py handle handle))
      [ (QRectF.left r, QRectF.top r); (QRectF.right r, QRectF.top r);
        (QRectF.left r, QRectF.bottom r); (QRectF.right r, QRectF.bottom r) ].

Definition _draw_canvas (self : t) : t :=
  let cr := _target_rect self in
  let x_off := (rect_width cr - size_width (pm_size self)) / 2 in
  let y_off := (rect_height cr - size_height (pm_size self)) / 2 in
  let page :=
    match _page_pix self with
    | Some pm => if QImage.isNull pm then [] else [drawPixmap x_off y_off]
    | None => []
    end in
  let selection :=
    match sel_rect self with
    | Some sr =>
        if QRectF.truthy sr && negb (QRectF.isEmpty sr)
           && negb (_preview_active self)
        then
          let pix_rect :=
            QRectF.mk (of_int x_off) (of_int y_off)
                      (of_int (size_width (pm_size self)))
                      (of_int (size_height (pm_size self))) in
          [drawRect (QRectF.intersected sr pix_rect)]
        else []
    | None => []
    end in
  let preview :=
    match _preview_active self, _preview_img self, _preview_rect self with
    | true, Some img, Some r =>
        let img_w := QImage.width img in
        let img_h := QImage.height img in
        if (img_w >? 0) && (img_h >? 0) then
          let '(_, target) := contain_fit r img_w img_h in
          drawRect r :: drawImage target img :: handles r
        else []
    | _, _, _ => []
    end in
  with_canvas_pixmap (page ++ selection ++ preview) self.

(** ** Selection and preview gestures *)

Definition _pos_local (self : t) (pos : QPointF F) : QPointF F * QRect :=
  let cr := _target_rect self in
  (mkQPointF (px pos - of_int (rect_x cr))%py (py pos - of_int (rect_y cr))%py,
   cr).

Definition _hit_corner (pos : QPointF F) (r : QRectF.t F) (tol : Z)
  : option corner :=
  let corners :=
    [ (tl, mkQPointF (QRectF.left r) (QRectF.top r));
      (tr, mkQPointF (QRectF.right r) (QRectF.top r));
      (bl, mkQPointF (QRectF.left r) (QRectF.bottom r));
      (br, mkQPointF (QRectF.right r) (QRectF.bottom r)) ] in
  match
    find (fun '(_, c) =>
            (fabs (px pos - px c) <=? of_int tol)%py
            && (fabs (py pos - py c) <=? of_int tol)%py) corners
  with
  | Some (name, _) => Some name
  | None => None
  end.

Definition _start_sel (pos : QPointF F) (self : t) : t :=
  let '(p, cr) := _pos_local self pos in
  if negb (QRectF.contains
             (QRectF.mk (of_int 0) (of_int 0) (of_int (rect_width cr))
                        (of_int (rect_height cr))) p)
  then self
  else
    match _preview_active self, _preview_rect self with
    | true, Some pr =>
        if QRectF.truthy pr then
          let self :=
            match _hit_corner p pr 12 with
            | Some c => with_gesture false (Some c) (Some p) (Some pr) self
            | None =>
                if QRectF.contains pr p
                then with_gesture true None (Some p) (Some pr) self
                else self
            end in
          _draw_canvas self
        else _draw_canvas (with_sel (Some p) (Some (QRectF.of_points p p)) self)
    | _, _ =>
        _draw_canvas (with_sel (Some p) (Some (QRectF.of_points p p)) self)
    end.

(** The rectangle of a resize gesture: the grabbed corner follows the
    pointer, then the minimum size is restored from the left/top edge. *)
Definition resized (c : corner) (orig : QRectF.t F) (dx dy : F)
  : QRectF.t F :=
  let r := orig in
  let r :=
    match c with
    | tl => let r := QRectF.setTop r (QRectF.top r + dy)%py in
            QRectF.setLeft r (QRectF.left r + dx)%py
    | tr => let r := QRectF.setTop r (QRectF.top r + dy)%py in
            QRectF.setRight r (QRectF.right r + dx)%py
    | bl => let r := QRectF.setBottom r (QRectF.bottom r + dy)%py in
            QRectF.setLeft r (QRectF.left r + dx)%py
    | br => let r := QRectF.setBottom r (QRectF.bottom r + dy)%py in
            QRectF.setRight r (QRectF.right r + dx)%py
    end in
  let r := if (QRectF.width r <? of_int 40)%py
           then QRectF.setRight r (QRectF.left r + of_int 40)%py else r in
  let r := if (QRectF.height r <? of_int 20)%py
           then QRectF.setBottom r (QRectF.top r + of_int 20)%py else r in
  r.

(** The tail of [_drag_sel]: growing the ordinary selection. *)
Definition drag_selection (p : QPointF F) (self : t) : t :=
  match sel_start self with
  | None => self
  | Some s0 =>
      _draw_canvas
        (with_sel (sel_start self)
                  (Some (QRectF.normalized (QRectF.of_points s0 p))) self)
  end.

Definition _drag_sel (pos : QPointF F) (self : t) : t :=
  let '(p, _) := _pos_local self pos in
  if _preview_active self && rect_truthy (_preview_rect self) then
    let pix_rect := pix_rect self in
    if _dragging self then
      match _drag_start self, _orig_rect self with
      | Some start, Some orig =>
          let dx := (px p - px start)%py in
          let dy := (py p - py start)%py in
          let r := QRectF.translate orig dx dy in
          let r := QRectF.intersected r pix_rect in
          _draw_canvas (with_preview_rect r self)
      | _, _ => self  (* a [TypeError] before any assignment *)
      end
    else
      match _resizing self with
      | Some c =>
          match _drag_start self, _orig_rect self with
          | Some start, Some orig =>
              let dx := (px p - px start)%py in
              let dy := (py p - py start)%py in
              let r := resized c orig dx dy in
              let r := QRectF.intersected r pix_rect in
              _draw_canvas (with_preview_rect r self)
          | _, _ => self  (* a [TypeError] before any assignment *)
          end
      | None => drag_selection p self
      end
  else drag_selection p self.

Definition _end_sel (self : t) : t :=
  let self :=
    with_gesture false None (_drag_start self) (_orig_rect self) self in
  match sel_start self with
  | None => self
  | Some _ => with_sel None (sel_rect self) (_draw_canvas self)
  end.

(** [delta] is [ev.angleDelta().y()]. *)
Definition _wheel_event (pos : QPointF F) (delta : Z) (self : t) : t :=
  match _preview_active self, _preview_rect self with
  | true, Some pr =>
      if negb (QRectF.truthy pr) then self
      else
        let '(p, _) := _pos_local self pos in
        if negb (QRectF.contains pr p) then self
        else
          let factor := (of_int 1 + lit 15 10000 * of_int delta)%py in
          let r := pr in
          let c := QRectF.center r in
          let r0 := QRectF.setWidth r (QRectF.width r * factor)%py in
          let r := QRectF.setHeight r0 (QRectF.height r0 * factor)%py in
          let r := QRectF.moveCenter r c in
          let r := QRectF.intersected r (pix_rect self) in
          _draw_canvas (with_preview_rect r self)
  | _, _ => self
  end.

(** ** Canvas to PDF points *)

Definition to_pdf_points (self : t) (r : QRectF.t F)
  : result (option (F * F * F * F)) :=
  let cr := _target_rect self in
  let x_off := (of_int (rect_width cr - size_width (pm_size self)) / of_int 2)%py in
  let y_off := (of_int (rect_height cr - size_height (pm_size self)) / of_int 2)%py in
  let r2 := QRectF.translate r (- x_off)%py (- y_off)%py in
  let r2 := QRectF.intersected r2
              (QRectF.mk (of_int 0) (of_int 0)
                         (of_int (size_width (pm_size self)))
                         (of_int (size_height (pm_size self)))) in
  if QRectF.isEmpty r2 then Return None
  else
    bind (truediv (QRectF.left r2) (render_scale self)) (fun a =>
    bind (truediv (QRectF.top r2) (render_scale self)) (fun b =>
    bind (truediv (QRectF.right r2) (render_scale self)) (fun c =>
    bind (truediv (QRectF.bottom r2) (render_scale self)) (fun d =>
    Return (Some (a, b, c, d)))))).

Definition _rect_to_pdf_points (self : t) : result (option (F * F * F * F)) :=
  match sel_rect self with
  | None => Return None
  | Some sr =>
      if negb (QRectF.truthy sr) || QRectF.isEmpty sr then Return None
      else to_pdf_points self sr
  end.

Definition _canvas_rect_to_pdf_points (self : t) (r : QRectF.t F)
  : result (option (F * F * F * F)) :=
  to_pdf_points self r.

(** ** Signing flow *)

Definition nl : string := String (ascii_of_nat 10) EmptyString.

Definition cancel_signature (self : t) : t :=
  _draw_canvas (with_buttons false false (with_preview false None None self)).

(** The modal pad opened by [sign_here]: the timer reading and widget size
    at its creation, and what the user does in it. *)
Record pad_session : Type := mk_pad_session {
  pad_elapsed : Z;
  pad_width : Z;
  pad_height : Z;
  pad_script : list (SignaturePad.event F)
}.

(** The size of the pad's drawing buffer: the selected rectangle at 300 dpi,
    kept within 600..3000 by 300..2000 pixels. *)
Definition pad_size_px (rect_pt : F * F * F * F) : QSize :=
  let '(left_pt, top_pt, right_pt, bottom_pt) := rect_pt in
  let width_pt := max_float (of_int 1) (right_pt - left_pt)%py in
  let height_pt := max_float (of_int 1) (bottom_pt - top_pt)%py in
  let dpi := 300 in
  let width_px := to_int (width_pt / of_int 72 * of_int dpi)%py in
  let height_px := to_int (height_pt / of_int 72 * of_int dpi)%py in
  let width_px := max_int 600 (min_int width_px 3000) in
  let height_px := max_int 300 (min_int height_px 2000) in
  mkQSize width_px height_px.

Definition sign_here (session : pad_session) : M t unit :=
  self <- get ;;
  if negb (doc_truthy (doc self)) then
    put (show (warning "Firmar" "Abre un PDF primero.") self)
  else
    rect_pt <- lift (_rect_to_pdf_points self) ;;
    match rect_pt with
    | None =>
        put (show (warning "Firmar" "Dibuja un rectángulo para la firma.") self)
    | Some rect_pt =>
        let pad := SignaturePad.init (pad_size_px rect_pt) 7
                     (pad_elapsed session) (pad_width session)
                     (pad_height session) in
        match SignaturePad.exec drawLine (pad_script session) pad with
        | (SignaturePad.Rejected, _) => ret tt
        | (SignaturePad.Accepted, pad) =>
            match SignaturePad.result_png_bytes pad with
            | None | Some [] => ret tt
            | Some png_bytes =>
                match QImage.load_png png_bytes with
                | None =>
                    put (show (critical "Firma"
                                 "No se pudo leer la imagen de la firma.") self)
                | Some img =>
                    match sel_rect self with
                    | Some sr =>
                        if negb (QRectF.truthy sr) || QRectF.isEmpty sr then
                          put (show (warning "Firma"
                                 "Selecciona el área objetivo en la página.")
                                 self)
                        else
                          put (_draw_canvas
                                 (with_buttons true true
                                    (with_preview true (Some img) (Some sr)
                                       self)))
                    | None =>
                        put (show (warning "Firma"
                               "Selecciona el área objetivo en la página.")
                               self)
                    end
                end
            end
        end
    end.

(** [apply_signature] works on the viewer and on the files on disk. *)
Definition apply_signature : M (fitz.World F * t) unit :=
  st <- get ;;
  let '(wd, self) := st in
  match _preview_active self, _preview_img self, _preview_rect self with
  | true, Some img, Some pr =>
      rect_pt <- lift (_canvas_rect_to_pdf_points self pr) ;;
      match rect_pt with
      | None =>
          put (wd, show (warning "Firmar" "La firma quedó fuera de la página.")
                        self)
      | Some rect_pt =>
          let png_bytes := QImage.save_png img in
          (* try: *)
          let '(outcome, wd) :=
            match doc self with
            | Some d =>
                insert_signature_png (fitz.name d) (page_index self) rect_pt
                  png_bytes wd
            | None =>
                (Raise (AttributeError
                          "'NoneType' object has no attribute 'name'"), wd)
            end in
          let self :=
            match outcome with
            | Return out =>
                show (information "Firmar"
                        ("PDF firmado guardado:" ++ nl ++ out)%string) self
            (* except Exception as e: *)
            | Raise e =>
                show (critical "Firmar"
                        ("Error al insertar firma:" ++ nl ++ str_exn e)%string)
                     self
            end in
          (* finally: *)
          put (wd, cancel_signature self)
      end
  | _, _, _ => ret tt
  end.

(** ** The pointer events bound to the canvas label *)

Inductive event : Type :=
| Press (pos : QPointF F)
| Move (pos : QPointF F)
| Release
| Wheel (pos : QPointF F) (delta : Z).

Definition handle (self : t) (e : event) : t :=
  match e with
  | Press pos => _start_sel pos self
  | Move pos => _drag_sel pos self
  | Release => _end_sel self
  | Wheel pos delta => _wheel_event pos delta self
  end.

Definition run (events : list event) (self : t) : t :=
  fold_left handle events self.

(** ** Rendering a page and navigation *)

(** [page.get_pixmap(matrix=fitz.Matrix(s, s), alpha=False)], turned into
    the image of the page: PyMuPDF's renderer, taken as given. *)
Variable get_pixmap : fitz.Page F -> F -> QImage.t.

(** The viewer with the two attributes that only page rendering touches:
    the text of the label [lbl_page] and [_page_pt_size]. *)
Record page_view : Type := mk_page_view {
  viewer : t;
  lbl_page : string;
  _page_pt_size : F * F
}.

Definition with_page_index (v : Z) (s : t) : t :=
  mk (doc s) v (render_scale s) (pm_size s) (contentsRect s)
     (canvas_pixmap s) (btn_apply_visible s) (btn_cancel_visible s)
     (sel_start s) (sel_rect s) (_page_pix s) (_preview_active s)
     (_preview_img s) (_preview_rect s) (_dragging s) (_resizing s)
     (_drag_start s) (_orig_rect s) (message_boxes s).
Definition with_rendering (scale : F) (size : QSize) (pix : QImage.t)
  (s : t) : t :=
  mk (doc s) (page_index s) scale size (contentsRect s)
     (canvas_pixmap s) (btn_apply_visible s) (btn_cancel_visible s)
     (sel_start s) (sel_rect s) (Some pix) (_preview_active s)
     (_preview_img s) (_preview_rect s) (_dragging s) (_resizing s)
     (_drag_start s) (_orig_rect s) (message_boxes s).

Definition render_page : M page_view unit :=
  pv <- get ;;
  let self := viewer pv in
  match doc self with
  | Some d =>
      if fitz.len d =? 0 then
        put (mk_page_view (with_canvas_pixmap [] self) "-/-"
               (_page_pt_size pv))
      else
        n <- lift (fitz.getitem d (page_index self)) ;;
        match nth_error (fitz.pages d) n with
        | None => raise (IndexError "page not in document")
        | Some page =>
            let pt_size := (fitz.page_width page, fitz.page_height page) in
            put (mk_page_view self (lbl_page pv) pt_size) ;;
            let cr := _target_rect self in
            let W := rect_width cr in
            let H := rect_height cr in
            if (W <? 5) || (H <? 5) then ret tt
            else
              a <- lift (truediv (of_int W) (fst pt_size)) ;;
              b <- lift (truediv (of_int H) (snd pt_size)) ;;
              let s := max_float (lit 1 10) (min_float a b) in
              let pix := get_pixmap page s in
              let self :=
                with_rendering s
                  (mkQSize (QImage.width pix) (QImage.height pix)) pix self in
              let self := _draw_canvas self in
              let label :=
                (str_int (page_index self + 1) ++ "/"
                 ++ str_int (fitz.len d))%string in
              let self := with_sel (sel_start self) None self in
              put (mk_page_view (cancel_signature self) label pt_size)
        end
  | None =>
      put (mk_page_view (with_canvas_pixmap [] self) "-/-" (_page_pt_size pv))
  end.

Definition at_page (v : Z) (pv : page_view) : page_view :=
  mk_page_view (with_page_index v (viewer pv)) (lbl_page pv)
               (_page_pt_size pv).

Definition prev_page : M page_view unit :=
  pv <- get ;;
  let self := viewer pv in
  if negb (doc_truthy (doc self)) then ret tt
  else if 0 <? page_index self then
    put (at_page (page_index self - 1) pv) ;; render_page
  else ret tt.

Definition next_page : M page_view unit :=
  pv <- get ;;
  let self := viewer pv in
  match doc self with
  | Some d =>
      if fitz.len d =? 0 then ret tt
      else if page_index self <? fitz.len d - 1 then
        put (at_page (page_index self + 1) pv) ;; render_page
      else ret tt
  | None => ret tt
  end.

Definition resizeEvent : M page_view unit :=
  pv <- get ;;
  if doc_truthy (doc (viewer pv)) then render_page else ret tt.
End Methods.
Arguments page_view F : clear implicits.
Arguments t F : clear implicits.
Arguments event F : clear implicits.
Arguments pad_session F : clear implicits.
Arguments draw_cmd F : clear implicits.
End PdfViewer.

(* ================================================================== *)
(** * [MainWindow]: dropping files *)
(* ================================================================== *)

Module MainWindow.
(** [path.lower().endswith(".pdf")]. *)
Definition is_pdf (path : string) : bool := endswith (lower path) ".pdf".

(** [dragEnterEvent]: whether the proposed action is accepted; [urls] are
    the local files of the URLs of the mime data. *)
Definition dragEnterEvent (hasUrls : bool) (urls : list string) : bool :=
  hasUrls && existsb is_pdf urls.

(** [dropEvent]: the path handed to [viewer.open_pdf], if any. *)
Fixpoint dropEvent (urls : list string) : option string :=
  match urls with
  | [] => None
  | path :: urls' => if is_pdf path then Some path else dropEvent urls'
  end.
End MainWindow.

(* ================================================================== *)
(** * Reference definitions and sample inputs *)
(* ================================================================== *)

(** [clamp(x, lo, hi)] as the specification writes the smoothing factor:
    [alpha = smin + (smax - smin) * clamp(v / vref, 0, 1)]. *)
Definition clamp (x lo hi : Q) : Q :=
  if Qlt_le_dec x lo then lo else if Qlt_le_dec hi x then hi else x.

(** The control points [0.1, 0.2, 0.3, 0.4] on the x axis, as doubles. *)
Definition tenths (n : Z) : QPointF PrimFloat.float :=
  mkQPointF (lit n 10) (of_int 0).

(** A painter that leaves the buffer alone, for inputs in which nothing is
    drawn. *)
Definition no_paint {F : Type}
  (img : QImage.t) (_ : Z) (_ _ : QPointF F) : QImage.t := img.

(** The pixels [crop_alpha_bbox] looks for, and what it means for a box
    [(minx, miny, maxx, maxy)] to be the bounding box of those of an
    image. *)
Definition opaque (img : QImage.t) (x y : Z) : bool :=
  QImage.alpha (QImage.pixel img x y) >? 0.

Definition in_image (img : QImage.t) (x y : Z) : Prop :=
  0 <= x < QImage.width img /\ 0 <= y < QImage.height img.

Definition is_bbox (img : QImage.t) (box : Z * Z * Z * Z) : Prop :=
  let '(minx, miny, maxx, maxy) := box in
  (forall x y, in_image img x y -> opaque img x y = true ->
               minx <= x <= maxx /\ miny <= y <= maxy) /\
  (exists y, in_image img minx y /\ opaque img minx y = true) /\
  (exists y, in_image img maxx y /\ opaque img maxx y = true) /\
  (exists x, in_image img x miny /\ opaque img x miny = true) /\
  (exists x, in_image img x maxy /\ opaque img x maxy = true).

Definition fully_transparent (img : QImage.t) : Prop :=
  forall x y, in_image img x y -> opaque img x y = false.

(** The invariant of the scan: [box] is the initial box while no opaque
    pixel has been seen, and the bounding box of the opaque pixels seen
    otherwise. *)
Definition scan_inv (img : QImage.t) (seen : Z -> Z -> Prop)
  (box : Z * Z * Z * Z) : Prop :=
  let '(minx, miny, maxx, maxy) := box in
  ((forall x y, seen x y -> opaque img x y = false) /\
   box = (QImage.width img, QImage.height img, -1, -1))
  \/
  ((forall x y, seen x y -> opaque img x y = true ->
                minx <= x <= maxx /\ miny <= y <= maxy) /\
   (exists y, seen minx y /\ opaque img minx y = true) /\
   (exists y, seen maxx y /\ opaque img maxx y = true) /\
   (exists x, seen x miny /\ opaque img x miny = true) /\
   (exists x, seen x maxy /\ opaque img x maxy = true)).

(** A 5 x 1 image whose middle pixel alone is opaque. *)
Definition one_dot : QImage.t :=
  QImage.mk 5 1 [[0; 0; 4278190080; 0; 0]].

(** A two-page document on disk, in points (A4). *)
Definition a4 : fitz.Page Q := fitz.mkPage (595 # 1) (842 # 1) [].

Definition two_pages : fitz.World Q :=
  fitz.mkWorld [("contract.pdf"%string, [a4; a4])] "20240101_120000".

(** An image whose fields agree: as many scan lines as its height, each as
    long as its width, and 32-bit pixel words. *)
Definition well_formed_image (img : QImage.t) : Prop :=
  0 < QImage.width img < 2 ^ 32 /\
  0 < QImage.height img < 2 ^ 32 /\
  List.length (QImage.scanlines img) = Z.to_nat (QImage.height img) /\
  Forall (fun row => List.length row = Z.to_nat (QImage.width img) /\
                     Forall (fun v => 0 <= v < 2 ^ 32) row)
         (QImage.scanlines img).

(** A viewer showing the first page of [contract.pdf] at scale 1 with a
    200 x 80 selection, and the same viewer previewing the one-dot
    signature over that selection. *)
Definition contract : fitz.Document Q :=
  fitz.mkDocument "contract.pdf" [a4; a4].

Definition selection : QRectF.t Q :=
  QRectF.mk (100 # 1) (700 # 1) (200 # 1) (80 # 1).

Definition selecting : PdfViewer.t Q :=
  PdfViewer._draw_canvas
    (PdfViewer.mk (Some contract) 0 (1 # 1) (mkQSize 595 842)
       (mkQRect 0 0 595 842) [] false false None (Some selection) None
       false None None false None None None []).

Definition previewing : PdfViewer.t Q :=
  PdfViewer._draw_canvas
    (PdfViewer.with_buttons true true
       (PdfViewer.with_preview true (Some one_dot) (Some selection)
          selecting)).

(** The disk after [contract.pdf] has been removed. *)
Definition removed : fitz.World Q := fitz.mkWorld [] "20240101_120000".

(** The pad events that cannot put ink on the buffer: everything but a
    pointer move with the left button held (and the two buttons that close
    the dialog). *)
Definition no_ink {F : Type} (e : SignaturePad.event F) : bool :=
  match e with
  | SignaturePad.MouseMove true _ _ => false
  | SignaturePad.ClickConfirm | SignaturePad.ClickCancel => false
  | _ => true
  end.

(** A pad in which the user confirms at once, and one in which the user
    taps the canvas (press and release at the same place), clears, and
    confirms: no stroke is drawn in either. *)
Definition confirm_at_once : PdfViewer.pad_session Q :=
  PdfViewer.mk_pad_session 0 1920 1000 [SignaturePad.ClickConfirm].

Definition tap_then_confirm : PdfViewer.pad_session Q :=
  PdfViewer.mk_pad_session 0 1920 1000
    [ SignaturePad.MouseMove false 5 (mkQPointF (900 # 1) (500 # 1));
      SignaturePad.MousePress true (mkQPointF (900 # 1) (500 # 1));
      SignaturePad.MouseRelease true;
      SignaturePad.ClickClear;
      SignaturePad.ClickConfirm ].

(** A 600 x 300 signature previewed in a 300 x 100 rectangle. *)
Definition wide_signature : QImage.t :=
  QImage.filled (mkQSize 600 300) QImage.transparent.

Definition fitting : PdfViewer.t Q :=
  PdfViewer.with_preview true (Some wide_signature)
    (Some (QRectF.mk (0 # 1) (0 # 1) (300 # 1) (100 # 1))) selecting.

(** The placement rectangle after a gesture: positive size and inside the
    page image, or the null rectangle [QRectF()] that [intersected] returns
    when nothing of it is left on the page.  The extent of the page image
    is read through [hspan] and [vspan], that is [left .. right] and
    [top .. bottom] for the non-negative sizes a pixmap has. *)
Definition within (page r : QRectF.t Q) : Prop :=
  (0 < QRectF.width r)%Q /\ (0 < QRectF.height r)%Q /\
  (fst (QRectF.hspan page) <= QRectF.left r)%Q /\
  (QRectF.right r <= snd (QRectF.hspan page))%Q /\
  (fst (QRectF.vspan page) <= QRectF.top r)%Q /\
  (QRectF.bottom r <= snd (QRectF.vspan page))%Q.

Definition clamped_to (page r : QRectF.t Q) : Prop :=
  r = QRectF.null \/ within page r.

(** The same preview in a canvas wider than the page: the page image, 595
    wide, sits at [x = 102.5] in a label 800 wide. *)
Definition previewing_wide : PdfViewer.t Q :=
  PdfViewer._draw_canvas
    (PdfViewer.mk (Some contract) 0 (1 # 1) (mkQSize 595 842)
       (mkQRect 0 0 800 842) [] true true None
       (Some (QRectF.mk (200 # 1) (700 # 1) (200 # 1) (80 # 1))) None
       true (Some one_dot)
       (Some (QRectF.mk (200 # 1) (700 # 1) (200 # 1) (80 # 1)))
       false None None None []).

Definition at_ (x y : Z) : QPointF Q := mkQPointF (inject_Z x) (inject_Z y).

(** The canvas [__init__] builds for a 600 x 300 buffer, on doubles. *)
Definition canvas64 : SignatureCanvas.t PrimFloat.float :=
  SignatureCanvas.init (mkQSize 600 300) 7 0 900 300.

(** Every pixel word of the image fits in 32 bits. *)
Definition words_ok (img : QImage.t) : bool :=
  forallb (forallb (fun v => (0 <=? v) && (v <? 2 ^ 32)))
          (QImage.scanlines img).

(** [setPixel(x, y, argb)] inside the image, and a painter that marks the
    end point of each line with an opaque black pixel: a stand-in for the
    rasterizer in sample sessions. *)
Fixpoint set_nth {A : Type} (n : nat) (v : A) (l : list A) : list A :=
  match l, n with
  | [], _ => []
  | _ :: l', O => v :: l'
  | a :: l', S n' => a :: set_nth n' v l'
  end.

Definition setPixel (img : QImage.t) (x y argb : Z) : QImage.t :=
  if QImage.inside img x y then
    QImage.mk (QImage.width img) (QImage.height img)
      (set_nth (Z.to_nat y)
         (set_nth (Z.to_nat x) argb
            (nth (Z.to_nat y) (QImage.scanlines img) []))
         (QImage.scanlines img))
  else img.

Definition dot_painter (img : QImage.t) (_ : Z) (_ b : QPointF Q)
  : QImage.t :=
  setPixel img (to_int (px b)) (to_int (py b)) 4278190080.

(** A pad in which the user draws one short stroke and confirms. *)
Definition stroke_then_confirm : PdfViewer.pad_session Q :=
  PdfViewer.mk_pad_session 0 833 333
    [ SignaturePad.MousePress true (mkQPointF (100 # 1) (100 # 1));
      SignaturePad.MouseMove true 16 (mkQPointF (140 # 1) (120 # 1));
      SignaturePad.MouseRelease true;
      SignaturePad.ClickConfirm ].

(** The pad of that session at the time of the confirmation, with the
    sample painter. *)
Definition stroke_pad : SignaturePad.t Q :=
  SignaturePad.on_canvas (SignatureCanvas.mouseReleaseEvent true)
    (SignaturePad.on_canvas
       (SignatureCanvas.mouseMoveEvent dot_painter true 16
          (mkQPointF (140 # 1) (120 # 1)))
       (SignaturePad.on_canvas
          (SignatureCanvas.mousePressEvent true
             (mkQPointF (100 # 1) (100 # 1)))
          (SignaturePad.init (mkQSize 833 333) 7 0 833 333))).


(** A sequence of pen events, each delivered to [tabletEvent] with the
    timer reading at its arrival; an exception escaping the handler is
    reported by the event loop and the state reached is kept. *)
Definition pen_events {F : Type} `{PyFloat F}
  (drawLine : QImage.t -> Z -> QPointF F -> QPointF F -> QImage.t)
  (evs : list (Z * SignatureCanvas.tablet_event F))
  (self : SignatureCanvas.t F) : SignatureCanvas.t F :=
  fold_left
    (fun self '(now, ev) =>
       snd (SignatureCanvas.tabletEvent drawLine now ev self))
    evs self.

(** A pen event of a pen that hovers: anything but a press, and for a move
    a pressure not above [threshold] and no button. *)
Definition hovering {F : Type} `{PyFloat F} (threshold : F)
  (ev : SignatureCanvas.tablet_event F) : bool :=
  match SignatureCanvas.ev_type ev with
  | SignatureCanvas.TabletPress => false
  | SignatureCanvas.TabletMove =>
      negb ((threshold <? SignatureCanvas.ev_pressure ev)%py
            || SignatureCanvas.ev_left_button ev)
  | _ => true
  end.

(** A pad script that ends in a rejection: the cancel button comes before
    any confirmation, or the window is closed. *)
Fixpoint cancelled {F : Type} (script : list (SignaturePad.event F)) : bool :=
  match script with
  | [] => true
  | SignaturePad.ClickCancel :: _ => true
  | SignaturePad.ClickConfirm :: _ => false
  | _ :: rest => cancelled rest
  end.

(** What the pointer events bound to the canvas leave alone: the document
    and the page shown, the rendering, the label's rectangle, the two
    buttons, the signature previewed and the message boxes. *)
Definition same_frame {F : Type} (a b : PdfViewer.t F) : Prop :=
  PdfViewer.doc a = PdfViewer.doc b /\
  PdfViewer.page_index a = PdfViewer.page_index b /\
  PdfViewer.render_scale a = PdfViewer.render_scale b /\
  PdfViewer.pm_size a = PdfViewer.pm_size b /\
  PdfViewer.contentsRect a = PdfViewer.contentsRect b /\
  PdfViewer._page_pix a = PdfViewer._page_pix b /\
  PdfViewer.btn_apply_visible a = PdfViewer.btn_apply_visible b /\
  PdfViewer.btn_cancel_visible a = PdfViewer.btn_cancel_visible b /\
  PdfViewer._preview_active a = PdfViewer._preview_active b /\
  PdfViewer._preview_img a = PdfViewer._preview_img b /\
  PdfViewer.message_boxes a = PdfViewer.message_boxes b.
(* ================================================================== *)
(** * Theorems *)
(* ================================================================== *)

(** ** Arithmetic of the [exact] instance *)

Ltac exact_arith :=
  cbv [fadd fsub fmul fdiv fneg fabs flt fle feq of_int lit exact
       inject_Z Qlt_bool] in *.

Lemma Qlt_bool_true (a b : Q) : Qlt_bool a b = true <-> (a < b)%Q.
Proof.
  unfold Qlt_bool. rewrite negb_true_iff.
  split; intro Hab.
  - destruct (Qlt_le_dec a b) as [Hlt | Hle]; [exact Hlt |].
    apply Qle_bool_iff in Hle. congruence.
  - destruct (Qle_bool b a) eqn:E; [| reflexivity].
    apply Qle_bool_iff in E. exfalso. lra.
Qed.

Lemma Qlt_bool_false (a b : Q) : Qlt_bool a b = false <-> (b <= a)%Q.
Proof.
  unfold Qlt_bool. rewrite negb_false_iff. apply Qle_bool_iff.
Qed.

Lemma Qle_bool_false (a b : Q) : Qle_bool a b = false <-> (b < a)%Q.
Proof.
  split; intro Hab.
  - destruct (Qlt_le_dec b a) as [Hlt | Hle]; [exact Hlt |].
    apply Qle_bool_iff in Hle. congruence.
  - destruct (Qle_bool a b) eqn:E; [| reflexivity].
    apply Qle_bool_iff in E. exfalso. lra.
Qed.

Lemma Qeq_bool_false (a b : Q) : Qeq_bool a b = false <-> ~ (a == b)%Q.
Proof.
  split; intro Hab.
  - apply Qeq_bool_neq. exact Hab.
  - destruct (Qeq_bool a b) eqn:E; [| reflexivity].
    apply Qeq_bool_iff in E. contradiction.
Qed.

(** Turn every boolean comparison of the context into its proposition. *)
Ltac reflect_Q :=
  repeat match goal with
  | Hb : Qlt_bool _ _ = true |- _ => apply Qlt_bool_true in Hb
  | Hb : Qlt_bool _ _ = false |- _ => apply Qlt_bool_false in Hb
  | Hb : negb (Qle_bool _ _) = true |- _ =>
      apply negb_true_iff, Qle_bool_false in Hb
  | Hb : negb (Qle_bool _ _) = false |- _ =>
      apply negb_false_iff, Qle_bool_iff in Hb
  | Hb : Qle_bool _ _ = true |- _ => apply Qle_bool_iff in Hb
  | Hb : Qle_bool _ _ = false |- _ => apply Qle_bool_false in Hb
  | Hb : Qeq_bool _ _ = true |- _ => apply Qeq_bool_iff in Hb
  | Hb : Qeq_bool _ _ = false |- _ => apply Qeq_bool_false in Hb
  end.

(* ------------------------------------------------------------------ *)
(** ** Catmull-Rom end points *)

(** C4 (as amended): evaluated in exact arithmetic, [_catmull] gives the
    second control point at [t = 0] and the third one at [t = 1], whatever
    the four control points. *)
Theorem catmull_endpoints_exact (p0 p1 p2 p3 : QPointF Q) :
  (px (SignatureCanvas._catmull p0 p1 p2 p3 (of_int 0)) == px p1)%Q /\
  (py (SignatureCanvas._catmull p0 p1 p2 p3 (of_int 0)) == py p1)%Q /\
  (px (SignatureCanvas._catmull p0 p1 p2 p3 (of_int 1)) == px p2)%Q /\
  (py (SignatureCanvas._catmull p0 p1 p2 p3 (of_int 1)) == py p2)%Q.
Proof.
  unfold SignatureCanvas._catmull. cbn [px py]. exact_arith.
  repeat split; ring.
Qed.

Section OnDoubles.
Import PrimFloat.

(** C4 as stated fails on the doubles the program computes with.  At
    [t = 1.0] the value for the control points [0.1, 0.2, 0.3, 0.4] is
    [0.30000000000000004], one unit in the last place above the third
    control point [0.3]; at [t = 0.0] a control point of [1e308] makes a
    coefficient overflow and the value is a NaN. *)
Lemma catmull_endpoints_binary64_inexact :
  px (tenths 3) = 0x1.3333333333333p-2%float /\
  px (SignatureCanvas._catmull (tenths 1) (tenths 2) (tenths 3) (tenths 4)
        (of_int 1))
  = 0x1.3333333333334p-2%float /\
  feq (px (SignatureCanvas._catmull (tenths 1) (tenths 2) (tenths 3)
             (tenths 4) (of_int 1)))
      (px (tenths 3)) = false /\
  feq (px (SignatureCanvas._catmull
             (mkQPointF (of_int (10 ^ 308)) (of_int 0))
             (tenths 2) (tenths 3) (tenths 4) (of_int 0)))
      (px (tenths 2)) = false.
Proof. repeat split; vm_compute; reflexivity. Qed.

End OnDoubles.

(** On doubles the end points are met when the arithmetic happens to be
    exact, as for small integer coordinates. *)
Example catmull_endpoints_binary64_integers :
  let p (x y : Z) : QPointF PrimFloat.float :=
    mkQPointF (of_int x) (of_int y) in
  SignatureCanvas._catmull (p 1 1) (p 5 2) (p 9 7) (p 12 3) (of_int 0) = p 5 2 /\
  SignatureCanvas._catmull (p 1 1) (p 5 2) (p 9 7) (p 12 3) (of_int 1) = p 9 7.
Proof. split; vm_compute; reflexivity. Qed.

(* ------------------------------------------------------------------ *)
(** ** The smoothing factor *)

(** On the rationals [max(0.0, min(1.0, x))] is the specification's
    [clamp(x, 0, 1)]. *)
Lemma max_min_is_clamp (x : Q) :
  (max_float (of_int 0) (min_float (of_int 1) x) == clamp x 0 1)%Q.
Proof.
  unfold max_float, min_float, clamp. exact_arith.
  destruct (Qlt_le_dec x 0) as [Hx0 | Hx0];
    [| destruct (Qlt_le_dec 1 x) as [Hx1 | Hx1]];
    destruct (negb (Qle_bool (1 # 1) x)) eqn:E1;
    match goal with
    | |- ((if ?b then _ else _) == _)%Q => destruct b eqn:E2
    end;
    reflect_Q; lra.
Qed.

Lemma clamp_bounds (x : Q) : (0 <= clamp x 0 1 <= 1)%Q.
Proof.
  unfold clamp.
  destruct (Qlt_le_dec x 0); [lra |].
  destruct (Qlt_le_dec 1 x); lra.
Qed.

Lemma clamp_monotone (x y : Q) : (x <= y)%Q -> (clamp x 0 1 <= clamp y 0 1)%Q.
Proof.
  intro Hxy. unfold clamp.
  destruct (Qlt_le_dec x 0); destruct (Qlt_le_dec y 0);
    destruct (Qlt_le_dec 1 x); destruct (Qlt_le_dec 1 y); lra.
Qed.

(** The value [_alpha_for] returns, once the division by [vref] is known
    not to raise. *)
Lemma alpha_for_returns (self : SignatureCanvas.t Q) (v : Q) :
  (0 < SignatureCanvas.vref self)%Q ->
  SignatureCanvas._alpha_for v self =
    (Return (SignatureCanvas.smin self
             + (SignatureCanvas.smax self - SignatureCanvas.smin self)
               * max_float (of_int 0)
                   (min_float (of_int 1) (v / SignatureCanvas.vref self)))%py,
     self).
Proof.
  intro Hvref.
  unfold SignatureCanvas._alpha_for, mbind, get, lift, ret, truediv.
  destruct (feq (SignatureCanvas.vref self) (of_int 0)) eqn:E.
  - exact_arith. reflect_Q. lra.
  - reflexivity.
Qed.

Lemma Qsqrt_floor_nonneg (q : Q) : (0 <= Qsqrt_floor q)%Q.
Proof.
  unfold Qsqrt_floor, Qle. cbn [Qnum Qden].
  pose proof (Z.sqrt_nonneg (Qnum q * Z.pos (Qden q))). lia.
Qed.

Lemma Qdiv_le_compat_l (d a b : Q) :
  (0 <= d)%Q -> (0 < a)%Q -> (a <= b)%Q -> (d / b <= d / a)%Q.
Proof.
  intros Hd Ha Hab.
  assert (Hb : (0 < b)%Q) by lra.
  apply Qle_shift_div_l; [exact Ha |].
  setoid_replace (d / b * a)%Q with (d * (a / b))%Q by (field; lra).
  assert (Hq : (a / b <= 1)%Q) by (apply Qle_shift_div_r; lra).
  assert (H0 : (0 <= a / b)%Q) by (apply Qle_shift_div_l; lra).
  nra.
Qed.

(** C5: for a speed [v >= 0] the factor is
    [smin + (smax - smin) * clamp(v / vref, 0, 1)]; it lies in
    [[smin, smax]], it does not decrease when the speed grows, and of two
    sample pairs with the same spatial delta the one with the smaller [dt]
    gets the larger (or equal) factor. *)
Theorem alpha_for_clamped_monotone (self : SignatureCanvas.t Q) (v v' : Q) :
  (SignatureCanvas.smin self <= SignatureCanvas.smax self)%Q ->
  (0 < SignatureCanvas.vref self)%Q ->
  (0 <= v)%Q -> (v <= v')%Q ->
  let smin := SignatureCanvas.smin self in
  let smax := SignatureCanvas.smax self in
  let vref := SignatureCanvas.vref self in
  (exists a a',
     SignatureCanvas._alpha_for v self = (Return a, self) /\
     SignatureCanvas._alpha_for v' self = (Return a', self) /\
     (a == smin + (smax - smin) * clamp (v / vref) 0 1)%Q /\
     (smin <= a)%Q /\ (a <= a')%Q /\ (a' <= smax)%Q) /\
  (forall (dx dy : Q) (dt dt' : Z),
     1 <= dt -> dt <= dt' ->
     let dist := fsqrt (dx * dx + dy * dy)%py in
     exists b b',
       SignatureCanvas._alpha_for (dist / of_int dt)%py self = (Return b, self) /\
       SignatureCanvas._alpha_for (dist / of_int dt')%py self = (Return b', self) /\
       (b' <= b)%Q).
Proof.
  intros Hs Hvref Hv Hvv' smin smax vref.
  assert (Hmono : forall x y : Q, (x <= y)%Q ->
            (smin + (smax - smin) * max_float (of_int 0) (min_float (of_int 1) (x / vref))
             <= smin + (smax - smin) * max_float (of_int 0) (min_float (of_int 1) (y / vref)))%Q).
  { intros x y Hxy.
    rewrite !max_min_is_clamp.
    assert (Hq : (x / vref <= y / vref)%Q).
    { unfold Qdiv. apply Qmult_le_compat_r; [exact Hxy |].
      apply Qlt_le_weak, Qinv_lt_0_compat. exact Hvref. }
    pose proof (clamp_monotone _ _ Hq). subst smin smax. nra. }
  split.
  - eexists; eexists.
    split; [apply alpha_for_returns; exact Hvref |].
    split; [apply alpha_for_returns; exact Hvref |].
    fold smin smax vref. exact_arith.
    split; [rewrite max_min_is_clamp; reflexivity |].
    split; [| split].
    + rewrite max_min_is_clamp.
      pose proof (clamp_bounds (v / vref)). subst smin smax. nra.
    + apply (Hmono v v' Hvv').
    + rewrite max_min_is_clamp.
      pose proof (clamp_bounds (v' / vref)). subst smin smax. nra.
  - intros dx dy dt dt' Hdt Hdt' dist.
    eexists; eexists.
    split; [apply alpha_for_returns; exact Hvref |].
    split; [apply alpha_for_returns; exact Hvref |].
    fold smin smax vref.
    apply Hmono. exact_arith.
    apply Qdiv_le_compat_l.
    + apply Qsqrt_floor_nonneg.
    + unfold Qlt. cbn. lia.
    + unfold Qle. cbn. lia.
Qed.

(** C5 at the canvas [__init__] builds ([smin = 0.14], [smax = 0.65],
    [vref = 2.8]) for the speeds [1.4] and [5.6]. *)
Lemma alpha_for_clamped_monotone_witness :
  let self := SignatureCanvas.init (F:=Q) (mkQSize 600 300) 7 0 900 300 in
  exists a a',
    SignatureCanvas._alpha_for (14 # 10) self = (Return a, self) /\
    SignatureCanvas._alpha_for (56 # 10) self = (Return a', self) /\
    (a == (14 # 100) + ((65 # 100) - (14 # 100)) * clamp ((14 # 10) / (28 # 10)) 0 1)%Q /\
    ((14 # 100) <= a)%Q /\ (a <= a')%Q /\ (a' <= (65 # 100))%Q.
Proof.
  intro self.
  refine (proj1 (alpha_for_clamped_monotone self (14 # 10) (56 # 10) _ _ _ _)).
  - vm_compute. discriminate.
  - vm_compute. reflexivity.
  - vm_compute. discriminate.
  - vm_compute. discriminate.
Defined.

(** The factor on doubles, at rest, at half the reference speed, at the
    reference speed and far above it: [0.14], then a value in between, then
    [0.65] twice. *)
Example alpha_for_binary64 :
  fst (SignatureCanvas._alpha_for (of_int 0) canvas64) = Return (lit 14 100) /\
  (exists a,
     fst (SignatureCanvas._alpha_for (lit 14 10) canvas64) = Return a /\
     flt (lit 14 100) a = true /\ flt a (lit 65 100) = true) /\
  fst (SignatureCanvas._alpha_for (lit 28 10) canvas64) = Return (lit 65 100) /\
  fst (SignatureCanvas._alpha_for (of_int 100) canvas64) = Return (lit 65 100).
Proof.
  split; [vm_compute; reflexivity |].
  split; [eexists; split; [vm_compute; reflexivity |];
          split; vm_compute; reflexivity |].
  split; vm_compute; reflexivity.
Qed.

(* ------------------------------------------------------------------ *)
(** ** The divisor of the speed *)

Lemma max_int_is_max (a b : Z) : max_int a b = Z.max a b.
Proof. unfold max_int. destruct (Z.ltb_spec a b); lia. Qed.

Lemma min_int_is_min (a b : Z) : min_int a b = Z.min a b.
Proof. unfold min_int. destruct (Z.ltb_spec b a); lia. Qed.

Lemma truediv_int_returns {F : Type} `{PyFloat F} (x : F) (n : Z) :
  n <> 0 -> truediv_int x n = Return (x / of_int n)%py.
Proof.
  intro Hn. unfold truediv_int.
  destruct (Z.eqb_spec n 0); [contradiction | reflexivity].
Qed.

(** C9: past the first sample of a stroke, [_ema] divides the distance by
    [dt = max(1, now - _last_ms)]; [dt >= 1], it is [1] when the two
    samples carry the same timestamp, the division by [dt] returns, and
    [_ema] as a whole returns: an exception can only come from a zero
    [vref], never from [dt]. *)
Theorem ema_divisor_at_least_one {F : Type} `{PyFloat F}
  (self : SignatureCanvas.t F) (now : Z) (pt smooth_prev raw_prev : QPointF F) :
  SignatureCanvas._smooth_prev self = Some smooth_prev ->
  SignatureCanvas._raw_prev self = Some raw_prev ->
  let dt := SignatureCanvas.ema_dt self now in
  dt = Z.max 1 (now - SignatureCanvas._last_ms self) /\
  1 <= dt /\
  (now = SignatureCanvas._last_ms self -> dt = 1) /\
  (forall x : F, truediv_int x dt = Return (x / of_int dt)%py) /\
  (feq (SignatureCanvas.vref self) (of_int 0) = false ->
   exists s self',
     SignatureCanvas._ema now pt self = (Return s, self') /\
     SignatureCanvas._last_ms self' = now) /\
  (forall e self',
     SignatureCanvas._ema now pt self = (Raise e, self') ->
     feq (SignatureCanvas.vref self) (of_int 0) = true).
Proof.
  intros Hsm Hraw dt.
  assert (Hdt : dt = Z.max 1 (now - SignatureCanvas._last_ms self))
    by apply max_int_is_max.
  assert (Hpos : 1 <= dt) by lia.
  assert (Hdiv : forall x : F, truediv_int x dt = Return (x / of_int dt)%py)
    by (intro x; apply truediv_int_returns; lia).
  repeat split; try assumption; try lia.
  - intro Hvref.
    unfold SignatureCanvas._ema, mbind, get, put, modify, lift, ret.
    cbn [SignatureCanvas.with_last_ms SignatureCanvas._smooth_prev
         SignatureCanvas._raw_prev].
    rewrite Hsm, Hraw. fold dt. rewrite Hdiv.
    unfold SignatureCanvas._alpha_for, mbind, get, lift, ret, truediv.
    cbn [SignatureCanvas.with_last_ms SignatureCanvas.vref].
    rewrite Hvref.
    eexists; eexists. split; [reflexivity | reflexivity].
  - intros e self'.
    unfold SignatureCanvas._ema, mbind, get, put, modify, lift, ret.
    cbn [SignatureCanvas.with_last_ms SignatureCanvas._smooth_prev
         SignatureCanvas._raw_prev].
    rewrite Hsm, Hraw. fold dt. rewrite Hdiv.
    unfold SignatureCanvas._alpha_for, mbind, get, lift, ret, truediv.
    cbn [SignatureCanvas.with_last_ms SignatureCanvas.vref].
    destruct (feq (SignatureCanvas.vref self) (of_int 0));
      [reflexivity | discriminate].
Qed.

(** C9 on doubles: a second sample [(13, 4)] arriving with the very
    timestamp of the first one, [(10, 0)]. *)
Lemma ema_divisor_at_least_one_witness :
  let p := mkQPointF (F:=PrimFloat.float) (of_int 10) (of_int 0) in
  let self :=
    SignatureCanvas.with_prev (Some p) (Some p)
      (SignatureCanvas.init (mkQSize 600 300) 7 0 900 300) in
  SignatureCanvas.ema_dt self 0 = 1 /\
  exists s self',
    SignatureCanvas._ema 0 (mkQPointF (of_int 13) (of_int 4)) self
    = (Return s, self').
Proof.
  intros p self.
  destruct (ema_divisor_at_least_one self 0
              (mkQPointF (of_int 13) (of_int 4)) p p eq_refl eq_refl)
    as (_ & _ & Hsame & _ & Hret & _).
  split.
  - apply Hsame. reflexivity.
  - destruct (Hret eq_refl) as (s & self' & Hs & _).
    exists s, self'. exact Hs.
Defined.

(* ------------------------------------------------------------------ *)
(** ** [range] and the pixels of a copy *)

Lemma range_succ (n : nat) :
  range (Z.of_nat (S n)) = range (Z.of_nat n) ++ [Z.of_nat n].
Proof.
  unfold range. rewrite !Nat2Z.id, seq_S, map_app. reflexivity.
Qed.

Lemma range_nonpos (n : Z) : n <= 0 -> range n = [].
Proof.
  intro Hn. unfold range.
  replace (Z.to_nat n) with 0%nat by lia. reflexivity.
Qed.

Lemma nth_map_range {A : Type} (f : Z -> A) (n i : Z) (d : A) :
  0 <= i < n -> nth (Z.to_nat i) (map f (range n)) d = f i.
Proof.
  intro Hi. unfold range. rewrite map_map.
  rewrite (nth_indep _ d (f (Z.of_nat 0))).
  - rewrite (map_nth (fun k => f (Z.of_nat k))), seq_nth by lia.
    f_equal. lia.
  - rewrite length_map, length_seq. lia.
Qed.

Lemma pixel_copy (img : QImage.t) (r : QRect) (i j : Z) :
  0 <= i < rect_width r -> 0 <= j < rect_height r ->
  QImage.pixel (QImage.copy img r) i j =
    if QImage.inside img (rect_x r + i) (rect_y r + j)
    then QImage.pixel img (rect_x r + i) (rect_y r + j)
    else QImage.transparent.
Proof.
  intros Hi Hj. unfold QImage.copy.
  destruct (Z.leb_spec (rect_width r) 0); [lia |].
  destruct (Z.leb_spec (rect_height r) 0); [lia |].
  cbn [orb]. unfold QImage.pixel at 1. cbn [QImage.scanlines].
  rewrite (nth_map_range _ _ j) by lia.
  rewrite (nth_map_range _ _ i) by lia.
  reflexivity.
Qed.

Lemma size_copy (img : QImage.t) (r : QRect) :
  0 < rect_width r -> 0 < rect_height r ->
  QImage.width (QImage.copy img r) = rect_width r /\
  QImage.height (QImage.copy img r) = rect_height r.
Proof.
  intros Hw Hh. unfold QImage.copy.
  destruct (Z.leb_spec (rect_width r) 0); [lia |].
  destruct (Z.leb_spec (rect_height r) 0); [lia |].
  split; reflexivity.
Qed.

Lemma in_range (n z : Z) : In z (range n) <-> 0 <= z < n.
Proof.
  unfold range. rewrite in_map_iff. split.
  - intros (k & <- & Hk). apply in_seq in Hk. lia.
  - intro Hz. exists (Z.to_nat z). split; [lia |]. apply in_seq. lia.
Qed.

(** Copying the whole of a copy changes nothing. *)
Lemma copy_whole (img : QImage.t) (r : QRect) :
  0 < rect_width r -> 0 < rect_height r ->
  QImage.copy (QImage.copy img r) (mkQRect 0 0 (rect_width r) (rect_height r))
  = QImage.copy img r.
Proof.
  intros Hw Hh.
  destruct (size_copy img r Hw Hh) as [Ew Eh].
  unfold QImage.copy at 1. cbn [rect_x rect_y rect_width rect_height].
  destruct (Z.leb_spec (rect_width r) 0); [lia |].
  destruct (Z.leb_spec (rect_height r) 0); [lia |].
  cbn [orb].
  transitivity
    (QImage.mk (rect_width r) (rect_height r)
       (map (fun j => map (fun i => QImage.pixel (QImage.copy img r) i j)
                          (range (rect_width r)))
            (range (rect_height r)))).
  - f_equal. apply map_ext_in. intros j Hj. apply in_range in Hj.
    apply map_ext_in. intros i Hi. apply in_range in Hi.
    unfold QImage.inside. rewrite Ew, Eh. cbn [Z.add].
    destruct (Z.leb_spec 0 i); [| lia].
    destruct (Z.ltb_spec i (rect_width r)); [| lia].
    destruct (Z.leb_spec 0 j); [| lia].
    destruct (Z.ltb_spec j (rect_height r)); [| lia].
    reflexivity.
  - unfold QImage.copy at 2.
    destruct (Z.leb_spec (rect_width r) 0); [lia |].
    destruct (Z.leb_spec (rect_height r) 0); [lia |].
    cbn [orb]. f_equal.
    apply map_ext_in. intros j Hj. apply in_range in Hj.
    apply map_ext_in. intros i Hi. apply in_range in Hi.
    apply pixel_copy; lia.
Qed.

(* ------------------------------------------------------------------ *)
(** ** The scan of [crop_alpha_bbox] *)

Lemma scan_inv_ext (img : QImage.t) (seen seen' : Z -> Z -> Prop)
  (box : Z * Z * Z * Z) :
  (forall x y, seen x y <-> seen' x y) ->
  scan_inv img seen box -> scan_inv img seen' box.
Proof.
  intros Hext. destruct box as [[[minx miny] maxx] maxy]. unfold scan_inv.
  intros [[Hnone Hbox] | (Hin & (y1 & H1) & (y2 & H2) & (x3 & H3) & (x4 & H4))].
  - left. split; [| exact Hbox]. intros x y Hs. apply Hnone, Hext, Hs.
  - right. split; [intros x y Hs; apply Hin, Hext, Hs |].
    repeat split.
    + exists y1. rewrite <- Hext. exact H1.
    + exists y2. rewrite <- Hext. exact H2.
    + exists x3. rewrite <- Hext. exact H3.
    + exists x4. rewrite <- Hext. exact H4.
Qed.

(** One pixel more. *)
Lemma scan_inv_step (img : QImage.t) (seen : Z -> Z -> Prop)
  (box : Z * Z * Z * Z) (x y : Z) :
  0 <= x < QImage.width img -> 0 <= y < QImage.height img ->
  scan_inv img seen box ->
  scan_inv img (fun x' y' => seen x' y' \/ (x' = x /\ y' = y))
           (bbox_step img y box x).
Proof.
  intros Hx Hy. destruct box as [[[minx miny] maxx] maxy].
  unfold scan_inv, bbox_step. fold (opaque img x y).
  destruct (opaque img x y) eqn:Eop.
  - (* an opaque pixel *)
    intros [[Hnone Hbox] | (Hin & (y1 & S1 & O1) & (y2 & S2 & O2)
                              & (x3 & S3 & O3) & (x4 & S4 & O4))].
    + inversion Hbox; subst minx miny maxx maxy.
      destruct (Z.ltb_spec x (QImage.width img)); [| lia].
      destruct (Z.ltb_spec y (QImage.height img)); [| lia].
      destruct (Z.gtb_spec x (-1)); [| lia].
      destruct (Z.gtb_spec y (-1)); [| lia].
      right. split.
      * intros x' y' [Hs | [-> ->]] Hop; [| lia].
        rewrite (Hnone _ _ Hs) in Hop. discriminate.
      * repeat split; [exists y | exists y | exists x | exists x];
          (split; [right; split; reflexivity | exact Eop]).
    + right. split.
      * intros x' y' [Hs | [-> ->]] Hop.
        -- specialize (Hin _ _ Hs Hop).
           destruct (Z.ltb_spec x minx); destruct (Z.ltb_spec y miny);
             destruct (Z.gtb_spec x maxx); destruct (Z.gtb_spec y maxy); lia.
        -- destruct (Z.ltb_spec x minx); destruct (Z.ltb_spec y miny);
             destruct (Z.gtb_spec x maxx); destruct (Z.gtb_spec y maxy); lia.
      * repeat split.
        -- destruct (Z.ltb_spec x minx);
             [exists y; split; [right; split; reflexivity | exact Eop]
             | exists y1; split; [left; exact S1 | exact O1]].
        -- destruct (Z.gtb_spec x maxx);
             [exists y; split; [right; split; reflexivity | exact Eop]
             | exists y2; split; [left; exact S2 | exact O2]].
        -- destruct (Z.ltb_spec y miny);
             [exists x; split; [right; split; reflexivity | exact Eop]
             | exists x3; split; [left; exact S3 | exact O3]].
        -- destruct (Z.gtb_spec y maxy);
             [exists x; split; [right; split; reflexivity | exact Eop]
             | exists x4; split; [left; exact S4 | exact O4]].
  - (* a transparent pixel *)
    intros [[Hnone Hbox] | (Hin & (y1 & S1 & O1) & (y2 & S2 & O2)
                              & (x3 & S3 & O3) & (x4 & S4 & O4))].
    + left. split; [| exact Hbox].
      intros x' y' [Hs | [-> ->]]; [apply Hnone, Hs | exact Eop].
    + right. split.
      * intros x' y' [Hs | [-> ->]] Hop; [apply Hin; assumption |].
        rewrite Eop in Hop. discriminate.
      * repeat split;
          [exists y1 | exists y2 | exists x3 | exists x4];
          (split; [left; assumption | assumption]).
Qed.

(** A prefix of row [y]. *)
Lemma scan_inv_row_prefix (img : QImage.t) (seen : Z -> Z -> Prop)
  (box : Z * Z * Z * Z) (y : Z) (k : nat) :
  Z.of_nat k <= QImage.width img -> 0 <= y < QImage.height img ->
  scan_inv img seen box ->
  scan_inv img (fun x' y' => seen x' y' \/ (0 <= x' < Z.of_nat k /\ y' = y))
           (fold_left (bbox_step img y) (range (Z.of_nat k)) box).
Proof.
  intros Hk Hy Hinv. induction k as [| k IH].
  - cbn [range Z.of_nat Z.to_nat seq map fold_left].
    apply (scan_inv_ext img seen); [| exact Hinv].
    intros x' y'. split; [intro Hs; left; exact Hs | intros [Hs | [Hr _]]];
      [exact Hs | lia].
  - rewrite range_succ, fold_left_app. cbn [fold_left].
    apply (scan_inv_ext img
             (fun x' y' =>
                (seen x' y' \/ (0 <= x' < Z.of_nat k /\ y' = y))
                \/ (x' = Z.of_nat k /\ y' = y)));
      [| apply scan_inv_step; [lia | exact Hy | apply IH; lia]].
    intros x' y'. split.
    + intros [[Hs | [Hr He]] | [Hx He]];
        [left; exact Hs | right; split; [lia | exact He]
        | right; split; [lia | exact He]].
    + intros [Hs | [Hr He]]; [left; left; exact Hs |].
      destruct (Z.eq_dec x' (Z.of_nat k)) as [E | E].
      * right. split; assumption.
      * left. right. split; [lia | exact He].
Qed.

(** A whole row. *)
Lemma scan_inv_row (img : QImage.t) (seen : Z -> Z -> Prop)
  (box : Z * Z * Z * Z) (y : Z) :
  0 <= y < QImage.height img ->
  scan_inv img seen box ->
  scan_inv img
    (fun x' y' => seen x' y' \/ (0 <= x' < QImage.width img /\ y' = y))
    (fold_left (bbox_step img y) (range (QImage.width img)) box).
Proof.
  intros Hy Hinv.
  destruct (Z.le_gt_cases (QImage.width img) 0) as [Hw | Hw].
  - rewrite range_nonpos by exact Hw. cbn [fold_left].
    apply (scan_inv_ext img seen); [| exact Hinv].
    intros x' y'. split; [intro Hs; left; exact Hs | intros [Hs | [Hr _]]];
      [exact Hs | lia].
  - pose proof (scan_inv_row_prefix img seen box y
                  (Z.to_nat (QImage.width img))) as Hrow.
    rewrite Z2Nat.id in Hrow by lia.
    apply Hrow; [lia | exact Hy | exact Hinv].
Qed.

(** The first [k] rows. *)
Lemma scan_inv_rows (img : QImage.t) (k : nat) :
  Z.of_nat k <= QImage.height img ->
  scan_inv img
    (fun x' y' => 0 <= x' < QImage.width img /\ 0 <= y' < Z.of_nat k)
    (fold_left
       (fun box y => fold_left (bbox_step img y) (range (QImage.width img)) box)
       (range (Z.of_nat k))
       (QImage.width img, QImage.height img, -1, -1)).
Proof.
  intro Hk. induction k as [| k IH].
  - cbn [range Z.of_nat Z.to_nat seq map fold_left].
    left. split; [intros x y [_ Hy]; lia | reflexivity].
  - rewrite range_succ, fold_left_app. cbn [fold_left].
    apply (scan_inv_ext img
             (fun x' y' =>
                (0 <= x' < QImage.width img /\ 0 <= y' < Z.of_nat k)
                \/ (0 <= x' < QImage.width img /\ y' = Z.of_nat k)));
      [| apply scan_inv_row; [lia | apply IH; lia]].
    intros x' y'. split.
    + intros [[Hx Hy] | [Hx He]]; split; lia.
    + intros [Hx Hy].
      destruct (Z.eq_dec y' (Z.of_nat k)) as [E | E].
      * right. split; assumption.
      * left. split; lia.
Qed.

(** What the two loops compute: nothing opaque and the initial box, or the
    bounding box of the opaque pixels. *)
Lemma bbox_scan_spec (img : QImage.t) :
  (fully_transparent img /\
   bbox_scan img = (QImage.width img, QImage.height img, -1, -1))
  \/ is_bbox img (bbox_scan img).
Proof.
  unfold bbox_scan.
  destruct (Z.le_gt_cases (QImage.height img) 0) as [Hh | Hh].
  - rewrite (range_nonpos (QImage.height img)) by exact Hh. cbn [fold_left].
    left. split; [| reflexivity].
    intros x y [_ Hy]. lia.
  - pose proof (scan_inv_rows img (Z.to_nat (QImage.height img))) as Hrows.
    rewrite Z2Nat.id in Hrows by lia.
    specialize (Hrows (Z.le_refl _)).
    destruct (fold_left _ (range (QImage.height img)) _)
      as [[[minx miny] maxx] maxy].
    unfold scan_inv in Hrows.
    destruct Hrows as [[Hnone Hbox] | Hbb].
    + left. split; [| exact Hbox].
      intros x y Hin. apply Hnone. exact Hin.
    + right. exact Hbb.
Qed.

Lemma is_bbox_range (img : QImage.t) (minx miny maxx maxy : Z) :
  is_bbox img (minx, miny, maxx, maxy) ->
  0 <= minx <= maxx /\ maxx < QImage.width img /\
  0 <= miny <= maxy /\ maxy < QImage.height img.
Proof.
  intros (Hin & (y1 & I1 & O1) & (y2 & I2 & O2) & (x3 & I3 & O3)
            & (x4 & I4 & O4)).
  pose proof (Hin _ _ I1 O1). pose proof (Hin _ _ I3 O3).
  unfold in_image in *. lia.
Qed.

(** The crop leaves a fully transparent image as it is, whatever the
    padding. *)
Lemma crop_fully_transparent (img : QImage.t) (padding : Z) :
  fully_transparent img -> crop_alpha_bbox img padding = img.
Proof.
  intro Htr. unfold crop_alpha_bbox.
  destruct (bbox_scan_spec img) as [[_ Hbox] | Hbb].
  - rewrite Hbox. reflexivity.
  - exfalso.
    destruct (bbox_scan img) as [[[minx miny] maxx] maxy].
    destruct Hbb as (_ & (y1 & I1 & O1) & _).
    rewrite (Htr _ _ I1) in O1. discriminate.
Qed.

(* ------------------------------------------------------------------ *)
(** ** Cropping an empty drawing *)

(** C6: an image without any pixel of alpha [> 0] comes back from
    [crop_alpha_bbox] unchanged, hence with its original dimensions. *)
Theorem crop_transparent_unchanged (qimg : QImage.t) (padding : Z) :
  (forall x y,
     0 <= x < QImage.width qimg -> 0 <= y < QImage.height qimg ->
     ~ QImage.alpha (QImage.pixel qimg x y) > 0) ->
  crop_alpha_bbox qimg padding = qimg /\
  QImage.width (crop_alpha_bbox qimg padding) = QImage.width qimg /\
  QImage.height (crop_alpha_bbox qimg padding) = QImage.height qimg.
Proof.
  intro Hnone.
  assert (Hcrop : crop_alpha_bbox qimg padding = qimg).
  { apply crop_fully_transparent. intros x y [Hx Hy]. unfold opaque.
    specialize (Hnone x y Hx Hy).
    destruct (Z.gtb_spec (QImage.alpha (QImage.pixel qimg x y)) 0);
      [lia | reflexivity]. }
  rewrite Hcrop. repeat split.
Qed.

Lemma alpha_filled_transparent (size : QSize) (x y : Z) :
  QImage.alpha (QImage.pixel (QImage.filled size QImage.transparent) x y) = 0.
Proof.
  unfold QImage.filled, QImage.pixel.
  destruct ((size_width size <=? 0) || (size_height size <=? 0)).
  - cbn. destruct (Z.to_nat y), (Z.to_nat x); reflexivity.
  - cbn [QImage.scanlines].
    set (row := repeat QImage.transparent (Z.to_nat (size_width size))).
    assert (Hrow : forall k, nth k row 0 = 0).
    { intro k. subst row. generalize (Z.to_nat (size_width size)) as n.
      revert k. induction k as [| k IH]; intros [| n]; cbn; auto. }
    assert (Hcell : nth (Z.to_nat x)
                      (nth (Z.to_nat y)
                         (repeat row (Z.to_nat (size_height size))) []) 0 = 0).
    { generalize (Z.to_nat (size_height size)) as n.
      generalize (Z.to_nat y) as k.
      induction k as [| k IH]; intros [| n]; cbn [repeat nth].
      - destruct (Z.to_nat x); reflexivity.
      - apply Hrow.
      - destruct (Z.to_nat x); reflexivity.
      - apply IH. }
    rewrite Hcell. reflexivity.
Qed.

(** C6 on the pad's smallest buffer, 600 x 300, freshly filled. *)
Lemma crop_transparent_unchanged_witness :
  let qimg := QImage.filled (mkQSize 600 300) QImage.transparent in
  crop_alpha_bbox qimg 16 = qimg /\
  QImage.width (crop_alpha_bbox qimg 16) = 600 /\
  QImage.height (crop_alpha_bbox qimg 16) = 300.
Proof.
  intro qimg.
  apply (crop_transparent_unchanged qimg 16).
  intros x y _ _. unfold qimg. rewrite alpha_filled_transparent. lia.
Defined.

(* ------------------------------------------------------------------ *)
(** ** Cropping twice *)

(** The crop when something was drawn. *)
Lemma crop_of_bbox (img : QImage.t) (p minx miny maxx maxy : Z) :
  bbox_scan img = (minx, miny, maxx, maxy) -> 0 <= maxx ->
  crop_alpha_bbox img p =
    QImage.copy img
      (mkQRect (Z.max 0 (minx - p)) (Z.max 0 (miny - p))
         (Z.min (QImage.width img - 1) (maxx + p) - Z.max 0 (minx - p) + 1)
         (Z.min (QImage.height img - 1) (maxy + p) - Z.max 0 (miny - p) + 1)).
Proof.
  intros Hscan Hmax. unfold crop_alpha_bbox. rewrite Hscan.
  destruct (Z.ltb_spec maxx 0); [lia |].
  rewrite !max_int_is_max, !min_int_is_min. reflexivity.
Qed.

(** The opaque pixels of a copy taken inside the image are those of the
    image, shifted. *)
Lemma opaque_copy (img : QImage.t) (r : QRect) (i j : Z) :
  0 <= rect_x r -> rect_x r + rect_width r <= QImage.width img ->
  0 <= rect_y r -> rect_y r + rect_height r <= QImage.height img ->
  0 <= i < rect_width r -> 0 <= j < rect_height r ->
  opaque (QImage.copy img r) i j = opaque img (rect_x r + i) (rect_y r + j).
Proof.
  intros Hx Hxw Hy Hyh Hi Hj. unfold opaque.
  rewrite pixel_copy by assumption.
  unfold QImage.inside.
  destruct (Z.leb_spec 0 (rect_x r + i)); [| lia].
  destruct (Z.ltb_spec (rect_x r + i) (QImage.width img)); [| lia].
  destruct (Z.leb_spec 0 (rect_y r + j)); [| lia].
  destruct (Z.ltb_spec (rect_y r + j) (QImage.height img)); [| lia].
  reflexivity.
Qed.

(** The bounding box of such a copy is the shifted bounding box, provided
    the copied rectangle covers the bounding box of the image. *)
Lemma is_bbox_copy (img : QImage.t) (r : QRect)
  (minx miny maxx maxy minx' miny' maxx' maxy' : Z) :
  0 <= rect_x r -> rect_x r + rect_width r <= QImage.width img ->
  0 <= rect_y r -> rect_y r + rect_height r <= QImage.height img ->
  rect_x r <= minx -> maxx < rect_x r + rect_width r ->
  rect_y r <= miny -> maxy < rect_y r + rect_height r ->
  is_bbox img (minx, miny, maxx, maxy) ->
  is_bbox (QImage.copy img r) (minx', miny', maxx', maxy') ->
  minx' = minx - rect_x r /\ miny' = miny - rect_y r /\
  maxx' = maxx - rect_x r /\ maxy' = maxy - rect_y r.
Proof.
  intros Hx Hxw Hy Hyh Hl Hr Ht Hb Hbb Hbb'.
  pose proof (is_bbox_range _ _ _ _ _ Hbb) as Hrange.
  assert (Hw : 0 < rect_width r) by lia.
  assert (Hh : 0 < rect_height r) by lia.
  destruct (size_copy img r Hw Hh) as [Ew Eh].
  destruct Hbb as (Hin & (y1 & I1 & O1) & (y2 & I2 & O2)
                     & (x3 & I3 & O3) & (x4 & I4 & O4)).
  destruct Hbb' as (Hin' & (y1' & I1' & O1') & (y2' & I2' & O2')
                      & (x3' & I3' & O3') & (x4' & I4' & O4')).
  unfold in_image in *. rewrite Ew, Eh in *.
  (* every opaque pixel of the image shows in the copy *)
  assert (Hdown : forall x y,
            (0 <= x < QImage.width img /\ 0 <= y < QImage.height img) ->
            opaque img x y = true ->
            minx' <= x - rect_x r <= maxx' /\ miny' <= y - rect_y r <= maxy').
  { intros x y Hxy Hop. pose proof (Hin x y Hxy Hop) as Hbox.
    apply Hin'; [lia |].
    rewrite opaque_copy by lia.
    replace (rect_x r + (x - rect_x r)) with x by lia.
    replace (rect_y r + (y - rect_y r)) with y by lia.
    exact Hop. }
  (* every opaque pixel of the copy comes from the image *)
  assert (Hup : forall i j,
            (0 <= i < rect_width r /\ 0 <= j < rect_height r) ->
            opaque (QImage.copy img r) i j = true ->
            minx <= rect_x r + i <= maxx /\ miny <= rect_y r + j <= maxy).
  { intros i j Hij Hop. rewrite opaque_copy in Hop by lia.
    apply Hin; [lia | exact Hop]. }
  pose proof (Hdown _ _ I1 O1). pose proof (Hdown _ _ I2 O2).
  pose proof (Hdown _ _ I3 O3). pose proof (Hdown _ _ I4 O4).
  pose proof (Hup _ _ I1' O1'). pose proof (Hup _ _ I2' O2').
  pose proof (Hup _ _ I3' O3'). pose proof (Hup _ _ I4' O4').
  lia.
Qed.

(** C7 (as amended): cropping the result of a crop with padding [p] once
    more, with a padding [q >= p] (the same padding in particular), gives
    the same image again, hence an image of the same width and height. *)
Theorem crop_again_same_bounds (qimg : QImage.t) (p q : Z) :
  0 <= p -> p <= q ->
  crop_alpha_bbox (crop_alpha_bbox qimg p) q = crop_alpha_bbox qimg p /\
  QImage.width (crop_alpha_bbox (crop_alpha_bbox qimg p) q)
    = QImage.width (crop_alpha_bbox qimg p) /\
  QImage.height (crop_alpha_bbox (crop_alpha_bbox qimg p) q)
    = QImage.height (crop_alpha_bbox qimg p).
Proof.
  intros Hp Hpq.
  assert (Hsame : crop_alpha_bbox (crop_alpha_bbox qimg p) q
                  = crop_alpha_bbox qimg p);
    [| rewrite Hsame; repeat split].
  destruct (bbox_scan_spec qimg) as [[Htr _] | Hbb].
  - (* nothing drawn: both crops return the image itself *)
    rewrite (crop_fully_transparent qimg p Htr).
    apply (crop_fully_transparent qimg q Htr).
  - destruct (bbox_scan qimg) as [[[minx miny] maxx] maxy] eqn:Hscan.
    pose proof (is_bbox_range _ _ _ _ _ Hbb) as Hrange.
    rewrite (crop_of_bbox qimg p minx miny maxx maxy Hscan) by lia.
    set (r := mkQRect (Z.max 0 (minx - p)) (Z.max 0 (miny - p))
                (Z.min (QImage.width qimg - 1) (maxx + p)
                 - Z.max 0 (minx - p) + 1)
                (Z.min (QImage.height qimg - 1) (maxy + p)
                 - Z.max 0 (miny - p) + 1)).
    assert (Hw : 0 < rect_width r) by (cbn; lia).
    assert (Hh : 0 < rect_height r) by (cbn; lia).
    destruct (size_copy qimg r Hw Hh) as [Ew Eh].
    destruct (bbox_scan_spec (QImage.copy qimg r)) as [[Htr' _] | Hbb'].
    + (* the copy holds the opaque pixels of the image: not transparent *)
      exfalso.
      destruct Hbb as (Hin & (y1 & I1 & O1) & _).
      pose proof (Hin _ _ I1 O1) as Hbox. unfold in_image in I1.
      assert (Hop : opaque (QImage.copy qimg r)
                      (minx - rect_x r) (y1 - rect_y r) = true).
      { rewrite opaque_copy by (cbn in *; lia).
        replace (rect_x r + (minx - rect_x r)) with minx by lia.
        replace (rect_y r + (y1 - rect_y r)) with y1 by lia.
        exact O1. }
      rewrite Htr' in Hop; [discriminate |].
      unfold in_image. rewrite Ew, Eh. cbn in *. lia.
    + destruct (bbox_scan (QImage.copy qimg r))
        as [[[minx' miny'] maxx'] maxy'] eqn:Hscan'.
      destruct (is_bbox_copy qimg r minx miny maxx maxy
                  minx' miny' maxx' maxy') as (E1 & E2 & E3 & E4);
        try (cbn; lia); try assumption.
      rewrite (crop_of_bbox _ q minx' miny' maxx' maxy' Hscan')
        by (cbn in *; lia).
      rewrite Ew, Eh.
      match goal with
      | |- QImage.copy _ ?r' = _ =>
          replace r' with (mkQRect 0 0 (rect_width r) (rect_height r))
            by (cbn in *; f_equal; lia)
      end.
      apply copy_whole; assumption.
Qed.

(** C7 on the one-dot image: padding 1, then padding 2. *)
Lemma crop_again_same_bounds_witness :
  crop_alpha_bbox (crop_alpha_bbox one_dot 1) 2 = crop_alpha_bbox one_dot 1 /\
  QImage.width (crop_alpha_bbox (crop_alpha_bbox one_dot 1) 2)
    = QImage.width (crop_alpha_bbox one_dot 1) /\
  QImage.height (crop_alpha_bbox (crop_alpha_bbox one_dot 1) 2)
    = QImage.height (crop_alpha_bbox one_dot 1).
Proof. apply (crop_again_same_bounds one_dot 1 2); lia. Defined.

(** C7 as stated fails: the one-dot image cropped with padding 1 is 3
    pixels wide; cropped again with the smaller padding 0 it is 1 pixel
    wide. *)
Lemma crop_again_smaller_padding_shrinks :
  QImage.width (crop_alpha_bbox one_dot 1) = 3 /\
  0 <= 1 /\
  QImage.width (crop_alpha_bbox (crop_alpha_bbox one_dot 1) 0) = 1 /\
  QImage.width (crop_alpha_bbox (crop_alpha_bbox one_dot 1) 0)
    <> QImage.width (crop_alpha_bbox one_dot 1).
Proof. vm_compute. repeat split; discriminate. Qed.

(* ------------------------------------------------------------------ *)
(** ** The page a signature is stamped on *)

Lemma lookup_head {F : Type} (n : string) (ps : list (fitz.Page F))
  (fs : list (string * list (fitz.Page F))) :
  fitz.lookup n ((n, ps) :: fs) = Some ps.
Proof. cbn. rewrite String.eqb_refl. reflexivity. Qed.

(** C10: for a document with at least one page, [insert_signature_png]
    stamps page [max(0, min(page_index, len(doc) - 1))]: an index in
    [[0, len(doc) - 1]], the nearest one to [page_index]; the page lookup
    returns, no [IndexError] comes out, and with a non-empty rectangle the
    call returns after saving the document with that page stamped. *)
Theorem insert_clamps_page_index {F : Type} `{PyFloat F}
  (wd : fitz.World F) (pdf_path : string) (ps : list (fitz.Page F))
  (page_index : Z) (rect_pt : F * F * F * F) (png_bytes : list Z) :
  fitz.lookup pdf_path (fitz.files wd) = Some ps ->
  ps <> [] ->
  let doc := fitz.mkDocument pdf_path ps in
  let n := fitz.len doc in
  let j := clamp_page_index page_index doc in
  0 <= j <= n - 1 /\
  (page_index < 0 -> j = 0) /\
  (n - 1 < page_index -> j = n - 1) /\
  (0 <= page_index <= n - 1 -> j = page_index) /\
  fitz.getitem doc j = Return (Z.to_nat j) /\
  (forall msg wd',
     insert_signature_png pdf_path page_index rect_pt png_bytes wd
     <> (Raise (IndexError msg), wd')) /\
  (fitz.rect_is_empty rect_pt = false ->
   exists out wd',
     insert_signature_png pdf_path page_index rect_pt png_bytes wd
     = (Return out, wd') /\
     fitz.lookup out (fitz.files wd')
     = Some (fitz.update_nth (Z.to_nat j) (fitz.stamped rect_pt png_bytes) ps)).
Proof.
  intros Hfile Hps doc n j.
  assert (Hn : 1 <= n).
  { subst n doc. unfold fitz.len. cbn [fitz.pages].
    destruct ps; [contradiction | cbn [List.length]; lia]. }
  assert (Hj : j = Z.max 0 (Z.min page_index (n - 1))).
  { subst j. unfold clamp_page_index.
    rewrite max_int_is_max, min_int_is_min. reflexivity. }
  assert (Hget : fitz.getitem doc j = Return (Z.to_nat j)).
  { unfold fitz.getitem. fold n.
    destruct (Z.ltb_spec j n); [| lia].
    rewrite Z.mod_small by lia. reflexivity. }
  split; [lia |]. split; [lia |]. split; [lia |]. split; [lia |].
  split; [exact Hget |].
  assert (Hrun :
    insert_signature_png pdf_path page_index rect_pt png_bytes wd =
    if fitz.rect_is_empty rect_pt
    then (Raise (ValueError "rect must be finite and not empty"), wd)
    else
      let out := (fst (splitext pdf_path) ++ "_firmado.pdf")%string in
      let out := if fitz.exists_ wd out
                 then (fst (splitext pdf_path) ++ "_firmado_"
                       ++ fitz.strftime_now wd ++ ".pdf")%string
                 else out in
      (Return out,
       fitz.save wd
         (fitz.mkDocument pdf_path
            (fitz.update_nth (Z.to_nat j) (fitz.stamped rect_pt png_bytes) ps))
         out)).
  { unfold insert_signature_png, mbind, get, lift, put, ret, fitz.open.
    rewrite Hfile. fold doc. fold j. rewrite Hget.
    unfold fitz.insert_image.
    destruct (fitz.rect_is_empty rect_pt); [reflexivity |].
    destruct (splitext pdf_path) as [base ext]. reflexivity. }
  split.
  - intros msg wd'. rewrite Hrun.
    destruct (fitz.rect_is_empty rect_pt); cbv zeta; intro E; discriminate E.
  - intro Hrect. rewrite Hrun, Hrect. cbv zeta.
    eexists; eexists. split; [reflexivity |].
    unfold fitz.save. cbn [fitz.files fitz.pages]. apply lookup_head.
Qed.

(** C10 on a two-page document: page index 7 lands on the last page,
    index 1. *)
Lemma insert_clamps_page_index_witness :
  let rect := ((10 # 1), (10 # 1), (110 # 1), (60 # 1))%Q in
  clamp_page_index 7 (fitz.mkDocument "contract.pdf" [a4; a4]) = 1 /\
  exists out wd',
    insert_signature_png "contract.pdf" 7 rect [137; 80] two_pages
    = (Return out, wd') /\
    fitz.lookup out (fitz.files wd') = Some [a4; fitz.stamped rect [137; 80] a4].
Proof.
  intro rect.
  destruct (insert_clamps_page_index two_pages "contract.pdf" [a4; a4] 7
              rect [137; 80] eq_refl ltac:(discriminate))
    as (_ & _ & Hlast & _ & _ & _ & Hret).
  split.
  - apply Hlast. vm_compute. reflexivity.
  - apply Hret. vm_compute. reflexivity.
Defined.

(* ------------------------------------------------------------------ *)
(** ** A failing insertion *)

(** [insert_signature_png] writes nothing unless it returns. *)
Lemma insert_raise_keeps_world {F : Type} `{PyFloat F}
  (wd wd' : fitz.World F) (pdf_path : string) (page_index : Z)
  (rect_pt : F * F * F * F) (png_bytes : list Z) (e : exn) :
  insert_signature_png pdf_path page_index rect_pt png_bytes wd
  = (Raise e, wd') ->
  wd' = wd.
Proof.
  unfold insert_signature_png, mbind, get, lift, put, ret.
  destruct (fitz.open wd pdf_path) as [e0 | doc];
    [intro E; inversion E; reflexivity |].
  destruct (fitz.getitem doc (clamp_page_index page_index doc)) as [e1 | page];
    [intro E; inversion E; reflexivity |].
  destruct (fitz.insert_image doc page rect_pt png_bytes) as [e2 | doc'];
    [intro E; inversion E; reflexivity |].
  destruct (splitext pdf_path) as [base ext]. intro E. discriminate E.
Qed.

(** C2 (as amended): when the insertion raises during [apply_signature],
    the error is shown in a critical message box with the text of the
    exception, and the [finally] clause then clears the preview: the
    viewer leaves the preview state (no image, no rectangle, flag off,
    both buttons hidden) and nothing is written on disk. *)
Theorem apply_failure_reports_then_clears {F : Type} `{PyFloat F}
  (wd wd' : fitz.World F) (self : PdfViewer.t F) (img : QImage.t)
  (pr : QRectF.t F) (rect_pt : F * F * F * F) (d : fitz.Document F)
  (e : exn) :
  PdfViewer._preview_active self = true ->
  PdfViewer._preview_img self = Some img ->
  PdfViewer._preview_rect self = Some pr ->
  PdfViewer._canvas_rect_to_pdf_points self pr = Return (Some rect_pt) ->
  PdfViewer.doc self = Some d ->
  insert_signature_png (fitz.name d) (PdfViewer.page_index self) rect_pt
    (QImage.save_png img) wd = (Raise e, wd') ->
  exists self',
    PdfViewer.apply_signature (wd, self) = (Return tt, (wd, self')) /\
    PdfViewer.message_boxes self' =
      PdfViewer.message_boxes self ++
      [PdfViewer.critical "Firmar"
         ("Error al insertar firma:" ++ PdfViewer.nl ++ str_exn e)%string] /\
    PdfViewer._preview_active self' = false /\
    PdfViewer._preview_img self' = None /\
    PdfViewer._preview_rect self' = None /\
    PdfViewer.btn_apply_visible self' = false /\
    PdfViewer.btn_cancel_visible self' = false.
Proof.
  intros Hact Himg Hrect Hpt Hdoc Hins.
  pose proof (insert_raise_keeps_world _ _ _ _ _ _ _ Hins) as ->.
  unfold PdfViewer.apply_signature, mbind, get, lift, put, ret.
  rewrite Hact, Himg, Hrect, Hpt, Hdoc, Hins.
  eexists. split; [reflexivity |].
  repeat split.
Qed.

(** C2 at the viewer previewing over [contract.pdf] once the file is gone
    from the disk. *)
Lemma apply_failure_reports_then_clears_witness :
  exists self',
    PdfViewer.apply_signature (removed, previewing)
    = (Return tt, (removed, self')) /\
    PdfViewer.message_boxes self' =
      [PdfViewer.critical "Firmar"
         ("Error al insertar firma:" ++ PdfViewer.nl
          ++ "no such file: 'contract.pdf'")%string] /\
    PdfViewer._preview_active self' = false /\
    PdfViewer._preview_img self' = None /\
    PdfViewer._preview_rect self' = None /\
    PdfViewer.btn_apply_visible self' = false /\
    PdfViewer.btn_cancel_visible self' = false.
Proof.
  refine (apply_failure_reports_then_clears removed removed previewing
            one_dot selection
            (200 # 2, 1400 # 2, 2400 # 8, 6240 # 8)
            contract (FileNotFoundError "no such file: 'contract.pdf'")
            _ _ _ _ _ _);
    reflexivity.
Defined.

(** C2 as stated fails: with [contract.pdf] gone from the disk the
    insertion raises, and after [apply_signature] the viewer that was
    previewing is no longer in the preview state. *)
Lemma apply_failure_leaves_preview_state :
  let self' := snd (snd (PdfViewer.apply_signature (removed, previewing))) in
  PdfViewer._preview_active previewing = true /\
  PdfViewer._preview_img previewing = Some one_dot /\
  PdfViewer._preview_rect previewing = Some selection /\
  PdfViewer._preview_active self' = false /\
  PdfViewer._preview_img self' = None /\
  PdfViewer._preview_rect self' = None.
Proof. vm_compute. repeat split. Qed.

(* ------------------------------------------------------------------ *)
(** ** Saving and loading a PNG *)

Lemma read32_be32 (v : Z) (rest : list Z) :
  0 <= v < 2 ^ 32 ->
  QImage.read32 (QImage.be32 v ++ rest) = Some (v, rest).
Proof.
  intro Hv. change (2 ^ 32) with 4294967296 in Hv.
  unfold QImage.be32, QImage.read32. cbn [app].
  do 2 f_equal.
  Z.div_mod_to_equations. lia.
Qed.

Lemma read_line_flat (row rest : list Z) :
  Forall (fun v => 0 <= v < 2 ^ 32) row ->
  QImage.read_line (List.length row) (flat_map QImage.be32 row ++ rest)
  = Some (row, rest).
Proof.
  induction 1 as [| v row Hv Hrow IH]; [reflexivity |].
  cbn [List.length flat_map QImage.read_line].
  rewrite <- app_assoc, read32_be32 by exact Hv.
  rewrite IH. reflexivity.
Qed.

Lemma read_lines_flat (wd : nat) (rows : list (list Z)) (rest : list Z) :
  Forall (fun row => List.length row = wd /\
                     Forall (fun v => 0 <= v < 2 ^ 32) row) rows ->
  QImage.read_lines (List.length rows) wd
    (flat_map (flat_map QImage.be32) rows ++ rest)
  = Some (rows, rest).
Proof.
  induction 1 as [| row rows [Hlen Hrow] Hrows IH]; [reflexivity |].
  cbn [List.length flat_map QImage.read_lines].
  rewrite <- app_assoc, <- Hlen, read_line_flat by exact Hrow.
  rewrite Hlen, IH. reflexivity.
Qed.

(** Loading what was saved gives the image back. *)
Lemma load_save_png (img : QImage.t) :
  well_formed_image img -> QImage.load_png (QImage.save_png img) = Some img.
Proof.
  intros (Hw & Hh & Hlen & Hrows).
  unfold QImage.save_png, QImage.isNull.
  destruct (Z.leb_spec (QImage.width img) 0); [lia |].
  destruct (Z.leb_spec (QImage.height img) 0); [lia |].
  cbn [orb]. unfold QImage.load_png.
  change (firstn 8 (QImage.png_signature ++ ?l)) with QImage.png_signature.
  change (skipn 8 (QImage.png_signature ++ ?l)) with l.
  destruct (list_eq_dec Z.eq_dec QImage.png_signature QImage.png_signature)
    as [_ | Hne]; [| contradiction].
  rewrite read32_be32 by lia. rewrite read32_be32 by lia.
  destruct (Z.leb_spec (QImage.width img) 0); [lia |].
  destruct (Z.leb_spec (QImage.height img) 0); [lia |].
  cbn [orb].
  rewrite <- (app_nil_r (flat_map _ (QImage.scanlines img))).
  rewrite <- Hlen, read_lines_flat by exact Hrows.
  destruct img; reflexivity.
Qed.

Lemma save_png_nonempty (img : QImage.t) :
  QImage.isNull img = false ->
  exists b bs, QImage.save_png img = b :: bs.
Proof.
  intro Hnull. unfold QImage.save_png. rewrite Hnull.
  eexists; eexists. reflexivity.
Qed.

Lemma filled_well_formed (size : QSize) (argb : Z) :
  0 < size_width size < 2 ^ 32 -> 0 < size_height size < 2 ^ 32 ->
  0 <= argb < 2 ^ 32 ->
  well_formed_image (QImage.filled size argb).
Proof.
  intros Hw Hh Hv. unfold QImage.filled.
  destruct (Z.leb_spec (size_width size) 0); [lia |].
  destruct (Z.leb_spec (size_height size) 0); [lia |].
  cbn [orb]. unfold well_formed_image.
  cbn [QImage.width QImage.height QImage.scanlines].
  split; [exact Hw |]. split; [exact Hh |].
  split; [apply repeat_length |].
  apply Forall_forall. intros row Hin. apply repeat_spec in Hin. subst row.
  split; [apply repeat_length |].
  apply Forall_forall. intros v Hin. apply repeat_spec in Hin. subst v.
  exact Hv.
Qed.

Lemma filled_fully_transparent (size : QSize) :
  fully_transparent (QImage.filled size QImage.transparent).
Proof.
  intros x y _. unfold opaque. rewrite alpha_filled_transparent. reflexivity.
Qed.

(* ------------------------------------------------------------------ *)
(** ** Confirming an empty drawing *)

Lemma pad_size_px_bounds {F : Type} `{PyFloat F} (rect_pt : F * F * F * F) :
  600 <= size_width (PdfViewer.pad_size_px rect_pt) <= 3000 /\
  300 <= size_height (PdfViewer.pad_size_px rect_pt) <= 2000.
Proof.
  destruct rect_pt as [[[l t] r] b]. unfold PdfViewer.pad_size_px.
  cbn [size_width size_height].
  rewrite !max_int_is_max, !min_int_is_min. lia.
Qed.

(** What [accept()] stores when the buffer is fully transparent: the PNG of
    the whole buffer, which is not empty and loads back as that buffer. *)
Lemma accept_transparent {F : Type} `{PyFloat F} (pad : SignaturePad.t F) :
  let img := SignatureCanvas.image (SignaturePad.canvas pad) in
  fully_transparent img -> well_formed_image img ->
  exists b bs,
    SignaturePad.result_png_bytes (SignaturePad.accept pad) = Some (b :: bs) /\
    QImage.load_png (b :: bs) = Some img.
Proof.
  intros img Htr Hwf.
  destruct (save_png_nonempty img) as (b & bs & Hsave).
  { destruct Hwf as (Hw & Hh & _). unfold QImage.isNull.
    destruct (Z.leb_spec (QImage.width img) 0); [lia |].
    destruct (Z.leb_spec (QImage.height img) 0); [lia |].
    reflexivity. }
  exists b, bs. split.
  - unfold SignaturePad.accept, SignaturePad.result_png_bytes.
    cbn [SignaturePad._png_bytes]. fold img.
    rewrite crop_fully_transparent by exact Htr.
    rewrite Hsave. reflexivity.
  - rewrite <- Hsave. apply load_save_png. exact Hwf.
Qed.

Lemma filled_size (size : QSize) (argb : Z) :
  0 < size_width size -> 0 < size_height size ->
  mkQSize (QImage.width (QImage.filled size argb))
          (QImage.height (QImage.filled size argb)) = size.
Proof.
  intros Hw Hh. unfold QImage.filled.
  destruct (Z.leb_spec (size_width size) 0); [lia |].
  destruct (Z.leb_spec (size_height size) 0); [lia |].
  destruct size. reflexivity.
Qed.

(** An event without ink leaves a blank buffer blank. *)
Lemma no_ink_keeps_blank {F : Type} `{PyFloat F}
  (drawLine : QImage.t -> Z -> QPointF F -> QPointF F -> QImage.t)
  (size : QSize) (e : SignaturePad.event F)
  (rest : list (SignaturePad.event F)) (pad : SignaturePad.t F) :
  0 < size_width size -> 0 < size_height size ->
  no_ink e = true ->
  SignatureCanvas.image (SignaturePad.canvas pad)
  = QImage.filled size QImage.transparent ->
  exists pad',
    SignaturePad.exec drawLine (e :: rest) pad
    = SignaturePad.exec drawLine rest pad' /\
    SignatureCanvas.image (SignaturePad.canvas pad')
    = QImage.filled size QImage.transparent.
Proof.
  intros Hw Hh Hink Himg.
  destruct e as [b pos | b now pos | b | | |]; cbn [SignaturePad.exec];
    try discriminate Hink; eexists; (split; [reflexivity |]).
  - (* press *)
    destruct b; cbn; exact Himg.
  - (* move without the button *)
    destruct b; [discriminate Hink | cbn; exact Himg].
  - (* release *)
    destruct b; cbn; exact Himg.
  - (* clear *)
    unfold SignaturePad.on_canvas, SignatureCanvas.clear, modify,
      SignatureCanvas.image in *.
    cbn [snd SignaturePad.canvas SignatureCanvas._img
         SignatureCanvas.with_img].
    rewrite Himg, filled_size by assumption. reflexivity.
Qed.

(** A session without ink reaches [accept()] with the blank buffer. *)
Lemma exec_without_ink {F : Type} `{PyFloat F}
  (drawLine : QImage.t -> Z -> QPointF F -> QPointF F -> QImage.t)
  (size : QSize) (idle rest : list (SignaturePad.event F)) :
  0 < size_width size -> 0 < size_height size ->
  forallb no_ink idle = true ->
  forall pad : SignaturePad.t F,
    SignatureCanvas.image (SignaturePad.canvas pad)
    = QImage.filled size QImage.transparent ->
    exists pad',
      SignaturePad.exec drawLine (idle ++ SignaturePad.ClickConfirm :: rest) pad
      = (SignaturePad.Accepted, SignaturePad.accept pad') /\
      SignatureCanvas.image (SignaturePad.canvas pad')
      = QImage.filled size QImage.transparent.
Proof.
  intros Hw Hh. induction idle as [| e idle IH]; intros Hidle pad Himg.
  - exists pad. split; [reflexivity | exact Himg].
  - cbn [forallb] in Hidle. apply andb_prop in Hidle.
    destruct Hidle as [He Hidle].
    destruct (no_ink_keeps_blank drawLine size e
                (idle ++ SignaturePad.ClickConfirm :: rest) pad Hw Hh He Himg)
      as (pad1 & Hstep & Himg1).
    destruct (IH Hidle pad1 Himg1) as (pad' & Hexec & Himg').
    exists pad'. split; [| exact Himg'].
    rewrite <- app_comm_cons, Hstep. exact Hexec.
Qed.

(** [sign_here] when the user confirms the pad without having drawn: the
    preview starts, over the selection, with the transparent buffer. *)
Lemma sign_here_without_ink {F : Type} `{PyFloat F}
  (drawLine : QImage.t -> Z -> QPointF F -> QPointF F -> QImage.t)
  (self : PdfViewer.t F) (session : PdfViewer.pad_session F)
  (rect_pt : F * F * F * F) (sr : QRectF.t F)
  (idle rest : list (SignaturePad.event F)) :
  PdfViewer.doc_truthy (PdfViewer.doc self) = true ->
  PdfViewer.sel_rect self = Some sr ->
  PdfViewer._rect_to_pdf_points self = Return (Some rect_pt) ->
  PdfViewer.pad_script session = idle ++ SignaturePad.ClickConfirm :: rest ->
  forallb no_ink idle = true ->
  let blank :=
    QImage.filled (PdfViewer.pad_size_px rect_pt) QImage.transparent in
  (exists pad' b bs,
     SignaturePad.exec drawLine (PdfViewer.pad_script session)
       (SignaturePad.init (PdfViewer.pad_size_px rect_pt) 7
          (PdfViewer.pad_elapsed session) (PdfViewer.pad_width session)
          (PdfViewer.pad_height session))
     = (SignaturePad.Accepted, pad') /\
     SignaturePad.result_png_bytes pad' = Some (b :: bs) /\
     QImage.load_png (b :: bs) = Some blank) /\
  PdfViewer.sign_here drawLine session self =
    (Return tt,
     PdfViewer._draw_canvas
       (PdfViewer.with_buttons true true
          (PdfViewer.with_preview true (Some blank) (Some sr) self))).
Proof.
  intros Hdoc Hsel Hpt Hscript Hidle blank.
  pose proof (pad_size_px_bounds rect_pt) as [Hw Hh].
  assert (Hw0 : 0 < size_width (PdfViewer.pad_size_px rect_pt)) by lia.
  assert (Hh0 : 0 < size_height (PdfViewer.pad_size_px rect_pt)) by lia.
  destruct (exec_without_ink drawLine (PdfViewer.pad_size_px rect_pt)
              idle rest Hw0 Hh0 Hidle
              (SignaturePad.init (PdfViewer.pad_size_px rect_pt) 7
                 (PdfViewer.pad_elapsed session) (PdfViewer.pad_width session)
                 (PdfViewer.pad_height session)) eq_refl)
    as (pad_c & Hexec & Himg).
  destruct (accept_transparent pad_c) as (b & bs & Hbytes & Hload).
  { rewrite Himg. apply filled_fully_transparent. }
  { rewrite Himg. apply filled_well_formed;
      change (2 ^ 32) with 4294967296; unfold QImage.transparent; lia. }
  rewrite Himg in Hload. fold blank in Hload.
  assert (Hsr : negb (QRectF.truthy sr) || QRectF.isEmpty sr = false).
  { unfold PdfViewer._rect_to_pdf_points in Hpt. rewrite Hsel in Hpt.
    destruct (negb (QRectF.truthy sr) || QRectF.isEmpty sr);
      [discriminate Hpt | reflexivity]. }
  split.
  - exists (SignaturePad.accept pad_c), b, bs.
    rewrite Hscript. split; [exact Hexec |].
    split; [exact Hbytes | exact Hload].
  - unfold PdfViewer.sign_here, mbind, get, lift, put, ret.
    rewrite Hdoc, Hpt. cbn [negb].
    rewrite Hscript, Hexec, Hbytes, Hload, Hsel, Hsr.
    reflexivity.
Qed.

(** C3 (as amended): confirming a capture session in which no stroke was
    drawn (no pointer move with the button held before the confirmation,
    so the buffer is fully transparent) yields a final image that is
    present: the PNG of the whole transparent buffer.  [sign_here]
    receives these non-empty bytes and proceeds: the preview becomes
    active over the selection, with that transparent image, and the Apply
    and Cancel buttons are shown. *)
Theorem confirm_without_strokes_starts_preview {F : Type} `{PyFloat F}
  (drawLine : QImage.t -> Z -> QPointF F -> QPointF F -> QImage.t)
  (self : PdfViewer.t F) (session : PdfViewer.pad_session F)
  (rect_pt : F * F * F * F) (sr : QRectF.t F)
  (idle rest : list (SignaturePad.event F)) :
  PdfViewer.doc_truthy (PdfViewer.doc self) = true ->
  PdfViewer.sel_rect self = Some sr ->
  PdfViewer._rect_to_pdf_points self = Return (Some rect_pt) ->
  PdfViewer.pad_script session = idle ++ SignaturePad.ClickConfirm :: rest ->
  forallb no_ink idle = true ->
  let blank :=
    QImage.filled (PdfViewer.pad_size_px rect_pt) QImage.transparent in
  let pad :=
    SignaturePad.init (PdfViewer.pad_size_px rect_pt) 7
      (PdfViewer.pad_elapsed session) (PdfViewer.pad_width session)
      (PdfViewer.pad_height session) in
  fully_transparent blank /\
  (exists pad' b bs,
     SignaturePad.exec drawLine (PdfViewer.pad_script session) pad
     = (SignaturePad.Accepted, pad') /\
     SignaturePad.result_png_bytes pad' = Some (b :: bs) /\
     QImage.load_png (b :: bs) = Some blank) /\
  (exists self',
     PdfViewer.sign_here drawLine session self = (Return tt, self') /\
     PdfViewer._preview_active self' = true /\
     PdfViewer._preview_img self' = Some blank /\
     PdfViewer._preview_rect self' = Some sr /\
     PdfViewer.btn_apply_visible self' = true /\
     PdfViewer.btn_cancel_visible self' = true).
Proof.
  intros Hdoc Hsel Hpt Hscript Hidle blank pad.
  destruct (sign_here_without_ink drawLine self session rect_pt sr idle rest
              Hdoc Hsel Hpt Hscript Hidle) as [Hpad Hrun].
  split; [apply filled_fully_transparent |].
  split; [exact Hpad |].
  eexists. split; [exact Hrun |]. repeat split.
Qed.

(** C3 at the viewer with a 200 x 80 selection on [contract.pdf]: the pad
    buffer is 833 x 333; the user taps the canvas, clears and confirms. *)
Lemma confirm_without_strokes_starts_preview_witness :
  let blank := QImage.filled (mkQSize 833 333) QImage.transparent in
  exists self',
    PdfViewer.sign_here no_paint tap_then_confirm selecting
    = (Return tt, self') /\
    PdfViewer._preview_active self' = true /\
    PdfViewer._preview_img self' = Some blank /\
    PdfViewer._preview_rect self' = Some selection /\
    PdfViewer.btn_apply_visible self' = true /\
    PdfViewer.btn_cancel_visible self' = true.
Proof.
  intro blank.
  assert (Hsize : PdfViewer.pad_size_px (F:=Q)
                    (200 # 2, 1400 # 2, 2400 # 8, 6240 # 8)
                  = mkQSize 833 333) by (vm_compute; reflexivity).
  pose proof (proj2 (proj2
    (confirm_without_strokes_starts_preview no_paint selecting
       tap_then_confirm (200 # 2, 1400 # 2, 2400 # 8, 6240 # 8) selection
       [ SignaturePad.MouseMove false 5 (mkQPointF (900 # 1) (500 # 1));
         SignaturePad.MousePress true (mkQPointF (900 # 1) (500 # 1));
         SignaturePad.MouseRelease true;
         SignaturePad.ClickClear ] []
       eq_refl eq_refl eq_refl eq_refl eq_refl))) as Hrun.
  rewrite Hsize in Hrun. exact Hrun.
Defined.

(** C3 as stated fails: at the same viewer, confirming the pad at once,
    without a stroke, does not leave the final image absent; the bytes
    stored by the pad are there and the placement flow goes on to an
    active preview. *)
Lemma confirm_without_strokes_is_not_discarded :
  let pad := SignaturePad.init (F:=Q) (mkQSize 833 333) 7 0 1920 1000 in
  let self' :=
    snd (PdfViewer.sign_here no_paint confirm_at_once selecting) in
  PdfViewer._preview_active selecting = false /\
  SignaturePad.result_png_bytes
    (snd (SignaturePad.exec no_paint [SignaturePad.ClickConfirm] pad))
  <> None /\
  PdfViewer._preview_active self' = true /\
  PdfViewer._preview_img self'
  = Some (QImage.filled (mkQSize 833 333) QImage.transparent).
Proof.
  intros pad self'.
  assert (Hsize : PdfViewer.pad_size_px (F:=Q)
                    (200 # 2, 1400 # 2, 2400 # 8, 6240 # 8)
                  = mkQSize 833 333) by (vm_compute; reflexivity).
  pose proof (proj2 (sign_here_without_ink no_paint selecting confirm_at_once
                (200 # 2, 1400 # 2, 2400 # 8, 6240 # 8) selection [] []
                eq_refl eq_refl eq_refl eq_refl eq_refl)) as Hrun.
  cbv zeta in Hrun. rewrite Hsize in Hrun.
  subst self'. rewrite Hrun.
  split; [reflexivity |]. split; [| split; reflexivity].
  cbn [SignaturePad.exec snd SignaturePad.accept
       SignaturePad.result_png_bytes SignaturePad._png_bytes].
  discriminate.
Qed.

(* ------------------------------------------------------------------ *)
(** ** Contain fit of the preview image *)

Lemma min_float_is_Qmin (a b : Q) : (min_float a b == Qmin a b)%Q.
Proof.
  unfold min_float. exact_arith.
  destruct (Q.min_spec a b) as [[Hlt ->] | [Hle ->]];
    destruct (negb (Qle_bool a b)) eqn:E; reflect_Q; lra.
Qed.

Lemma draw_canvas_preview {F : Type} `{PyFloat F} (self : PdfViewer.t F)
  (img : QImage.t) (r : QRectF.t F) :
  PdfViewer._preview_active self = true ->
  PdfViewer._preview_img self = Some img ->
  PdfViewer._preview_rect self = Some r ->
  0 < QImage.width img -> 0 < QImage.height img ->
  In (PdfViewer.drawImage
        (snd (PdfViewer.contain_fit r (QImage.width img) (QImage.height img)))
        img)
     (PdfViewer.canvas_pixmap (PdfViewer._draw_canvas self)).
Proof.
  intros Hact Himg Hrect Hw Hh.
  unfold PdfViewer._draw_canvas. cbn [PdfViewer.canvas_pixmap
    PdfViewer.with_canvas_pixmap].
  rewrite Hact, Himg, Hrect.
  destruct (Z.gtb_spec (QImage.width img) 0); [| lia].
  destruct (Z.gtb_spec (QImage.height img) 0); [| lia].
  cbn [andb].
  destruct (PdfViewer.contain_fit r (QImage.width img) (QImage.height img))
    as [scale target]. cbn [snd].
  apply in_or_app. right. apply in_or_app. right.
  right. left. reflexivity.
Qed.

(** C8: an image of size [(w, h)], [w > 0], [h > 0], previewed in a
    rectangle of size [(W, H)] is drawn, by [_draw_canvas], at scale
    [min(W/w, H/h)], with size [(w*scale, h*scale)], centred in the
    rectangle (equalities of exact arithmetic). *)
Theorem contain_fit_scale_and_centre (self : PdfViewer.t Q)
  (img : QImage.t) (r : QRectF.t Q) :
  PdfViewer._preview_active self = true ->
  PdfViewer._preview_img self = Some img ->
  PdfViewer._preview_rect self = Some r ->
  0 < QImage.width img -> 0 < QImage.height img ->
  let w := inject_Z (QImage.width img) in
  let h := inject_Z (QImage.height img) in
  let W := QRectF.width r in
  let H := QRectF.height r in
  exists scale target,
    PdfViewer.contain_fit r (QImage.width img) (QImage.height img)
    = (scale, target) /\
    In (PdfViewer.drawImage target img)
       (PdfViewer.canvas_pixmap (PdfViewer._draw_canvas self)) /\
    (scale == Qmin (W / w) (H / h))%Q /\
    (QRectF.width target == w * scale)%Q /\
    (QRectF.height target == h * scale)%Q /\
    (QRectF.x target + QRectF.width target / 2 == px (QRectF.center r))%Q /\
    (QRectF.y target + QRectF.height target / 2 == py (QRectF.center r))%Q /\
    (px (QRectF.center r) == QRectF.x r + W / 2)%Q /\
    (py (QRectF.center r) == QRectF.y r + H / 2)%Q.
Proof.
  intros Hact Himg Hrect Hw Hh w h W H.
  pose proof (draw_canvas_preview self img r Hact Himg Hrect Hw Hh) as Hdraw.
  destruct (PdfViewer.contain_fit r (QImage.width img) (QImage.height img))
    as [scale target] eqn:Efit.
  exists scale, target. split; [reflexivity |]. split; [exact Hdraw |].
  unfold PdfViewer.contain_fit in Efit. inversion Efit as [[Escale Etarget]].
  clear Efit Hdraw.
  unfold QRectF.center, QRectF.x, QRectF.y, QRectF.width, QRectF.height.
  cbn [QRectF.xp QRectF.yp QRectF.w QRectF.h px py].
  split; [apply min_float_is_Qmin |].
  exact_arith. fold w h W H.
  repeat split; try reflexivity; field.
Qed.

(** C8 on the specification's example: a 600 x 300 image in a 300 x 100
    rectangle is drawn at scale 1/3, 200 x 100, 50 from the left edge. *)
Lemma contain_fit_scale_and_centre_witness :
  exists scale target,
    PdfViewer.contain_fit (QRectF.mk (0 # 1) (0 # 1) (300 # 1) (100 # 1))
      600 300 = (scale, target) /\
    In (PdfViewer.drawImage target wide_signature)
       (PdfViewer.canvas_pixmap (PdfViewer._draw_canvas fitting)) /\
    (scale == 1 # 3)%Q /\
    (QRectF.x target == 50 # 1)%Q /\
    (QRectF.width target == 200 # 1)%Q /\
    (QRectF.height target == 100 # 1)%Q.
Proof.
  destruct (contain_fit_scale_and_centre fitting wide_signature
              (QRectF.mk (0 # 1) (0 # 1) (300 # 1) (100 # 1))
              eq_refl eq_refl eq_refl)
    as (scale & target & Efit & Hin & _);
    [reflexivity | reflexivity |].
  exists scale, target.
  split; [exact Efit |]. split; [exact Hin |].
  inversion Efit as [[Escale Etarget]].
  repeat split; vm_compute; reflexivity.
Defined.

(** The same example on doubles: the scale is the double nearest to 1/3
    and the image is drawn in [(50, 0, 200, 100)]. *)
Example contain_fit_binary64 :
  PdfViewer.contain_fit (F:=PrimFloat.float)
    (QRectF.mk (of_int 0) (of_int 0) (of_int 300) (of_int 100)) 600 300
  = (lit 1 3,
     QRectF.mk (of_int 50) (of_int 0) (of_int 200) (of_int 100)).
Proof. vm_compute. reflexivity. Qed.

(* ------------------------------------------------------------------ *)
(** ** The placement rectangle under drag, resize and zoom *)

Lemma hspan_ordered (r : QRectF.t Q) :
  (fst (QRectF.hspan r) <= snd (QRectF.hspan r))%Q.
Proof.
  unfold QRectF.hspan. exact_arith.
  destruct (negb (Qle_bool (0 # 1) (QRectF.w r))) eqn:E;
    reflect_Q; cbn [fst snd]; lra.
Qed.

Lemma vspan_ordered (r : QRectF.t Q) :
  (fst (QRectF.vspan r) <= snd (QRectF.vspan r))%Q.
Proof.
  unfold QRectF.vspan. exact_arith.
  destruct (negb (Qle_bool (0 # 1) (QRectF.h r))) eqn:E;
    reflect_Q; cbn [fst snd]; lra.
Qed.

Lemma qMax_spec (a b : Q) :
  (a <= QRectF.qMax a b)%Q /\ (b <= QRectF.qMax a b)%Q /\
  (QRectF.qMax a b == a \/ QRectF.qMax a b == b)%Q.
Proof.
  unfold QRectF.qMax. exact_arith.
  destruct (negb (Qle_bool b a)) eqn:E; reflect_Q; repeat split; lra.
Qed.

Lemma qMin_spec (a b : Q) :
  (QRectF.qMin a b <= a)%Q /\ (QRectF.qMin a b <= b)%Q /\
  (QRectF.qMin a b == a \/ QRectF.qMin a b == b)%Q.
Proof.
  unfold QRectF.qMin. exact_arith.
  destruct (negb (Qle_bool b a)) eqn:E; reflect_Q; repeat split; lra.
Qed.

(** For a pixmap, whose sizes are not negative, the extent of the page
    image is [left .. right] by [top .. bottom]. *)
Lemma pix_rect_spans (self : PdfViewer.t Q) :
  0 <= size_width (PdfViewer.pm_size self) ->
  0 <= size_height (PdfViewer.pm_size self) ->
  QRectF.hspan (PdfViewer.pix_rect self)
  = (QRectF.left (PdfViewer.pix_rect self),
     QRectF.right (PdfViewer.pix_rect self)) /\
  QRectF.vspan (PdfViewer.pix_rect self)
  = (QRectF.top (PdfViewer.pix_rect self),
     QRectF.bottom (PdfViewer.pix_rect self)).
Proof.
  intros Hw Hh. unfold QRectF.hspan, QRectF.vspan, PdfViewer.pix_rect.
  cbn [QRectF.w QRectF.h QRectF.xp QRectF.yp].
  assert (Ew : flt (of_int (size_width (PdfViewer.pm_size self)))
                   (of_int 0 : Q) = false).
  { exact_arith. apply Qlt_bool_false. unfold Qle. cbn. lia. }
  assert (Eh : flt (of_int (size_height (PdfViewer.pm_size self)))
                   (of_int 0 : Q) = false).
  { exact_arith. apply Qlt_bool_false. unfold Qle. cbn. lia. }
  rewrite Ew, Eh. split; reflexivity.
Qed.

(** What [intersected] returns lies in its second operand, unless it is
    the null rectangle. *)
Lemma intersected_clamped (r page : QRectF.t Q) :
  clamped_to page (QRectF.intersected r page).
Proof.
  unfold clamped_to, QRectF.intersected.
  pose proof (hspan_ordered r) as Hr. pose proof (hspan_ordered page) as Hp.
  pose proof (vspan_ordered r) as Vr. pose proof (vspan_ordered page) as Vp.
  destruct (QRectF.hspan r) as [l1 rr1].
  destruct (QRectF.hspan page) as [l2 rr2] eqn:Ehp.
  destruct (QRectF.vspan r) as [t1 b1].
  destruct (QRectF.vspan page) as [t2 b2] eqn:Evp.
  cbn [fst snd] in Hr, Hp, Vr, Vp.
  destruct (l1 =? rr1)%py eqn:E1; [left; reflexivity |].
  destruct (l2 =? rr2)%py eqn:E2; [left; reflexivity |].
  destruct ((rr2 <=? l1)%py || (rr1 <=? l2)%py) eqn:E3; [left; reflexivity |].
  destruct (t1 =? b1)%py eqn:E4; [left; reflexivity |].
  destruct (t2 =? b2)%py eqn:E5; [left; reflexivity |].
  destruct ((b2 <=? t1)%py || (b1 <=? t2)%py) eqn:E6; [left; reflexivity |].
  right.
  unfold within, QRectF.width, QRectF.height, QRectF.left, QRectF.right,
    QRectF.top, QRectF.bottom.
  rewrite Ehp, Evp.
  cbn [QRectF.xp QRectF.yp QRectF.w QRectF.h fst snd].
  apply orb_false_elim in E3. destruct E3 as [E3 E3'].
  apply orb_false_elim in E6. destruct E6 as [E6 E6'].
  destruct (qMax_spec l1 l2) as (X1 & X2 & X3).
  destruct (qMin_spec rr1 rr2) as (X4 & X5 & X6).
  destruct (qMax_spec t1 t2) as (Y1 & Y2 & Y3).
  destruct (qMin_spec b1 b2) as (Y4 & Y5 & Y6).
  clear Ehp Evp.
  exact_arith. reflect_Q.
  repeat split;
    try (destruct X3 as [X3 | X3]; destruct X6 as [X6 | X6]; lra);
    try (destruct Y3 as [Y3 | Y3]; destruct Y6 as [Y6 | Y6]; lra).
Qed.

(** A resize gesture restores the minimum size before the clamp. *)
Lemma resized_min_size (c : PdfViewer.corner) (orig : QRectF.t Q) (dx dy : Q) :
  (40 <= QRectF.width (PdfViewer.resized c orig dx dy))%Q /\
  (20 <= QRectF.height (PdfViewer.resized c orig dx dy))%Q.
Proof.
  unfold PdfViewer.resized.
  set (r0 := match c with
             | PdfViewer.tl => _ | PdfViewer.tr => _
             | PdfViewer.bl => _ | PdfViewer.br => _ end).
  clearbody r0. destruct r0 as [x y w h].
  unfold QRectF.width, QRectF.height, QRectF.setRight, QRectF.setBottom,
    QRectF.left, QRectF.top.
  cbn [QRectF.xp QRectF.yp QRectF.w QRectF.h]. exact_arith.
  destruct (negb (Qle_bool (40 # 1) w)) eqn:Ew;
    cbn [QRectF.xp QRectF.yp QRectF.w QRectF.h];
    destruct (negb (Qle_bool (20 # 1) h)) eqn:Eh;
    cbn [QRectF.xp QRectF.yp QRectF.w QRectF.h];
    reflect_Q; split; lra.
Qed.

(** A pointer event leaves the page geometry alone and either keeps the
    placement rectangle or replaces it by an intersection with the page
    image. *)
Lemma handle_effect {F : Type} `{PyFloat F} (self : PdfViewer.t F)
  (e : PdfViewer.event F) :
  PdfViewer.pix_rect (PdfViewer.handle self e) = PdfViewer.pix_rect self /\
  (PdfViewer._preview_rect (PdfViewer.handle self e)
   = PdfViewer._preview_rect self \/
   exists r,
     PdfViewer._preview_rect (PdfViewer.handle self e)
     = Some (QRectF.intersected r (PdfViewer.pix_rect self))).
Proof.
  destruct e as [pos | pos | | pos delta]; cbn [PdfViewer.handle].
  - (* press *)
    unfold PdfViewer._start_sel.
    destruct (PdfViewer._pos_local self pos) as [p cr].
    destruct (negb _); [split; [reflexivity | left; reflexivity] |].
    destruct (PdfViewer._preview_active self);
      [| split; [reflexivity | left; reflexivity]].
    destruct (PdfViewer._preview_rect self) as [pr |] eqn:Epr;
      [| split; [reflexivity | left; cbn; rewrite Epr; reflexivity]].
    destruct (QRectF.truthy pr);
      [| split; [reflexivity | left; cbn; rewrite Epr; reflexivity]].
    destruct (PdfViewer._hit_corner p pr 12);
      [split; [reflexivity | left; cbn; rewrite Epr; reflexivity] |].
    destruct (QRectF.contains pr p);
      split; try reflexivity; left; cbn; rewrite Epr; reflexivity.
  - (* move *)
    unfold PdfViewer._drag_sel, PdfViewer.drag_selection.
    destruct (PdfViewer._pos_local self pos) as [p cr].
    destruct (PdfViewer._preview_active self && _).
    + destruct (PdfViewer._dragging self).
      * destruct (PdfViewer._drag_start self), (PdfViewer._orig_rect self);
          try (split; [reflexivity | left; reflexivity]).
        split; [reflexivity | right; eexists; reflexivity].
      * destruct (PdfViewer._resizing self).
        -- destruct (PdfViewer._drag_start self), (PdfViewer._orig_rect self);
             try (split; [reflexivity | left; reflexivity]).
           split; [reflexivity | right; eexists; reflexivity].
        -- destruct (PdfViewer.sel_start self);
             split; try reflexivity; left; reflexivity.
    + destruct (PdfViewer.sel_start self);
        split; try reflexivity; left; reflexivity.
  - (* release *)
    unfold PdfViewer._end_sel.
    cbn [PdfViewer.sel_start PdfViewer.with_gesture].
    destruct (PdfViewer.sel_start self);
      split; try reflexivity; left; reflexivity.
  - (* wheel *)
    unfold PdfViewer._wheel_event.
    destruct (PdfViewer._preview_active self);
      [| split; [reflexivity | left; reflexivity]].
    destruct (PdfViewer._preview_rect self) as [pr |] eqn:Epr;
      [| split; [reflexivity | left; exact Epr]].
    destruct (negb (QRectF.truthy pr));
      [split; [reflexivity | left; exact Epr] |].
    destruct (PdfViewer._pos_local self pos) as [p cr].
    destruct (negb (QRectF.contains pr p));
      [split; [reflexivity | left; exact Epr] |].
    split; [reflexivity | right; eexists; reflexivity].
Qed.

Lemma run_effect (events : list (PdfViewer.event Q)) :
  forall self : PdfViewer.t Q,
    PdfViewer.pix_rect (PdfViewer.run events self) = PdfViewer.pix_rect self /\
    (PdfViewer._preview_rect (PdfViewer.run events self)
     = PdfViewer._preview_rect self \/
     exists r,
       PdfViewer._preview_rect (PdfViewer.run events self) = Some r /\
       clamped_to (PdfViewer.pix_rect self) r).
Proof.
  induction events as [| e events IH]; intro self.
  - split; [reflexivity | left; reflexivity].
  - unfold PdfViewer.run in *. cbn [fold_left].
    destruct (IH (PdfViewer.handle self e)) as [Hpix Hrect].
    destruct (handle_effect self e) as [Hpix1 Hrect1].
    split; [rewrite Hpix; exact Hpix1 |].
    destruct Hrect as [Hsame | (r & Hr & Hclamped)].
    + rewrite Hsame.
      destruct Hrect1 as [Hsame1 | (r' & Hr')]; [left; exact Hsame1 |].
      right. eexists. split; [exact Hr' | apply intersected_clamped].
    + right. exists r. split; [exact Hr |].
      rewrite <- Hpix1. exact Hclamped.
Qed.

(** C1 (as amended): after any sequence of pointer events (drag, resize,
    zoom) the placement rectangle is the one before the sequence or it is
    clamped to the page image: it has positive width and height and lies
    inside the page-pixel bounds, or it is the null rectangle left when the
    gesture took it off the page.  The 40 x 20 minimum is restored by a
    resize before the clamp only. *)
Theorem placement_rect_clamped_to_page (self : PdfViewer.t Q)
  (events : list (PdfViewer.event Q)) :
  let self' := PdfViewer.run events self in
  let page := PdfViewer.pix_rect self in
  (PdfViewer._preview_rect self' = PdfViewer._preview_rect self \/
   exists r,
     PdfViewer._preview_rect self' = Some r /\
     (r = QRectF.null \/
      ((0 < QRectF.width r)%Q /\ (0 < QRectF.height r)%Q /\
       (fst (QRectF.hspan page) <= QRectF.left r)%Q /\
       (QRectF.right r <= snd (QRectF.hspan page))%Q /\
       (fst (QRectF.vspan page) <= QRectF.top r)%Q /\
       (QRectF.bottom r <= snd (QRectF.vspan page))%Q))) /\
  (forall c orig dx dy,
     (40 <= QRectF.width (PdfViewer.resized c orig dx dy))%Q /\
     (20 <= QRectF.height (PdfViewer.resized c orig dx dy))%Q).
Proof.
  intros self' page. split; [| apply resized_min_size].
  destruct (run_effect events self) as [_ [Hsame | (r & Hr & Hclamped)]].
  - left. exact Hsame.
  - right. exists r. split; [exact Hr | exact Hclamped].
Qed.

(** C1 as stated fails.  In a label 800 wide the page image spans
    [102.5 .. 697.5]; the 200 x 80 rectangle at [x = 200] is grabbed at
    (300, 740).  Dragged to (760, 740) it is cut to a width of 37.5, under
    the minimum of 40; dragged to (799, 740) it leaves the page and becomes
    the null rectangle, whose corner (0, 0) is outside the page image. *)
Lemma drag_breaks_minimum_and_containment :
  let cut :=
    PdfViewer.run [PdfViewer.Press (at_ 300 740); PdfViewer.Move (at_ 760 740)]
      previewing_wide in
  let gone :=
    PdfViewer.run [PdfViewer.Press (at_ 300 740); PdfViewer.Move (at_ 799 740)]
      previewing_wide in
  (exists r,
     PdfViewer._preview_rect cut = Some r /\
     (QRectF.width r == 375 # 10)%Q /\ (QRectF.width r < 40)%Q) /\
  PdfViewer._preview_rect gone = Some QRectF.null /\
  (QRectF.left (QRectF.null (F:=Q)) < QRectF.left (PdfViewer.pix_rect gone))%Q /\
  (QRectF.width (QRectF.null (F:=Q)) < 40)%Q.
Proof.
  intros cut gone. split; [| split; [| split]].
  - eexists. split; [vm_compute; reflexivity |].
    split; vm_compute; reflexivity.
  - vm_compute. reflexivity.
  - vm_compute. reflexivity.
  - vm_compute. reflexivity.
Qed.

(* ================================================================== *)
(** * Further properties of the code *)
(* ================================================================== *)

(* ------------------------------------------------------------------ *)
(** ** What the crop keeps *)

(** The crop of an image with ink: the copy of a rectangle that covers the
    bounding box of the ink, [padding] wider on each side where the image
    allows. *)
Lemma crop_with_ink (qimg : QImage.t) (padding x0 y0 : Z) :
  0 <= padding -> in_image qimg x0 y0 -> opaque qimg x0 y0 = true ->
  exists minx miny maxx maxy,
    is_bbox qimg (minx, miny, maxx, maxy) /\
    crop_alpha_bbox qimg padding =
      QImage.copy qimg
        (mkQRect (Z.max 0 (minx - padding)) (Z.max 0 (miny - padding))
           (Z.min (QImage.width qimg - 1) (maxx + padding)
            - Z.max 0 (minx - padding) + 1)
           (Z.min (QImage.height qimg - 1) (maxy + padding)
            - Z.max 0 (miny - padding) + 1)).
Proof.
  intros Hp Hin Hop.
  destruct (bbox_scan_spec qimg) as [[Htr _] | Hbb].
  - rewrite (Htr _ _ Hin) in Hop. discriminate.
  - destruct (bbox_scan qimg) as [[[minx miny] maxx] maxy] eqn:Hscan.
    exists minx, miny, maxx, maxy. split; [exact Hbb |].
    pose proof (is_bbox_range _ _ _ _ _ Hbb).
    apply crop_of_bbox; [exact Hscan | lia].
Qed.

(** X1: when the image has ink, the crop is a window of the image: it is
    not null, it lies inside the image, each of its pixels is the pixel of
    the image at the same place, and every pixel with ink is in it. *)
Theorem crop_keeps_ink (qimg : QImage.t) (padding x0 y0 : Z) :
  0 <= padding -> in_image qimg x0 y0 -> opaque qimg x0 y0 = true ->
  let res := crop_alpha_bbox qimg padding in
  exists L T,
    0 <= L /\ 0 <= T /\
    0 < QImage.width res /\ L + QImage.width res <= QImage.width qimg /\
    0 < QImage.height res /\ T + QImage.height res <= QImage.height qimg /\
    (forall i j, in_image res i j ->
                 QImage.pixel res i j = QImage.pixel qimg (L + i) (T + j)) /\
    (forall x y, in_image qimg x y -> opaque qimg x y = true ->
                 in_image res (x - L) (y - T)).
Proof.
  intros Hp Hin Hop res.
  destruct (crop_with_ink qimg padding x0 y0 Hp Hin Hop)
    as (minx & miny & maxx & maxy & Hbb & Hcrop).
  pose proof (is_bbox_range _ _ _ _ _ Hbb) as Hrange.
  subst res. rewrite Hcrop.
  set (r := mkQRect _ _ _ _).
  assert (Hw : 0 < rect_width r) by (cbn; lia).
  assert (Hh : 0 < rect_height r) by (cbn; lia).
  destruct (size_copy qimg r Hw Hh) as [Ew Eh].
  exists (rect_x r), (rect_y r). rewrite Ew, Eh.
  split; [cbn; lia |]. split; [cbn; lia |].
  split; [exact Hw |]. split; [cbn; lia |].
  split; [exact Hh |]. split; [cbn; lia |].
  split.
  - intros i j [Hi Hj]. rewrite Ew in Hi. rewrite Eh in Hj.
    rewrite pixel_copy by assumption.
    unfold QImage.inside.
    destruct (Z.leb_spec 0 (rect_x r + i)); [| cbn in *; lia].
    destruct (Z.ltb_spec (rect_x r + i) (QImage.width qimg));
      [| cbn in *; lia].
    destruct (Z.leb_spec 0 (rect_y r + j)); [| cbn in *; lia].
    destruct (Z.ltb_spec (rect_y r + j) (QImage.height qimg));
      [| cbn in *; lia].
    reflexivity.
  - intros x y Hxy Hopx.
    destruct Hbb as (Hbox & _). specialize (Hbox x y Hxy Hopx).
    unfold in_image. rewrite Ew, Eh. cbn. lia.
Qed.

Lemma crop_keeps_ink_witness :
  let res := crop_alpha_bbox one_dot 1 in
  exists L T,
    0 <= L /\ 0 <= T /\
    0 < QImage.width res /\ L + QImage.width res <= 5 /\
    0 < QImage.height res /\ T + QImage.height res <= 1 /\
    (forall i j, in_image res i j ->
                 QImage.pixel res i j = QImage.pixel one_dot (L + i) (T + j)) /\
    (forall x y, in_image one_dot x y -> opaque one_dot x y = true ->
                 in_image res (x - L) (y - T)).
Proof.
  apply (crop_keeps_ink one_dot 1 2 0);
    [lia | split; cbn; lia | reflexivity].
Defined.

(** X2: when the image has ink, the crop leaves at most [padding]
    transparent columns or rows on each side: there is ink within
    [padding] of its left, right, top and bottom edges.  With padding 0
    its four border lines all carry ink. *)
Theorem crop_margins_at_most_padding (qimg : QImage.t)
  (padding x0 y0 : Z) :
  0 <= padding -> in_image qimg x0 y0 -> opaque qimg x0 y0 = true ->
  let res := crop_alpha_bbox qimg padding in
  (exists i j, in_image res i j /\ opaque res i j = true /\ i <= padding) /\
  (exists i j, in_image res i j /\ opaque res i j = true /\
               QImage.width res - 1 - padding <= i) /\
  (exists i j, in_image res i j /\ opaque res i j = true /\ j <= padding) /\
  (exists i j, in_image res i j /\ opaque res i j = true /\
               QImage.height res - 1 - padding <= j).
Proof.
  intros Hp Hin Hop res.
  destruct (crop_with_ink qimg padding x0 y0 Hp Hin Hop)
    as (minx & miny & maxx & maxy & Hbb & Hcrop).
  pose proof (is_bbox_range _ _ _ _ _ Hbb) as Hrange.
  subst res. rewrite Hcrop.
  set (r := mkQRect _ _ _ _).
  assert (Hw : 0 < rect_width r) by (cbn; lia).
  assert (Hh : 0 < rect_height r) by (cbn; lia).
  destruct (size_copy qimg r Hw Hh) as [Ew Eh].
  destruct Hbb as (Hbox & (y1 & I1 & O1) & (y2 & I2 & O2)
                     & (x3 & I3 & O3) & (x4 & I4 & O4)).
  pose proof (Hbox _ _ I1 O1). pose proof (Hbox _ _ I2 O2).
  pose proof (Hbox _ _ I3 O3). pose proof (Hbox _ _ I4 O4).
  assert (Hshift : forall x y,
            in_image qimg x y -> opaque qimg x y = true ->
            in_image (QImage.copy qimg r) (x - rect_x r) (y - rect_y r) /\
            opaque (QImage.copy qimg r) (x - rect_x r) (y - rect_y r) = true).
  { intros x y Hxy Hopx. pose proof (Hbox x y Hxy Hopx).
    unfold in_image in *. rewrite Ew, Eh. split; [cbn; lia |].
    rewrite opaque_copy by (cbn in *; lia).
    replace (rect_x r + (x - rect_x r)) with x by lia.
    replace (rect_y r + (y - rect_y r)) with y by lia.
    exact Hopx. }
  rewrite Ew, Eh. unfold in_image in *.
  split; [| split; [| split]].
  - exists (minx - rect_x r), (y1 - rect_y r).
    destruct (Hshift _ _ I1 O1). repeat split; try tauto. cbn. lia.
  - exists (maxx - rect_x r), (y2 - rect_y r).
    destruct (Hshift _ _ I2 O2). repeat split; try tauto. cbn. lia.
  - exists (x3 - rect_x r), (miny - rect_y r).
    destruct (Hshift _ _ I3 O3). repeat split; try tauto. cbn. lia.
  - exists (x4 - rect_x r), (maxy - rect_y r).
    destruct (Hshift _ _ I4 O4). repeat split; try tauto. cbn. lia.
Qed.

Lemma crop_margins_at_most_padding_witness :
  let res := crop_alpha_bbox one_dot 0 in
  (exists i j, in_image res i j /\ opaque res i j = true /\ i <= 0) /\
  (exists i j, in_image res i j /\ opaque res i j = true /\
               QImage.width res - 1 - 0 <= i) /\
  (exists i j, in_image res i j /\ opaque res i j = true /\ j <= 0) /\
  (exists i j, in_image res i j /\ opaque res i j = true /\
               QImage.height res - 1 - 0 <= j).
Proof.
  apply (crop_margins_at_most_padding one_dot 0 2 0);
    [lia | split; cbn; lia | reflexivity].
Defined.

(* ------------------------------------------------------------------ *)
(** ** Confirming a drawing *)

Lemma pixel_word (img : QImage.t) (x y : Z) :
  words_ok img = true -> 0 <= QImage.pixel img x y < 2 ^ 32.
Proof.
  intro Hok. unfold words_ok in Hok. unfold QImage.pixel.
  assert (Hrow : forallb (fun v => (0 <=? v) && (v <? 2 ^ 32))
                   (nth (Z.to_nat y) (QImage.scanlines img) []) = true).
  { destruct (nth_in_or_default (Z.to_nat y) (QImage.scanlines img) [])
      as [Hin | ->]; [| reflexivity].
    rewrite forallb_forall in Hok. apply Hok. exact Hin. }
  destruct (nth_in_or_default (Z.to_nat x)
              (nth (Z.to_nat y) (QImage.scanlines img) []) 0)
    as [Hin | ->]; [| change (2 ^ 32) with 4294967296; lia].
  rewrite forallb_forall in Hrow. specialize (Hrow _ Hin).
  apply andb_prop in Hrow. destruct Hrow as [H0 H1].
  apply Z.leb_le in H0. apply Z.ltb_lt in H1. lia.
Qed.

Lemma length_range (n : Z) : List.length (range n) = Z.to_nat n.
Proof. unfold range. rewrite length_map, length_seq. reflexivity. Qed.

(** A copy taken from an image of 32-bit words is well formed. *)
Lemma copy_well_formed (img : QImage.t) (r : QRect) :
  0 < rect_width r < 2 ^ 32 -> 0 < rect_height r < 2 ^ 32 ->
  words_ok img = true ->
  well_formed_image (QImage.copy img r).
Proof.
  intros Hw Hh Hok.
  destruct (size_copy img r) as [Ew Eh]; [lia | lia |].
  unfold well_formed_image. rewrite Ew, Eh.
  split; [exact Hw |]. split; [exact Hh |].
  unfold QImage.copy.
  destruct (Z.leb_spec (rect_width r) 0); [lia |].
  destruct (Z.leb_spec (rect_height r) 0); [lia |].
  cbn [orb QImage.scanlines].
  split; [rewrite length_map; apply length_range |].
  apply Forall_forall. intros row Hrow.
  apply in_map_iff in Hrow. destruct Hrow as (j & <- & _).
  split; [rewrite length_map; apply length_range |].
  apply Forall_forall. intros v Hv.
  apply in_map_iff in Hv. destruct Hv as (i & <- & _).
  destruct (QImage.inside img (rect_x r + i) (rect_y r + j)).
  - apply pixel_word. exact Hok.
  - unfold QImage.transparent. change (2 ^ 32) with 4294967296. lia.
Qed.

(** What [accept()] stores when there is ink on the buffer: the PNG of the
    crop, which loads back as the crop. *)
Lemma accept_with_ink {F : Type} `{PyFloat F} (pad : SignaturePad.t F)
  (x0 y0 : Z) :
  let img := SignatureCanvas.image (SignaturePad.canvas pad) in
  in_image img x0 y0 -> opaque img x0 y0 = true ->
  words_ok img = true ->
  QImage.width img < 2 ^ 32 -> QImage.height img < 2 ^ 32 ->
  exists b bs,
    SignaturePad.result_png_bytes (SignaturePad.accept pad) = Some (b :: bs) /\
    QImage.load_png (b :: bs) = Some (crop_alpha_bbox img 16).
Proof.
  intros img Hin Hop Hok Hw Hh.
  destruct (crop_with_ink img 16 x0 y0 ltac:(lia) Hin Hop)
    as (minx & miny & maxx & maxy & Hbb & Hcrop).
  pose proof (is_bbox_range _ _ _ _ _ Hbb) as Hrange.
  assert (Hwf : well_formed_image (crop_alpha_bbox img 16)).
  { rewrite Hcrop. apply copy_well_formed; [cbn; lia | cbn; lia | exact Hok]. }
  destruct (save_png_nonempty (crop_alpha_bbox img 16)) as (b & bs & Hsave).
  { destruct Hwf as (Hw' & Hh' & _). unfold QImage.isNull.
    destruct (Z.leb_spec (QImage.width (crop_alpha_bbox img 16)) 0); [lia |].
    destruct (Z.leb_spec (QImage.height (crop_alpha_bbox img 16)) 0); [lia |].
    reflexivity. }
  exists b, bs. split.
  - unfold SignaturePad.accept, SignaturePad.result_png_bytes.
    cbn [SignaturePad._png_bytes]. fold img. rewrite Hsave. reflexivity.
  - rewrite <- Hsave. apply load_save_png. exact Hwf.
Qed.

(** X3: when the pad is confirmed with ink on its buffer, [sign_here]
    starts the preview over the selection with the buffer cropped to its
    ink (padding 16), and shows the Apply and Cancel buttons; no message
    box appears. *)
Theorem sign_here_with_ink {F : Type} `{PyFloat F}
  (drawLine : QImage.t -> Z -> QPointF F -> QPointF F -> QImage.t)
  (self : PdfViewer.t F) (session : PdfViewer.pad_session F)
  (rect_pt : F * F * F * F) (sr : QRectF.t F)
  (pad_c : SignaturePad.t F) (x0 y0 : Z) :
  PdfViewer.doc_truthy (PdfViewer.doc self) = true ->
  PdfViewer.sel_rect self = Some sr ->
  PdfViewer._rect_to_pdf_points self = Return (Some rect_pt) ->
  SignaturePad.exec drawLine (PdfViewer.pad_script session)
    (SignaturePad.init (PdfViewer.pad_size_px rect_pt) 7
       (PdfViewer.pad_elapsed session) (PdfViewer.pad_width session)
       (PdfViewer.pad_height session))
  = (SignaturePad.Accepted, SignaturePad.accept pad_c) ->
  let img := SignatureCanvas.image (SignaturePad.canvas pad_c) in
  in_image img x0 y0 -> opaque img x0 y0 = true ->
  words_ok img = true ->
  QImage.width img < 2 ^ 32 -> QImage.height img < 2 ^ 32 ->
  exists self',
    PdfViewer.sign_here drawLine session self = (Return tt, self') /\
    PdfViewer._preview_active self' = true /\
    PdfViewer._preview_img self' = Some (crop_alpha_bbox img 16) /\
    PdfViewer._preview_rect self' = Some sr /\
    PdfViewer.btn_apply_visible self' = true /\
    PdfViewer.btn_cancel_visible self' = true /\
    PdfViewer.message_boxes self' = PdfViewer.message_boxes self.
Proof.
  intros Hdoc Hsel Hpt Hexec img Hin Hop Hok Hw Hh.
  destruct (accept_with_ink pad_c x0 y0 Hin Hop Hok Hw Hh)
    as (b & bs & Hbytes & Hload).
  assert (Hsr : negb (QRectF.truthy sr) || QRectF.isEmpty sr = false).
  { unfold PdfViewer._rect_to_pdf_points in Hpt. rewrite Hsel in Hpt.
    destruct (negb (QRectF.truthy sr) || QRectF.isEmpty sr);
      [discriminate Hpt | reflexivity]. }
  eexists. split.
  - unfold PdfViewer.sign_here, mbind, get, lift, put, ret.
    rewrite Hdoc, Hpt. cbn [negb].
    rewrite Hexec, Hbytes, Hload, Hsel, Hsr. reflexivity.
  - repeat split.
Qed.

(** X3 at the viewer with a 200 x 80 selection: one stroke from (100, 100)
    to (140, 120) on the 833 x 333 buffer, marked by the sample painter. *)
Lemma sign_here_with_ink_witness :
  let img := SignatureCanvas.image (SignaturePad.canvas stroke_pad) in
  opaque img 140 120 = true /\
  exists self',
    PdfViewer.sign_here dot_painter stroke_then_confirm selecting
    = (Return tt, self') /\
    PdfViewer._preview_active self' = true /\
    PdfViewer._preview_img self' = Some (crop_alpha_bbox img 16) /\
    PdfViewer._preview_rect self' = Some selection.
Proof.
  intro img.
  assert (Hop : opaque img 140 120 = true) by (vm_compute; reflexivity).
  assert (Hin : in_image img 140 120)
    by (split; split; vm_compute; congruence).
  assert (Hok : words_ok img = true) by (vm_compute; reflexivity).
  assert (Hw : QImage.width img < 2 ^ 32) by (vm_compute; reflexivity).
  assert (Hh : QImage.height img < 2 ^ 32) by (vm_compute; reflexivity).
  assert (Hsize : PdfViewer.pad_size_px (F:=Q)
                    (200 # 2, 1400 # 2, 2400 # 8, 6240 # 8)
                  = mkQSize 833 333) by (vm_compute; reflexivity).
  assert (Hexec :
    SignaturePad.exec dot_painter
      (PdfViewer.pad_script stroke_then_confirm)
      (SignaturePad.init
         (PdfViewer.pad_size_px (200 # 2, 1400 # 2, 2400 # 8, 6240 # 8)) 7
         (PdfViewer.pad_elapsed stroke_then_confirm)
         (PdfViewer.pad_width stroke_then_confirm)
         (PdfViewer.pad_height stroke_then_confirm))
    = (SignaturePad.Accepted, SignaturePad.accept stroke_pad))
    by (rewrite Hsize; reflexivity).
  assert (Hpt : PdfViewer._rect_to_pdf_points selecting
                = Return (Some (200 # 2, 1400 # 2, 2400 # 8, 6240 # 8)))
    by (vm_compute; reflexivity).
  assert (Hdoc : PdfViewer.doc_truthy (PdfViewer.doc selecting) = true)
    by reflexivity.
  assert (Hsel : PdfViewer.sel_rect selecting = Some selection)
    by reflexivity.
  split; [exact Hop |].
  pose proof (sign_here_with_ink dot_painter selecting stroke_then_confirm
                (200 # 2, 1400 # 2, 2400 # 8, 6240 # 8) selection stroke_pad
                140 120 Hdoc Hsel Hpt Hexec Hin Hop Hok Hw Hh)
    as (self' & Hrun & Hact & Himg & Hrect & _).
  exists self'.
  split; [exact Hrun |]. split; [exact Hact |].
  split; [exact Himg | exact Hrect].
Defined.

(* ------------------------------------------------------------------ *)
(** ** File names *)

Lemma substring_all (s : string) (m : nat) :
  (String.length s <= m)%nat -> substring 0 m s = s.
Proof.
  revert m. induction s as [| c s IH]; intros [| m] Hm; cbn in *;
    try reflexivity; try lia.
  rewrite IH by lia. reflexivity.
Qed.

Lemma substring_split (s : string) (n m : nat) :
  (String.length s <= n + m)%nat ->
  (substring 0 n s ++ substring n m s)%string = s.
Proof.
  revert n. induction s as [| c s IH]; intros [| n] Hm.
  - destruct m; reflexivity.
  - reflexivity.
  - rewrite (substring_all (String c s) m) by (cbn in *; lia). reflexivity.
  - cbn [substring append]. rewrite IH by (cbn in *; lia). reflexivity.
Qed.

Lemma substring_head (s : string) (n m : nat) (c : ascii) :
  String.get n s = Some c ->
  exists r, substring n (S m) s = String c r.
Proof.
  revert n. induction s as [| a s IH]; intros [| n] Hget; cbn in *;
    try discriminate.
  - inversion Hget; subst. eexists. reflexivity.
  - apply IH. exact Hget.
Qed.

(** [rfind] returns [-1] or the position of an occurrence. *)
Lemma rfind_from_spec (c : ascii) (s : string) :
  forall i acc,
    rfind_from c (list_ascii_of_string s) i acc = acc \/
    (i <= rfind_from c (list_ascii_of_string s) i acc /\
     String.get (Z.to_nat (rfind_from c (list_ascii_of_string s) i acc - i)) s
     = Some c).
Proof.
  induction s as [| a s IH]; intros i acc; cbn [list_ascii_of_string rfind_from].
  - left. reflexivity.
  - destruct (IH (i + 1) (if Ascii.eqb a c then i else acc)) as [E | [Hle Hget]].
    + rewrite E. destruct (Ascii.eqb_spec a c) as [-> | Hne].
      * right. split; [lia |]. replace (i - i) with 0 by lia. reflexivity.
      * left. reflexivity.
    + right. split; [lia |].
      set (r := rfind_from c (list_ascii_of_string s) (i + 1) _) in *.
      replace (Z.to_nat (r - i)) with (S (Z.to_nat (r - (i + 1)))) by lia.
      exact Hget.
Qed.

Lemma rfind_spec (c : ascii) (s : string) :
  rfind c s = -1 \/
  (0 <= rfind c s /\ String.get (Z.to_nat (rfind c s)) s = Some c).
Proof.
  unfold rfind.
  destruct (rfind_from_spec c s 0 (-1)) as [E | [Hle Hget]];
    [left; exact E | right].
  split; [exact Hle |]. rewrite Z.sub_0_r in Hget. exact Hget.
Qed.

Lemma splitext_concat (p : string) :
  (fst (splitext p) ++ snd (splitext p))%string = p /\
  (snd (splitext p) = EmptyString \/
   exists e, snd (splitext p) = String "." e).
Proof.
  unfold splitext.
  destruct (Z.ltb_spec (rfind "/" p) (rfind "." p)) as [Hlt | Hge].
  - destruct (existsb _ _).
    + cbn [fst snd]. split.
      * apply substring_split. lia.
      * right.
        destruct (rfind_spec "." p) as [E | [H0 Hget]].
        -- destruct (rfind_spec "/" p) as [E' | [H0' _]]; lia.
        -- assert (Hlen : (Z.to_nat (rfind "." p) < String.length p)%nat).
           { clear - Hget. revert Hget.
             generalize (Z.to_nat (rfind "." p)) as n.
             induction p as [| a p IH]; intros [| n] Hget; cbn in *;
               try discriminate; try lia.
             specialize (IH _ Hget). lia. }
           destruct (String.length p) as [| m] eqn:El; [lia |].
           apply (substring_head p _ m). exact Hget.
    + cbn [fst snd]. split; [| left; reflexivity].
      clear. induction p; cbn; congruence.
  - cbn [fst snd]. split; [| left; reflexivity].
    clear. induction p; cbn; congruence.
Qed.

(** X4: [splitext] cuts the path in two without losing a character, and
    the extension is empty or begins with a dot. *)
Theorem splitext_round_trip (p : string) :
  (fst (splitext p) ++ snd (splitext p))%string = p /\
  (snd (splitext p) = EmptyString \/
   exists e, snd (splitext p) = String "." e).
Proof. exact (splitext_concat p). Qed.

(* ------------------------------------------------------------------ *)
(** ** What [insert_signature_png] writes *)

(** The first choice for the output name and the one with the time stamp. *)
Lemma insert_outcome {F : Type} `{PyFloat F} (wd : fitz.World F)
  (pdf_path : string) (page_index : Z) (rect_pt : F * F * F * F)
  (png_bytes : list Z) :
  insert_signature_png pdf_path page_index rect_pt png_bytes wd =
  match fitz.lookup pdf_path (fitz.files wd) with
  | None =>
      (Raise (FileNotFoundError ("no such file: '" ++ pdf_path ++ "'")%string),
       wd)
  | Some ps =>
      let doc := fitz.mkDocument pdf_path ps in
      match fitz.getitem doc (clamp_page_index page_index doc) with
      | Raise e => (Raise e, wd)
      | Return n =>
          if fitz.rect_is_empty rect_pt
          then (Raise (ValueError "rect must be finite and not empty"), wd)
          else
            let base := fst (splitext pdf_path) in
            let out :=
              if fitz.exists_ wd (base ++ "_firmado.pdf")%string
              then (base ++ "_firmado_" ++ fitz.strftime_now wd
                    ++ ".pdf")%string
              else (base ++ "_firmado.pdf")%string in
            (Return out,
             fitz.save wd
               (fitz.mkDocument pdf_path
                  (fitz.update_nth n (fitz.stamped rect_pt png_bytes) ps))
               out)
      end
  end.
Proof.
  unfold insert_signature_png, mbind, get, lift, put, ret, fitz.open.
  destruct (fitz.lookup pdf_path (fitz.files wd)) as [ps |]; [| reflexivity].
  cbv zeta.
  destruct (fitz.getitem _ _) as [e | n]; [reflexivity |].
  unfold fitz.insert_image.
  destruct (fitz.rect_is_empty rect_pt); [reflexivity |].
  destruct (splitext pdf_path) as [base ext]. reflexivity.
Qed.

Lemma append_inj_l (a b c : string) :
  (a ++ b)%string = (a ++ c)%string -> b = c.
Proof.
  induction a as [| x a IH]; cbn; intro E; [exact E |].
  inversion E. apply IH. assumption.
Qed.

(** Neither output name is the name of the source. *)
Lemma output_name_fresh (pdf_path tail : string) :
  (fst (splitext pdf_path) ++ String "_" tail)%string <> pdf_path.
Proof.
  destruct (splitext_concat pdf_path) as [Hcat Hext].
  intro E. rewrite <- Hcat in E at 2. apply append_inj_l in E.
  destruct Hext as [Hnil | (e & He)]; rewrite <- E in *; discriminate.
Qed.

Lemma lookup_save_other {F : Type} (wd : fitz.World F)
  (doc : fitz.Document F) (out q : string) :
  q <> out ->
  fitz.lookup q (fitz.files (fitz.save wd doc out))
  = fitz.lookup q (fitz.files wd).
Proof.
  intro Hne. unfold fitz.save. cbn [fitz.files fitz.lookup].
  destruct (String.eqb_spec out q) as [E | _]; [congruence | reflexivity].
Qed.

(** X5: a successful [insert_signature_png] writes exactly one file, the
    one whose name it returns; this is never the source PDF, and when
    [<base>_firmado.pdf] already exists it is not that file either: the
    source and an earlier signed copy are left as they were. *)
Theorem insert_writes_only_output {F : Type} `{PyFloat F}
  (wd wd' : fitz.World F) (pdf_path out : string) (page_index : Z)
  (rect_pt : F * F * F * F) (png_bytes : list Z) :
  insert_signature_png pdf_path page_index rect_pt png_bytes wd
  = (Return out, wd') ->
  let first := (fst (splitext pdf_path) ++ "_firmado.pdf")%string in
  out <> pdf_path /\
  (forall q, q <> out ->
     fitz.lookup q (fitz.files wd') = fitz.lookup q (fitz.files wd)) /\
  fitz.lookup pdf_path (fitz.files wd')
  = fitz.lookup pdf_path (fitz.files wd) /\
  (fitz.exists_ wd first = true ->
   out <> first /\
   fitz.lookup first (fitz.files wd') = fitz.lookup first (fitz.files wd)) /\
  (fitz.exists_ wd first = false -> out = first).
Proof.
  intros Hrun first. rewrite insert_outcome in Hrun.
  destruct (fitz.lookup pdf_path (fitz.files wd)) as [ps |] eqn:Hfile;
    [| discriminate Hrun].
  cbv zeta in Hrun.
  destruct (fitz.getitem _ _) as [e | n]; [discriminate Hrun |].
  destruct (fitz.rect_is_empty rect_pt); [discriminate Hrun |].
  fold first in Hrun.
  assert (Hfresh : out <> pdf_path).
  { destruct (fitz.exists_ wd first); inversion Hrun; subst out;
      apply output_name_fresh. }
  assert (Hother : forall q, q <> out ->
            fitz.lookup q (fitz.files wd') = fitz.lookup q (fitz.files wd)).
  { intros q Hq.
    destruct (fitz.exists_ wd first); inversion Hrun; subst wd';
      apply lookup_save_other; congruence. }
  split; [exact Hfresh |]. split; [exact Hother |].
  split; [rewrite <- Hfile; apply Hother; congruence |].
  split.
  - intro Hex. rewrite Hex in Hrun.
    assert (Hne : out <> first).
    { inversion Hrun as [[Hout Hwd]]. unfold first. intro E.
      apply append_inj_l in E. discriminate E. }
    split; [exact Hne |]. apply Hother. congruence.
  - intro Hex. rewrite Hex in Hrun. inversion Hrun. reflexivity.
Qed.

(** X5 on the two-page document, signed a second time: the first signed
    copy exists, so the time stamp is used. *)
Lemma insert_writes_only_output_witness :
  let rect := ((10 # 1), (10 # 1), (110 # 1), (60 # 1))%Q in
  let wd1 := snd (insert_signature_png "contract.pdf" 0 rect [137; 80]
                    two_pages) in
  exists wd2,
    insert_signature_png "contract.pdf" 1 rect [137; 80] wd1
    = (Return "contract_firmado_20240101_120000.pdf"%string, wd2) /\
    fitz.lookup "contract.pdf" (fitz.files wd2) = Some [a4; a4] /\
    fitz.lookup "contract_firmado.pdf" (fitz.files wd2)
    = Some [fitz.stamped rect [137; 80] a4; a4].
Proof.
  intros rect wd1.
  set (wd2 := snd (insert_signature_png "contract.pdf" 1 rect [137; 80] wd1)).
  assert (Hrun : insert_signature_png "contract.pdf" 1 rect [137; 80] wd1
                 = (Return "contract_firmado_20240101_120000.pdf"%string, wd2))
    by (vm_compute; reflexivity).
  destruct (insert_writes_only_output wd1 wd2 "contract.pdf" _ 1 rect
              [137; 80] Hrun) as (_ & _ & Hsrc & Hfirst & _).
  exists wd2. split; [exact Hrun |]. split.
  - rewrite Hsrc. vm_compute. reflexivity.
  - destruct Hfirst as [_ Hkeep]; [vm_compute; reflexivity |].
    assert (Hname : (fst (splitext "contract.pdf") ++ "_firmado.pdf")%string
                    = "contract_firmado.pdf"%string)
      by (vm_compute; reflexivity).
    rewrite Hname in Hkeep. rewrite Hkeep. vm_compute. reflexivity.
Defined.


Lemma update_nth_length {F : Type} (n : nat) (f : fitz.Page F -> fitz.Page F)
  (ps : list (fitz.Page F)) :
  List.length (fitz.update_nth n f ps) = List.length ps.
Proof.
  revert n. induction ps as [| p ps IH]; intros [| n]; cbn; auto.
Qed.

Lemma update_nth_same {F : Type} (n : nat) (f : fitz.Page F -> fitz.Page F)
  (ps : list (fitz.Page F)) (p : fitz.Page F) :
  nth_error ps n = Some p ->
  nth_error (fitz.update_nth n f ps) n = Some (f p).
Proof.
  revert n. induction ps as [| q ps IH]; intros [| n]; cbn;
    try discriminate.
  - intro E. inversion E. reflexivity.
  - apply IH.
Qed.

Lemma update_nth_other {F : Type} (n k : nat)
  (f : fitz.Page F -> fitz.Page F) (ps : list (fitz.Page F)) :
  k <> n -> nth_error (fitz.update_nth n f ps) k = nth_error ps k.
Proof.
  revert n k. induction ps as [| q ps IH]; intros [| n] [| k] Hne; cbn;
    try reflexivity; try contradiction.
  apply IH. congruence.
Qed.

(** X7: a successful insertion saves a document with as many pages as the
    source; the page at the clamped index keeps its size and its earlier
    images and gains the new image as the last one; the other pages are
    those of the source. *)
Theorem insert_stamps_one_page {F : Type} `{PyFloat F}
  (wd : fitz.World F) (pdf_path : string) (ps : list (fitz.Page F))
  (page_index : Z) (rect_pt : F * F * F * F) (png_bytes : list Z) :
  fitz.lookup pdf_path (fitz.files wd) = Some ps ->
  ps <> [] ->
  fitz.rect_is_empty rect_pt = false ->
  let j := Z.to_nat (clamp_page_index page_index
                       (fitz.mkDocument pdf_path ps)) in
  exists out wd' ps' pj,
    insert_signature_png pdf_path page_index rect_pt png_bytes wd
    = (Return out, wd') /\
    fitz.lookup out (fitz.files wd') = Some ps' /\
    List.length ps' = List.length ps /\
    nth_error ps j = Some pj /\
    nth_error ps' j
    = Some (fitz.mkPage (fitz.page_width pj) (fitz.page_height pj)
              (fitz.images pj ++ [(rect_pt, png_bytes)])) /\
    (forall k, k <> j -> nth_error ps' k = nth_error ps k).
Proof.
  intros Hfile Hps Hrect j.
  set (doc := fitz.mkDocument pdf_path ps) in *.
  assert (Hn : 1 <= fitz.len doc).
  { unfold fitz.len, doc. cbn [fitz.pages].
    destruct ps; [contradiction | cbn [List.length]; lia]. }
  assert (Hj : 0 <= clamp_page_index page_index doc < fitz.len doc).
  { unfold clamp_page_index. rewrite max_int_is_max, min_int_is_min. lia. }
  assert (Hget : fitz.getitem doc (clamp_page_index page_index doc)
                 = Return j).
  { unfold fitz.getitem.
    destruct (Z.ltb_spec (clamp_page_index page_index doc) (fitz.len doc));
      [| lia].
    rewrite Z.mod_small by lia. reflexivity. }
  assert (Hlt : (j < List.length ps)%nat).
  { assert (Hlen : fitz.len doc = Z.of_nat (List.length ps))
      by reflexivity.
    rewrite Hlen in Hj. unfold j. lia. }
  destruct (nth_error ps j) as [pj |] eqn:Epj;
    [| apply nth_error_None in Epj; lia].
  pose proof (insert_outcome wd pdf_path page_index rect_pt png_bytes) as Hrun.
  rewrite Hfile in Hrun. cbv zeta in Hrun. fold doc in Hrun.
  rewrite Hget, Hrect in Hrun.
  eexists. eexists.
  exists (fitz.update_nth j (fitz.stamped rect_pt png_bytes) ps), pj.
  split; [exact Hrun |].
  split; [unfold fitz.save; cbn [fitz.files fitz.pages]; apply lookup_head |].
  split; [apply update_nth_length |].
  split; [reflexivity |].
  split; [exact (update_nth_same j (fitz.stamped rect_pt png_bytes) ps pj Epj) |].
  intros k Hk. apply update_nth_other. exact Hk.
Qed.

Lemma insert_stamps_one_page_witness :
  let rect := ((10 # 1), (10 # 1), (110 # 1), (60 # 1))%Q in
  exists out wd' ps' pj,
    insert_signature_png "contract.pdf" 7 rect [137; 80] two_pages
    = (Return out, wd') /\
    fitz.lookup out (fitz.files wd') = Some ps' /\
    List.length ps' = 2%nat /\
    nth_error [a4; a4] 1 = Some pj /\
    nth_error ps' 1
    = Some (fitz.mkPage (fitz.page_width pj) (fitz.page_height pj)
              (fitz.images pj ++ [(rect, [137; 80])])) /\
    (forall k, k <> 1%nat -> nth_error ps' k = nth_error [a4; a4] k).
Proof.
  intro rect.
  apply (insert_stamps_one_page two_pages "contract.pdf" [a4; a4] 7 rect
           [137; 80]); [reflexivity | discriminate | reflexivity].
Defined.

(* ------------------------------------------------------------------ *)
(** ** The moving average *)








(* ------------------------------------------------------------------ *)
(** ** The exponential filter *)

Lemma ema_dt_nonzero {F : Type} `{PyFloat F} (self : SignatureCanvas.t F)
  (now : Z) : SignatureCanvas.ema_dt self now <> 0.
Proof.
  unfold SignatureCanvas.ema_dt, max_int.
  destruct (Z.ltb_spec 1 (now - SignatureCanvas._last_ms self)); lia.
Qed.

Lemma blend_between (a u v : Q) :
  (0 <= a <= 1)%Q ->
  (Qmin u v <= (1 - a) * u + a * v <= Qmax u v)%Q.
Proof.
  intros [Ha0 Ha1].
  destruct (Q.min_spec u v) as [[Huv Emin] | [Huv Emin]];
    destruct (Q.max_spec u v) as [[Huv' Emax] | [Huv' Emax]];
    rewrite Emin, Emax; split; nra.
Qed.

(** X9: past the first sample of a stroke, with [0 <= smin <= smax <= 1]
    and a positive [vref], [_ema] returns a point each of whose coordinates
    lies between the previous smoothed value and the raw sample: the filter
    never overshoots.  It records the raw sample, the smoothed point and the
    time stamp (exact arithmetic). *)
Theorem ema_between (self : SignatureCanvas.t Q) (now : Z)
  (pt sp rp : QPointF Q) :
  SignatureCanvas._smooth_prev self = Some sp ->
  SignatureCanvas._raw_prev self = Some rp ->
  (0 <= SignatureCanvas.smin self)%Q ->
  (SignatureCanvas.smin self <= SignatureCanvas.smax self)%Q ->
  (SignatureCanvas.smax self <= 1)%Q ->
  (0 < SignatureCanvas.vref self)%Q ->
  exists s self',
    SignatureCanvas._ema now pt self = (Return s, self') /\
    (Qmin (px sp) (px pt) <= px s <= Qmax (px sp) (px pt))%Q /\
    (Qmin (py sp) (py pt) <= py s <= Qmax (py sp) (py pt))%Q /\
    SignatureCanvas._raw_prev self' = Some pt /\
    SignatureCanvas._smooth_prev self' = Some s /\
    SignatureCanvas._last_ms self' = now /\
    SignatureCanvas._img self' = SignatureCanvas._img self.
Proof.
  intros Hsp Hrp Hmin Hmm Hmax Hvref.
  unfold SignatureCanvas._ema.
  unfold mbind at 1. unfold get at 1.
  unfold mbind at 1. unfold put at 1.
  unfold mbind at 1. unfold get at 1.
  cbn [SignatureCanvas._smooth_prev SignatureCanvas._raw_prev
       SignatureCanvas.with_last_ms].
  rewrite Hsp, Hrp.
  unfold mbind at 1. unfold lift at 1.
  rewrite (truediv_int_returns _ _ (ema_dt_nonzero self now)).
  unfold mbind at 1.
  rewrite alpha_for_returns by exact Hvref.
  cbn [SignatureCanvas.smin SignatureCanvas.smax SignatureCanvas.vref
       SignatureCanvas.with_last_ms].
  set (q := fdiv _ (SignatureCanvas.vref self)).
  pose proof (max_min_is_clamp q) as Hq.
  pose proof (clamp_bounds q) as Hc.
  set (t := max_float (of_int 0) (min_float (of_int 1) q)) in *.
  set (a := (SignatureCanvas.smin self
             + (SignatureCanvas.smax self - SignatureCanvas.smin self) * t)%py).
  assert (Ha : (0 <= a <= 1)%Q).
  { subst a. exact_arith. rewrite Hq. split; nra. }
  unfold mbind, modify, get, ret.
  eexists. eexists. split; [reflexivity |].
  cbn [px py SignatureCanvas._raw_prev SignatureCanvas._smooth_prev
       SignatureCanvas._last_ms SignatureCanvas._img
       SignatureCanvas.with_prev SignatureCanvas.with_last_ms].
  split; [| split; [| repeat split]].
  - change (Qmin (px sp) (px pt) <= (1 - a) * px sp + a * px pt
            <= Qmax (px sp) (px pt))%Q.
    apply blend_between. exact Ha.
  - change (Qmin (py sp) (py pt) <= (1 - a) * py sp + a * py pt
            <= Qmax (py sp) (py pt))%Q.
    apply blend_between. exact Ha.
Qed.

(** X9 at the canvas [__init__] builds, one millisecond after a sample at
    [(0, 0)] that was smoothed to [(1, 1)], for the sample [(3, 5)]. *)
Lemma ema_between_witness :
  let self :=
    SignatureCanvas.with_prev (Some (at_ 0 0)) (Some (at_ 1 1))
      (SignatureCanvas.init (F:=Q) (mkQSize 600 300) 7 0 900 300) in
  exists s self',
    SignatureCanvas._ema 1 (at_ 3 5) self = (Return s, self') /\
    (Qmin 1 3 <= px s <= Qmax 1 3)%Q /\
    (Qmin 1 5 <= py s <= Qmax 1 5)%Q /\
    SignatureCanvas._raw_prev self' = Some (at_ 3 5) /\
    SignatureCanvas._smooth_prev self' = Some s /\
    SignatureCanvas._last_ms self' = 1 /\
    SignatureCanvas._img self' = SignatureCanvas._img self.
Proof.
  intro self.
  apply (ema_between self 1 (at_ 3 5) (at_ 1 1) (at_ 0 0)).
  - reflexivity.
  - reflexivity.
  - vm_compute. discriminate.
  - vm_compute. discriminate.
  - vm_compute. discriminate.
  - vm_compute. reflexivity.
Defined.

(* ------------------------------------------------------------------ *)
(** ** The first move of a stroke *)

Lemma Qlt_bool_comp (a a' b : Q) :
  (a == a')%Q -> Qlt_bool a b = Qlt_bool a' b.
Proof.
  intro Ha.
  destruct (Qlt_bool a b) eqn:E; destruct (Qlt_bool a' b) eqn:E';
    try reflexivity; reflect_Q; exfalso; lra.
Qed.

(** X10: the first sample after [_stroke_begin] passes through both filters
    unchanged: [_ema] has no previous sample and the average is over one
    point.  When it is closer to the start than [min_seg_len] (Manhattan
    distance) the stroke stays a single point and nothing is drawn;
    otherwise the stroke gets its second point and one straight line is
    drawn between the two, in buffer coordinates (exact arithmetic). *)
Theorem first_move_of_stroke
  (drawLine : QImage.t -> Z -> QPointF Q -> QPointF Q -> QImage.t)
  (self : SignatureCanvas.t Q) (pos pos' : QPointF Q) (now : Z) :
  let begun := snd (SignatureCanvas._stroke_begin pos self) in
  exists s self',
    SignatureCanvas._stroke_add drawLine now pos' begun = (Return tt, self') /\
    (px s == px pos')%Q /\ (py s == py pos')%Q /\
    if Qlt_bool (SignatureCanvas.manhattan pos' pos)
                (SignatureCanvas.min_seg_len self)
    then SignatureCanvas._points self' = [pos] /\
         SignatureCanvas._img self' = SignatureCanvas._img self
    else SignatureCanvas._points self' = [pos; s] /\
         SignatureCanvas._img self' =
           drawLine (SignatureCanvas._img self)
                    (SignatureCanvas.pen_width self)
                    (SignatureCanvas.to_buf
                       (SignatureCanvas.buf_offset self) pos)
                    (SignatureCanvas.to_buf
                       (SignatureCanvas.buf_offset self) s).
Proof.
  intro begun.
  set (s := mkQPointF ((of_int 0 + px pos') / of_int 1)%py
                      ((of_int 0 + py pos') / of_int 1)%py).
  assert (Hx : (px s == px pos')%Q) by (subst s; cbn [px]; exact_arith; field).
  assert (Hy : (py s == py pos')%Q) by (subst s; cbn [py]; exact_arith; field).
  assert (Hm : (SignatureCanvas.manhattan s pos
                == SignatureCanvas.manhattan pos' pos)%Q).
  { unfold SignatureCanvas.manhattan.
    change (Qabs (px s - px pos) + Qabs (py s - py pos)
            == Qabs (px pos' - px pos) + Qabs (py pos' - py pos))%Q.
    rewrite Hx, Hy. reflexivity. }
  exists s.
  unfold SignatureCanvas._stroke_add, SignatureCanvas._ema,
    SignatureCanvas._moving_avg, begun, SignatureCanvas._stroke_begin,
    mbind, modify, get, put, lift, ret.
  cbn [snd fst SignatureCanvas._smooth_prev SignatureCanvas._raw_prev
       SignatureCanvas.with_ma_win SignatureCanvas.with_prev
       SignatureCanvas.with_points SignatureCanvas.with_last_ms
       SignatureCanvas._ma_win SignatureCanvas._points
       SignatureCanvas.deque_append app List.length Nat.ltb Nat.leb
       map SignatureCanvas.sum fold_left Z.of_nat Pos.of_succ_nat
       truediv_int Z.eqb SignatureCanvas.min_seg_len].
  fold s.
  change (flt (SignatureCanvas.manhattan s pos)
              (SignatureCanvas.min_seg_len self))
    with (Qlt_bool (SignatureCanvas.manhattan s pos)
                   (SignatureCanvas.min_seg_len self)).
  rewrite (Qlt_bool_comp _ _ _ Hm).
  destruct (Qlt_bool (SignatureCanvas.manhattan pos' pos)
                     (SignatureCanvas.min_seg_len self)).
  - eexists. split; [reflexivity |].
    split; [exact Hx |]. split; [exact Hy |]. split; reflexivity.
  - eexists. split; [reflexivity |].
    split; [exact Hx |]. split; [exact Hy |]. split; reflexivity.
Qed.

(* ------------------------------------------------------------------ *)
(** ** Clearing the pad *)

(** X11: whatever has been drawn, pressing the clear button and then, with
    no further stroke, the confirm button makes the pad return the PNG of a
    fully transparent image of the size of the buffer. *)
Theorem clear_then_confirm {F : Type} `{PyFloat F}
  (drawLine : QImage.t -> Z -> QPointF F -> QPointF F -> QImage.t)
  (pad : SignaturePad.t F) (idle rest : list (SignaturePad.event F)) :
  let img := SignatureCanvas.image (SignaturePad.canvas pad) in
  0 < QImage.width img < 2 ^ 32 -> 0 < QImage.height img < 2 ^ 32 ->
  forallb no_ink idle = true ->
  exists pad' b bs,
    SignaturePad.exec drawLine
      (SignaturePad.ClickClear :: idle ++ SignaturePad.ClickConfirm :: rest)
      pad
    = (SignaturePad.Accepted, pad') /\
    SignaturePad.result_png_bytes pad' = Some (b :: bs) /\
    QImage.load_png (b :: bs)
    = Some (QImage.filled (mkQSize (QImage.width img) (QImage.height img))
              QImage.transparent).
Proof.
  intros img Hw Hh Hidle.
  set (size := mkQSize (QImage.width img) (QImage.height img)).
  destruct (exec_without_ink drawLine size idle rest) with
    (pad := SignaturePad.on_canvas SignatureCanvas.clear pad)
    as (pad' & Hexec & Himg').
  - unfold size. cbn [size_width]. lia.
  - unfold size. cbn [size_height]. lia.
  - exact Hidle.
  - reflexivity.
  - destruct (accept_transparent pad') as (b & bs & Hbytes & Hload).
    + rewrite Himg'. apply filled_fully_transparent.
    + rewrite Himg'.
      apply filled_well_formed;
        unfold size, QImage.transparent; cbn [size_width size_height]; lia.
    + exists (SignaturePad.accept pad'), b, bs.
      split; [exact Hexec |]. split; [exact Hbytes |].
      rewrite Hload, Himg'. reflexivity.
Qed.

(** X11 on the pad with one stroke drawn: a tap, the clear button and the
    confirm button. *)
Lemma clear_then_confirm_witness :
  let img := SignatureCanvas.image (SignaturePad.canvas stroke_pad) in
  let idle := [SignaturePad.MousePress true (at_ 5 5);
               SignaturePad.MouseRelease true] in
  exists pad' b bs,
    SignaturePad.exec dot_painter
      (SignaturePad.ClickClear :: idle ++ [SignaturePad.ClickConfirm])
      stroke_pad
    = (SignaturePad.Accepted, pad') /\
    SignaturePad.result_png_bytes pad' = Some (b :: bs) /\
    QImage.load_png (b :: bs)
    = Some (QImage.filled (mkQSize (QImage.width img) (QImage.height img))
              QImage.transparent).
Proof.
  intros img idle.
  assert (Hw : 0 < QImage.width img < 2 ^ 32)
    by (vm_compute; split; reflexivity).
  assert (Hh : 0 < QImage.height img < 2 ^ 32)
    by (vm_compute; split; reflexivity).
  assert (Hidle : forallb no_ink idle = true) by reflexivity.
  exact (clear_then_confirm dot_painter stroke_pad idle [] Hw Hh Hidle).
Defined.

(* ------------------------------------------------------------------ *)
(** ** Where the buffer is painted and where the ink goes *)

Lemma half_floor (d : Z) :
  (inject_Z d / inject_Z 2
   == inject_Z (d / 2) + (if Z.even d then 0 else 1 # 2))%Q.
Proof.
  assert (E : d = 2 * (d / 2) + d mod 2) by (apply Z.div_mod; discriminate).
  rewrite Zmod_even in E.
  assert (Ed : (inject_Z d
                == inject_Z 2 * inject_Z (d / 2)
                   + inject_Z (if Z.even d then 0%Z else 1%Z))%Q).
  { rewrite <- inject_Z_mult, <- inject_Z_plus. rewrite <- E. reflexivity. }
  rewrite Ed. change (inject_Z 2) with (2 # 1).
  destruct (Z.even d).
  - change (inject_Z 0) with (0 # 1). field.
  - change (inject_Z 1) with (1 # 1). field.
Qed.

(** X12: [paintEvent] draws the buffer at the floor of half the difference
    between the widget and the buffer, while the strokes are translated by
    half the difference itself: the two offsets agree when the difference
    is even and the ink sits half a pixel off what the pointer showed when
    it is odd (exact arithmetic). *)
Theorem paint_offset_and_buffer_offset (self : SignatureCanvas.t Q) :
  let '(x, y, pm) := SignatureCanvas.paintEvent self in
  let dw := SignatureCanvas.widget_width self - QImage.width pm in
  let dh := SignatureCanvas.widget_height self - QImage.height pm in
  pm = SignatureCanvas._img self /\
  (fst (SignatureCanvas.buf_offset self)
   == inject_Z x + (if Z.even dw then 0 else 1 # 2))%Q /\
  (snd (SignatureCanvas.buf_offset self)
   == inject_Z y + (if Z.even dh then 0 else 1 # 2))%Q.
Proof.
  unfold SignatureCanvas.paintEvent, SignatureCanvas.buf_offset.
  cbn [fst snd]. split; [reflexivity |].
  split; apply half_floor.
Qed.

(** X13: the same holds in the viewer.  [_draw_canvas] draws the page
    image at the floor of half the free space; the gesture handlers and the
    conversion to points place it at half the free space. *)
Theorem page_offset_and_pix_rect (self : PdfViewer.t Q) (pm : QImage.t) :
  PdfViewer._page_pix self = Some pm -> QImage.isNull pm = false ->
  exists x y rest,
    PdfViewer.canvas_pixmap (PdfViewer._draw_canvas self)
    = PdfViewer.drawPixmap x y :: rest /\
    let cr := PdfViewer.contentsRect self in
    let dw := rect_width cr - size_width (PdfViewer.pm_size self) in
    let dh := rect_height cr - size_height (PdfViewer.pm_size self) in
    (QRectF.left (PdfViewer.pix_rect self)
     == inject_Z x + (if Z.even dw then 0 else 1 # 2))%Q /\
    (QRectF.top (PdfViewer.pix_rect self)
     == inject_Z y + (if Z.even dh then 0 else 1 # 2))%Q.
Proof.
  intros Hpix Hnull.
  unfold PdfViewer._draw_canvas. rewrite Hpix, Hnull.
  cbn [PdfViewer.canvas_pixmap PdfViewer.with_canvas_pixmap app].
  eexists. eexists. eexists. split; [reflexivity |].
  unfold PdfViewer.pix_rect, PdfViewer._target_rect.
  cbn [QRectF.left QRectF.top QRectF.xp QRectF.yp].
  split; apply half_floor.
Qed.

(** X13 for the one-dot image, 5 x 1, as the page image in a label of
    10 x 4: the free width 5 is odd, the free height 3 as well. *)
Lemma page_offset_and_pix_rect_witness :
  let self :=
    PdfViewer.with_rendering (1 # 1) (mkQSize 5 1) one_dot
      (PdfViewer.init (mkQRect 0 0 10 4)) in
  exists x y rest,
    PdfViewer.canvas_pixmap (PdfViewer._draw_canvas self)
    = PdfViewer.drawPixmap x y :: rest /\
    let cr := PdfViewer.contentsRect self in
    let dw := rect_width cr - size_width (PdfViewer.pm_size self) in
    let dh := rect_height cr - size_height (PdfViewer.pm_size self) in
    (QRectF.left (PdfViewer.pix_rect self)
     == inject_Z x + (if Z.even dw then 0 else 1 # 2))%Q /\
    (QRectF.top (PdfViewer.pix_rect self)
     == inject_Z y + (if Z.even dh then 0 else 1 # 2))%Q.
Proof.
  intro self.
  exact (page_offset_and_pix_rect self one_dot eq_refl eq_refl).
Defined.

(* ------------------------------------------------------------------ *)
(** ** A hovering pen *)

(** X14: while the pressed flag is off, pen events of a hovering pen
    (moves with a pressure not above the threshold and no button, releases,
    events of other types) never draw: the buffer stays as it was, the
    pressed flag stays off and the threshold is not changed. *)
Theorem hovering_pen_draws_nothing {F : Type} `{PyFloat F}
  (drawLine : QImage.t -> Z -> QPointF F -> QPointF F -> QImage.t)
  (evs : list (Z * SignatureCanvas.tablet_event F))
  (self : SignatureCanvas.t F) :
  SignatureCanvas._pressed self = false ->
  forallb (fun e => hovering (SignatureCanvas.press_threshold self) (snd e))
          evs = true ->
  let self' := pen_events drawLine evs self in
  SignatureCanvas._img self' = SignatureCanvas._img self /\
  SignatureCanvas._pressed self' = false /\
  SignatureCanvas.press_threshold self' = SignatureCanvas.press_threshold self.
Proof.
  revert self. induction evs as [| [now ev] evs IH]; intros self Hup Hall.
  - cbn. repeat split. exact Hup.
  - cbn [forallb snd] in Hall. apply andb_true_iff in Hall.
    destruct Hall as [Hev Hall].
    change (pen_events drawLine ((now, ev) :: evs) self)
      with (pen_events drawLine evs
              (snd (SignatureCanvas.tabletEvent drawLine now ev self))).
    set (next := snd (SignatureCanvas.tabletEvent drawLine now ev self)).
    assert (Hnext : SignatureCanvas._img next = SignatureCanvas._img self /\
                    SignatureCanvas._pressed next = false /\
                    SignatureCanvas.press_threshold next
                    = SignatureCanvas.press_threshold self).
    { subst next. unfold hovering in Hev.
      unfold SignatureCanvas.tabletEvent, SignatureCanvas.tablet_down,
        SignatureCanvas._stroke_end, mbind, modify, get, ret.
      rewrite Hup. cbn [orb].
      destruct (SignatureCanvas.ev_type ev); try discriminate.
      - rewrite Hev. cbn. repeat split.
      - cbn. repeat split.
      - cbn. repeat split. exact Hup. }
    destruct Hnext as (Himg & Hup' & Hth).
    rewrite <- Hth in Hall.
    destruct (IH next Hup' Hall) as (Himg' & Hup'' & Hth').
    cbn zeta. rewrite Himg', Hth'. repeat split; assumption.
Qed.

(** X14 for the canvas [__init__] builds: a light move, a release and a
    proximity event. *)
Lemma hovering_pen_draws_nothing_witness :
  let self := SignatureCanvas.init (F:=Q) (mkQSize 600 300) 7 0 900 300 in
  let evs :=
    [ (3, SignatureCanvas.mk_tablet_event SignatureCanvas.TabletMove
            (at_ 10 10) (5 # 100) false);
      (9, SignatureCanvas.mk_tablet_event SignatureCanvas.TabletRelease
            (at_ 12 10) (0 # 1) false);
      (12, SignatureCanvas.mk_tablet_event SignatureCanvas.TabletOther
             (at_ 12 10) (0 # 1) false) ] in
  let self' := pen_events no_paint evs self in
  SignatureCanvas._img self' = SignatureCanvas._img self /\
  SignatureCanvas._pressed self' = false /\
  SignatureCanvas.press_threshold self' = SignatureCanvas.press_threshold self.
Proof.
  intros self evs.
  exact (hovering_pen_draws_nothing no_paint evs self eq_refl eq_refl).
Defined.

(* ------------------------------------------------------------------ *)
(** ** Leaving the pad without confirming *)

Lemma exec_cancelled {F : Type} `{PyFloat F}
  (drawLine : QImage.t -> Z -> QPointF F -> QPointF F -> QImage.t)
  (script : list (SignaturePad.event F)) :
  cancelled script = true ->
  forall pad : SignaturePad.t F,
    exists pad',
      SignaturePad.exec drawLine script pad = (SignaturePad.Rejected, pad') /\
      SignaturePad.result_png_bytes pad' = None.
Proof.
  induction script as [| e script IH]; intros Hc pad.
  - eexists. split; reflexivity.
  - destruct e; cbn [cancelled SignaturePad.exec] in *;
      try discriminate; try (apply IH; exact Hc).
    eexists. split; reflexivity.
Qed.

(** X15: when the user leaves the pad by the cancel button or by closing
    the window, whatever was drawn before, the pad is rejected with no PNG
    bytes and [sign_here] returns with the viewer exactly as it was: no
    preview, no message box. *)
Theorem sign_here_cancelled {F : Type} `{PyFloat F}
  (drawLine : QImage.t -> Z -> QPointF F -> QPointF F -> QImage.t)
  (self : PdfViewer.t F) (session : PdfViewer.pad_session F)
  (rect_pt : F * F * F * F) :
  PdfViewer.doc_truthy (PdfViewer.doc self) = true ->
  PdfViewer._rect_to_pdf_points self = Return (Some rect_pt) ->
  cancelled (PdfViewer.pad_script session) = true ->
  (exists pad',
     SignaturePad.exec drawLine (PdfViewer.pad_script session)
       (SignaturePad.init (PdfViewer.pad_size_px rect_pt) 7
          (PdfViewer.pad_elapsed session) (PdfViewer.pad_width session)
          (PdfViewer.pad_height session))
     = (SignaturePad.Rejected, pad') /\
     SignaturePad.result_png_bytes pad' = None) /\
  PdfViewer.sign_here drawLine session self = (Return tt, self).
Proof.
  intros Hdoc Hpt Hc.
  destruct (exec_cancelled drawLine (PdfViewer.pad_script session) Hc
              (SignaturePad.init (PdfViewer.pad_size_px rect_pt) 7
                 (PdfViewer.pad_elapsed session) (PdfViewer.pad_width session)
                 (PdfViewer.pad_height session)))
    as (pad' & Hexec & Hbytes).
  split; [exists pad'; split; [exact Hexec | exact Hbytes] |].
  unfold PdfViewer.sign_here, mbind, get, lift.
  rewrite Hdoc. cbn [negb]. rewrite Hpt, Hexec. reflexivity.
Qed.

(** X15 at the viewer with a 200 x 80 selection: the user draws a stroke
    and presses the cancel button. *)
Lemma sign_here_cancelled_witness :
  let session :=
    PdfViewer.mk_pad_session 0 833 333
      [ SignaturePad.MousePress true (at_ 100 100);
        SignaturePad.MouseMove true 16 (at_ 140 120);
        SignaturePad.ClickCancel;
        SignaturePad.ClickConfirm ] in
  PdfViewer.sign_here dot_painter session selecting = (Return tt, selecting).
Proof.
  intro session.
  assert (Hpt : PdfViewer._rect_to_pdf_points selecting
                = Return (Some (200 # 2, 1400 # 2, 2400 # 8, 6240 # 8)))
    by (vm_compute; reflexivity).
  assert (Hdoc : PdfViewer.doc_truthy (PdfViewer.doc selecting) = true)
    by reflexivity.
  assert (Hc : cancelled (PdfViewer.pad_script session) = true)
    by reflexivity.
  exact (proj2 (sign_here_cancelled dot_painter selecting session
                  (200 # 2, 1400 # 2, 2400 # 8, 6240 # 8) Hdoc Hpt Hc)).
Defined.

(* ------------------------------------------------------------------ *)
(** ** From the canvas to PDF points *)

Lemma truediv_returns (x y : Q) :
  ~ (y == 0)%Q -> truediv x y = Return (x / y)%Q.
Proof.
  intro Hy. unfold truediv.
  destruct (feq y (of_int 0)) eqn:E; [| reflexivity].
  exfalso. exact_arith. reflect_Q. apply Hy. exact E.
Qed.

Lemma Qdiv_le_mono (x y s : Q) : (0 < s)%Q -> (x <= y)%Q -> (x / s <= y / s)%Q.
Proof.
  intros Hs Hxy. unfold Qdiv. apply Qmult_le_compat_r; [exact Hxy |].
  apply Qlt_le_weak, Qinv_lt_0_compat. exact Hs.
Qed.

Lemma Qdiv_lt_mono (x y s : Q) : (0 < s)%Q -> (x < y)%Q -> (x / s < y / s)%Q.
Proof.
  intros Hs Hxy. unfold Qdiv. apply Qmult_lt_compat_r; [| exact Hxy].
  apply Qinv_lt_0_compat. exact Hs.
Qed.

(** X16: with a positive rendering scale the conversion of a canvas
    rectangle to PDF points never raises, and what it returns is [None] or
    a rectangle [(left, top, right, bottom)] of positive width and height
    that lies on the page: between [0] and the size of the page image
    divided by the scale (exact arithmetic). *)
Theorem pdf_points_on_page (self : PdfViewer.t Q) (r : QRectF.t Q) :
  (0 < PdfViewer.render_scale self)%Q ->
  0 <= size_width (PdfViewer.pm_size self) ->
  0 <= size_height (PdfViewer.pm_size self) ->
  let s := PdfViewer.render_scale self in
  let W := inject_Z (size_width (PdfViewer.pm_size self)) in
  let H := inject_Z (size_height (PdfViewer.pm_size self)) in
  exists o,
    PdfViewer._canvas_rect_to_pdf_points self r = Return o /\
    match o with
    | None => True
    | Some (a, b, c, d) =>
        (0 <= a)%Q /\ (a < c)%Q /\ (c <= W / s)%Q /\
        (0 <= b)%Q /\ (b < d)%Q /\ (d <= H / s)%Q
    end.
Proof.
  intros Hs Hw Hh s W H.
  unfold PdfViewer._canvas_rect_to_pdf_points, PdfViewer.to_pdf_points.
  set (page := QRectF.mk (of_int 0) (of_int 0)
                 (of_int (size_width (PdfViewer.pm_size self)))
                 (of_int (size_height (PdfViewer.pm_size self)))).
  set (r2 := QRectF.intersected _ page).
  assert (Hc : clamped_to page r2) by apply intersected_clamped.
  destruct (QRectF.isEmpty r2) eqn:Eempty.
  { exists None. split; [reflexivity | exact I]. }
  assert (Hs0 : ~ (PdfViewer.render_scale self == 0)%Q) by lra.
  rewrite !truediv_returns by exact Hs0. cbn [bind].
  eexists. split; [reflexivity |].
  destruct Hc as [Hnull | Hin].
  { rewrite Hnull in Eempty. vm_compute in Eempty. discriminate. }
  destruct Hin as (Hpw & Hph & Hl & Hr & Ht & Hb).
  assert (Ew : flt (of_int (size_width (PdfViewer.pm_size self)))
                   (of_int 0 : Q) = false).
  { exact_arith. apply Qlt_bool_false. unfold Qle. cbn. lia. }
  assert (Eh : flt (of_int (size_height (PdfViewer.pm_size self)))
                   (of_int 0 : Q) = false).
  { exact_arith. apply Qlt_bool_false. unfold Qle. cbn. lia. }
  unfold QRectF.hspan, QRectF.vspan, page in Hl, Hr, Ht, Hb.
  cbn [QRectF.w QRectF.h QRectF.xp QRectF.yp] in Hl, Hr, Ht, Hb.
  rewrite Ew in Hl, Hr. rewrite Eh in Ht, Hb.
  cbn [fst snd] in Hl, Hr, Ht, Hb.
  fold page in r2. fold s.
  unfold QRectF.width, QRectF.height, QRectF.left, QRectF.right,
    QRectF.top, QRectF.bottom in *.
  change (of_int 0 : Q) with (inject_Z 0) in *.
  change (fadd (inject_Z 0) (of_int (size_width (PdfViewer.pm_size self))))
    with (inject_Z 0 + W)%Q in Hr.
  change (fadd (inject_Z 0) (of_int (size_height (PdfViewer.pm_size self))))
    with (inject_Z 0 + H)%Q in Hb.
  change (inject_Z 0) with (0 # 1) in *.
  change (fadd (QRectF.xp r2) (QRectF.w r2))
    with (QRectF.xp r2 + QRectF.w r2)%Q in *.
  change (fadd (QRectF.yp r2) (QRectF.h r2))
    with (QRectF.yp r2 + QRectF.h r2)%Q in *.
  change fdiv with Qdiv.
  assert (Z0 : (0 == 0 / s)%Q) by (unfold s; field; lra).
  repeat split.
  - rewrite Z0. apply Qdiv_le_mono; [exact Hs | lra].
  - apply Qdiv_lt_mono; [exact Hs | lra].
  - apply Qdiv_le_mono; [exact Hs | lra].
  - rewrite Z0. apply Qdiv_le_mono; [exact Hs | lra].
  - apply Qdiv_lt_mono; [exact Hs | lra].
  - apply Qdiv_le_mono; [exact Hs | lra].
Qed.

(** X16 at the viewer showing an A4 page at scale 1, for its 200 x 80
    selection. *)
Lemma pdf_points_on_page_witness :
  exists o,
    PdfViewer._canvas_rect_to_pdf_points selecting selection = Return o /\
    match o with
    | None => True
    | Some (a, b, c, d) =>
        (0 <= a)%Q /\ (a < c)%Q /\ (c <= inject_Z 595 / (1 # 1))%Q /\
        (0 <= b)%Q /\ (b < d)%Q /\ (d <= inject_Z 842 / (1 # 1))%Q
    end.
Proof.
  apply (pdf_points_on_page selecting selection).
  - vm_compute. reflexivity.
  - vm_compute. discriminate.
  - vm_compute. discriminate.
Defined.

(* ------------------------------------------------------------------ *)
(** ** What the pointer events leave alone *)

Lemma same_frame_refl {F : Type} (a : PdfViewer.t F) : same_frame a a.
Proof. repeat split. Qed.

Lemma same_frame_trans {F : Type} (a b c : PdfViewer.t F) :
  same_frame a b -> same_frame b c -> same_frame a c.
Proof.
  unfold same_frame.
  intros (A1 & A2 & A3 & A4 & A5 & A6 & A7 & A8 & A9 & A10 & A11)
         (B1 & B2 & B3 & B4 & B5 & B6 & B7 & B8 & B9 & B10 & B11).
  repeat split; congruence.
Qed.

Lemma draw_canvas_frame {F : Type} `{PyFloat F} (a : PdfViewer.t F) :
  same_frame (PdfViewer._draw_canvas a) a.
Proof. repeat split. Qed.

Lemma handle_frame {F : Type} `{PyFloat F} (self : PdfViewer.t F)
  (e : PdfViewer.event F) :
  same_frame (PdfViewer.handle self e) self.
Proof.
  destruct e as [pos | pos | | pos delta]; cbn [PdfViewer.handle].
  - unfold PdfViewer._start_sel, PdfViewer._pos_local. cbv zeta.
    repeat match goal with
           | |- same_frame (if ?b then _ else _) _ => destruct b
           | |- same_frame (match ?x with _ => _ end) _ => destruct x
           | |- same_frame (PdfViewer._draw_canvas (if ?b then _ else _)) _ =>
               destruct b
           | |- same_frame (PdfViewer._draw_canvas
                              (match ?x with _ => _ end)) _ => destruct x
           end; repeat split.
  - unfold PdfViewer._drag_sel, PdfViewer.drag_selection,
      PdfViewer._pos_local. cbv zeta.
    repeat match goal with
           | |- same_frame (if ?b then _ else _) _ => destruct b
           | |- same_frame (match ?x with _ => _ end) _ => destruct x
           end; repeat split.
  - unfold PdfViewer._end_sel. cbv zeta.
    cbn [PdfViewer.sel_start PdfViewer.with_gesture].
    destruct (PdfViewer.sel_start self); repeat split.
  - unfold PdfViewer._wheel_event, PdfViewer._pos_local. cbv zeta.
    repeat match goal with
           | |- same_frame (if ?b then _ else _) _ => destruct b
           | |- same_frame (match ?x with _ => _ end) _ => destruct x
           end; repeat split.
Qed.

Lemma run_frame {F : Type} `{PyFloat F} (events : list (PdfViewer.event F)) :
  forall self : PdfViewer.t F, same_frame (PdfViewer.run events self) self.
Proof.
  induction events as [| e events IH]; intro self.
  - apply same_frame_refl.
  - unfold PdfViewer.run in *. cbn [fold_left].
    eapply same_frame_trans; [apply IH | apply handle_frame].
Qed.

(** X17: the pointer events bound to the canvas (press, move, release,
    wheel), in any number and order, change neither the document nor the
    page shown, the rendering scale and size, the two buttons, the
    signature image and the active flag of the preview, nor do they open a
    message box: a gesture acts on the selection, the placement rectangle
    and the drawing of the canvas only. *)
Theorem pointer_events_frame {F : Type} `{PyFloat F}
  (events : list (PdfViewer.event F)) (self : PdfViewer.t F) :
  let self' := PdfViewer.run events self in
  PdfViewer.doc self' = PdfViewer.doc self /\
  PdfViewer.page_index self' = PdfViewer.page_index self /\
  PdfViewer.render_scale self' = PdfViewer.render_scale self /\
  PdfViewer.pm_size self' = PdfViewer.pm_size self /\
  PdfViewer.contentsRect self' = PdfViewer.contentsRect self /\
  PdfViewer._page_pix self' = PdfViewer._page_pix self /\
  PdfViewer.btn_apply_visible self' = PdfViewer.btn_apply_visible self /\
  PdfViewer.btn_cancel_visible self' = PdfViewer.btn_cancel_visible self /\
  PdfViewer._preview_active self' = PdfViewer._preview_active self /\
  PdfViewer._preview_img self' = PdfViewer._preview_img self /\
  PdfViewer.message_boxes self' = PdfViewer.message_boxes self.
Proof. exact (run_frame events self). Qed.

(* ------------------------------------------------------------------ *)
(** ** A signature dragged off the page *)

Lemma handle_null_rect (self : PdfViewer.t Q) (e : PdfViewer.event Q) :
  PdfViewer._preview_rect self = Some QRectF.null ->
  PdfViewer._preview_rect (PdfViewer.handle self e) = Some QRectF.null.
Proof.
  intro Hrect.
  assert (Hnull : QRectF.truthy (QRectF.null (F:=Q)) = false)
    by (vm_compute; reflexivity).
  destruct e as [pos | pos | | pos delta]; cbn [PdfViewer.handle].
  - unfold PdfViewer._start_sel, PdfViewer._pos_local. cbv zeta.
    destruct (negb _); [exact Hrect |].
    destruct (PdfViewer._preview_active self); [| exact Hrect].
    rewrite Hrect, Hnull. exact Hrect.
  - unfold PdfViewer._drag_sel, PdfViewer._pos_local. cbv zeta.
    rewrite Hrect. cbn [PdfViewer.rect_truthy]. rewrite Hnull.
    rewrite andb_false_r. unfold PdfViewer.drag_selection.
    destruct (PdfViewer.sel_start self); exact Hrect.
  - unfold PdfViewer._end_sel. cbv zeta.
    cbn [PdfViewer.sel_start PdfViewer.with_gesture].
    destruct (PdfViewer.sel_start self); exact Hrect.
  - unfold PdfViewer._wheel_event.
    destruct (PdfViewer._preview_active self); [| exact Hrect].
    rewrite Hrect, Hnull. exact Hrect.
Qed.

Lemma run_null_rect (events : list (PdfViewer.event Q)) :
  forall self : PdfViewer.t Q,
    PdfViewer._preview_rect self = Some QRectF.null ->
    PdfViewer._preview_rect (PdfViewer.run events self) = Some QRectF.null.
Proof.
  induction events as [| e events IH]; intros self Hrect; [exact Hrect |].
  unfold PdfViewer.run in *. cbn [fold_left].
  apply IH. apply handle_null_rect. exact Hrect.
Qed.

(** X18: once a gesture has left the null rectangle as placement
    rectangle (the signature went off the page), no pointer event brings
    the signature back: the rectangle stays null whatever follows, and
    the Apply button then only opens the warning that the signature is off
    the page; the preview stays active and nothing is written on disk
    (exact arithmetic). *)
Theorem off_page_signature_is_stuck (wd : fitz.World Q)
  (self : PdfViewer.t Q) (img : QImage.t)
  (events : list (PdfViewer.event Q)) :
  PdfViewer._preview_active self = true ->
  PdfViewer._preview_img self = Some img ->
  PdfViewer._preview_rect self = Some QRectF.null ->
  let later := PdfViewer.run events self in
  PdfViewer._preview_rect later = Some QRectF.null /\
  PdfViewer.apply_signature (wd, later)
  = (Return tt,
     (wd, PdfViewer.show
            (PdfViewer.warning "Firmar" "La firma quedó fuera de la página.")
            later)).
Proof.
  intros Hact Himg Hrect later.
  pose proof (run_null_rect events self Hrect) as Hrect'.
  destruct (run_frame events self)
    as (_ & _ & _ & _ & _ & _ & _ & _ & Hact' & Himg' & _).
  fold later in Hrect', Hact', Himg'.
  split; [exact Hrect' |].
  unfold PdfViewer.apply_signature, mbind, get, lift, put.
  rewrite Hact', Himg', Hrect', Hact, Himg.
  assert (Hpt : PdfViewer._canvas_rect_to_pdf_points later QRectF.null
                = Return None).
  { unfold PdfViewer._canvas_rect_to_pdf_points, PdfViewer.to_pdf_points.
    cbv zeta.
    set (xo := fneg _). set (yo := fneg _).
    assert (Hi : forall page : QRectF.t Q,
               QRectF.intersected (QRectF.translate QRectF.null xo yo) page
               = QRectF.null).
    { intro page. unfold QRectF.intersected, QRectF.hspan, QRectF.translate,
        QRectF.null.
      cbn [QRectF.w QRectF.h QRectF.xp QRectF.yp].
      change (flt (of_int 0) (of_int 0 : Q)) with false. cbv iota.
      assert (E : feq (of_int 0 + xo)%py (of_int 0 + xo + of_int 0)%py = true).
      { exact_arith. apply Qeq_bool_iff. ring. }
      rewrite E. reflexivity. }
    rewrite Hi. reflexivity. }
  rewrite Hpt. reflexivity.
Qed.

(** X18 for the one-dot preview whose rectangle has become null: a press,
    a move, a release and a wheel turn later, Apply still only warns. *)
Lemma off_page_signature_is_stuck_witness :
  let self :=
    PdfViewer.with_preview true (Some one_dot) (Some QRectF.null) selecting in
  let later :=
    PdfViewer.run
      [ PdfViewer.Press (at_ 150 720); PdfViewer.Move (at_ 200 600);
        PdfViewer.Release; PdfViewer.Wheel (at_ 150 720) 120 ] self in
  PdfViewer._preview_rect later = Some QRectF.null /\
  PdfViewer.apply_signature (two_pages, later)
  = (Return tt,
     (two_pages,
      PdfViewer.show
        (PdfViewer.warning "Firmar" "La firma quedó fuera de la página.")
        later)).
Proof.
  intros self later.
  exact (off_page_signature_is_stuck two_pages self one_dot _
           eq_refl eq_refl eq_refl).
Defined.

(* ------------------------------------------------------------------ *)
(** ** After the button is released *)

(** X19: a release ends every gesture: a pointer move that follows it,
    before the next press, changes nothing at all. *)
Theorem move_after_release {F : Type} `{PyFloat F} (self : PdfViewer.t F)
  (pos : QPointF F) :
  PdfViewer.handle (PdfViewer.handle self PdfViewer.Release)
                   (PdfViewer.Move pos)
  = PdfViewer.handle self PdfViewer.Release.
Proof.
  cbn [PdfViewer.handle].
  assert (Hstart : PdfViewer.sel_start (PdfViewer._end_sel self) = None).
  { unfold PdfViewer._end_sel. cbv zeta.
    cbn [PdfViewer.sel_start PdfViewer.with_gesture].
    destruct (PdfViewer.sel_start self) eqn:E; [reflexivity |].
    cbn [PdfViewer.sel_start]. exact E. }
  assert (Hdrag : PdfViewer._dragging (PdfViewer._end_sel self) = false).
  { unfold PdfViewer._end_sel. cbv zeta.
    cbn [PdfViewer.sel_start PdfViewer.with_gesture].
    destruct (PdfViewer.sel_start self); reflexivity. }
  assert (Hres : PdfViewer._resizing (PdfViewer._end_sel self) = None).
  { unfold PdfViewer._end_sel. cbv zeta.
    cbn [PdfViewer.sel_start PdfViewer.with_gesture].
    destruct (PdfViewer.sel_start self); reflexivity. }
  unfold PdfViewer._drag_sel at 1, PdfViewer._pos_local. cbv zeta.
  unfold PdfViewer.drag_selection.
  rewrite Hstart, Hdrag, Hres.
  destruct (_ && _); reflexivity.
Qed.

(* ------------------------------------------------------------------ *)
(** ** Applying the signature *)

Lemma getitem_clamped {F : Type} `{PyFloat F} (doc : fitz.Document F)
  (page_index : Z) :
  fitz.pages doc <> [] ->
  fitz.getitem doc (clamp_page_index page_index doc)
  = Return (Z.to_nat (clamp_page_index page_index doc)).
Proof.
  intro Hps.
  assert (Hn : 1 <= fitz.len doc).
  { unfold fitz.len. destruct (fitz.pages doc);
      [contradiction | cbn [List.length]; lia]. }
  assert (Hj : 0 <= clamp_page_index page_index doc < fitz.len doc).
  { unfold clamp_page_index. rewrite max_int_is_max, min_int_is_min. lia. }
  unfold fitz.getitem.
  destruct (Z.ltb_spec (clamp_page_index page_index doc) (fitz.len doc));
    [| lia].
  rewrite Z.mod_small by lia. reflexivity.
Qed.

(** A rectangle that [to_pdf_points] returns at a positive scale is not
    empty for PyMuPDF. *)
Lemma pdf_points_not_empty (self : PdfViewer.t Q) (r : QRectF.t Q)
  (rect_pt : Q * Q * Q * Q) :
  (0 < PdfViewer.render_scale self)%Q ->
  PdfViewer.to_pdf_points self r = Return (Some rect_pt) ->
  fitz.rect_is_empty rect_pt = false.
Proof.
  intros Hs. unfold PdfViewer.to_pdf_points. cbv zeta.
  set (r2 := QRectF.intersected _ _).
  destruct (QRectF.isEmpty r2) eqn:Eempty; [discriminate |].
  assert (Hs0 : ~ (PdfViewer.render_scale self == 0)%Q) by lra.
  rewrite !truediv_returns by exact Hs0. cbn [bind].
  intro E. inversion E; subst rect_pt; clear E.
  unfold QRectF.isEmpty in Eempty. apply orb_false_elim in Eempty.
  destruct Eempty as [Ew Eh].
  unfold fitz.rect_is_empty, QRectF.left, QRectF.right, QRectF.top,
    QRectF.bottom.
  change (fle (QRectF.w r2) (of_int 0)) with (Qle_bool (QRectF.w r2) (0 # 1))
    in Ew.
  change (fle (QRectF.h r2) (of_int 0)) with (Qle_bool (QRectF.h r2) (0 # 1))
    in Eh.
  reflect_Q.
  apply orb_false_intro; apply Qle_bool_false;
    apply Qdiv_lt_mono; try exact Hs;
    change (fadd ?a ?b) with (a + b)%Q; lra.
Qed.

(** X20: with the signature previewed over the page, a positive rendering
    scale and the document still on disk with at least one page, Apply
    saves a copy in which the page at the clamped index carries the PNG of
    the preview in the converted rectangle, names the file saved in an
    information box, and then leaves the preview state.  The viewer keeps
    the document and the page it showed: the signed copy is not opened
    (exact arithmetic). *)
Theorem apply_signature_saves (wd : fitz.World Q) (self : PdfViewer.t Q)
  (img : QImage.t) (pr : QRectF.t Q) (d : fitz.Document Q)
  (ps : list (fitz.Page Q)) (rect_pt : Q * Q * Q * Q) :
  PdfViewer._preview_active self = true ->
  PdfViewer._preview_img self = Some img ->
  PdfViewer._preview_rect self = Some pr ->
  PdfViewer.doc self = Some d ->
  fitz.lookup (fitz.name d) (fitz.files wd) = Some ps ->
  ps <> [] ->
  (0 < PdfViewer.render_scale self)%Q ->
  PdfViewer._canvas_rect_to_pdf_points self pr = Return (Some rect_pt) ->
  let j := Z.to_nat (clamp_page_index (PdfViewer.page_index self)
                       (fitz.mkDocument (fitz.name d) ps)) in
  exists out wd' self',
    PdfViewer.apply_signature (wd, self) = (Return tt, (wd', self')) /\
    fitz.lookup out (fitz.files wd')
    = Some (fitz.update_nth j
              (fitz.stamped rect_pt (QImage.save_png img)) ps) /\
    PdfViewer.message_boxes self'
    = PdfViewer.message_boxes self ++
      [PdfViewer.information "Firmar"
         ("PDF firmado guardado:" ++ PdfViewer.nl ++ out)%string] /\
    PdfViewer._preview_active self' = false /\
    PdfViewer._preview_img self' = None /\
    PdfViewer._preview_rect self' = None /\
    PdfViewer.btn_apply_visible self' = false /\
    PdfViewer.btn_cancel_visible self' = false /\
    PdfViewer.doc self' = PdfViewer.doc self /\
    PdfViewer.page_index self' = PdfViewer.page_index self.
Proof.
  intros Hact Himg Hrect Hdoc Hfile Hps Hs Hpt j.
  pose proof (pdf_points_not_empty self pr rect_pt Hs Hpt) as Hne.
  pose proof (insert_outcome wd (fitz.name d) (PdfViewer.page_index self)
                rect_pt (QImage.save_png img)) as Hrun.
  rewrite Hfile in Hrun. cbv zeta in Hrun.
  rewrite getitem_clamped in Hrun by exact Hps.
  rewrite Hne in Hrun. fold j in Hrun.
  unfold PdfViewer.apply_signature, mbind, get, lift, put.
  rewrite Hact, Himg, Hrect, Hpt, Hdoc, Hrun.
  eexists. eexists. eexists. split; [reflexivity |].
  split; [apply lookup_head |].
  unfold PdfViewer.cancel_signature.
  split; [reflexivity |].
  repeat (split; [reflexivity |]).
  split; [exact Hdoc | reflexivity].
Qed.

(** X20 for the one-dot signature previewed over the selection on the
    first page of [contract.pdf]. *)
Lemma apply_signature_saves_witness :
  exists out wd' self',
    PdfViewer.apply_signature (two_pages, previewing)
    = (Return tt, (wd', self')) /\
    fitz.lookup out (fitz.files wd')
    = Some (fitz.update_nth 0
              (fitz.stamped (200 # 2, 1400 # 2, 2400 # 8, 6240 # 8)
                 (QImage.save_png one_dot)) [a4; a4]) /\
    PdfViewer.message_boxes self'
    = PdfViewer.message_boxes previewing ++
      [PdfViewer.information "Firmar"
         ("PDF firmado guardado:" ++ PdfViewer.nl ++ out)%string] /\
    PdfViewer._preview_active self' = false /\
    PdfViewer._preview_img self' = None /\
    PdfViewer._preview_rect self' = None /\
    PdfViewer.btn_apply_visible self' = false /\
    PdfViewer.btn_cancel_visible self' = false /\
    PdfViewer.doc self' = PdfViewer.doc previewing /\
    PdfViewer.page_index self' = PdfViewer.page_index previewing.
Proof.
  assert (Hpt : PdfViewer._canvas_rect_to_pdf_points previewing selection
                = Return (Some (200 # 2, 1400 # 2, 2400 # 8, 6240 # 8)))
    by (vm_compute; reflexivity).
  assert (Hps : [a4; a4] <> []) by discriminate.
  assert (Hs : (0 < PdfViewer.render_scale previewing)%Q)
    by (vm_compute; reflexivity).
  exact (apply_signature_saves two_pages previewing one_dot selection
           contract [a4; a4] (200 # 2, 1400 # 2, 2400 # 8, 6240 # 8)
           eq_refl eq_refl eq_refl eq_refl eq_refl Hps Hs Hpt).
Defined.

(* ------------------------------------------------------------------ *)
(** ** Gestures that stay on the page *)

(** Intersecting a rectangle with one it lies in gives it back, up to the
    equality of rationals. *)
Lemma intersected_within (r page : QRectF.t Q) :
  within page r ->
  (QRectF.xp (QRectF.intersected r page) == QRectF.xp r)%Q /\
  (QRectF.yp (QRectF.intersected r page) == QRectF.yp r)%Q /\
  (QRectF.w (QRectF.intersected r page) == QRectF.w r)%Q /\
  (QRectF.h (QRectF.intersected r page) == QRectF.h r)%Q.
Proof.
  unfold within, QRectF.width, QRectF.height, QRectF.left, QRectF.right,
    QRectF.top, QRectF.bottom.
  intros (Hw & Hh & Hl & Hr & Ht & Hb).
  change (fadd ?a ?b) with (a + b)%Q in Hr, Hb.
  unfold QRectF.intersected.
  assert (Eh : QRectF.hspan r = (QRectF.xp r, QRectF.xp r + QRectF.w r)%Q).
  { unfold QRectF.hspan.
    change (flt (QRectF.w r) (of_int 0)) with (Qlt_bool (QRectF.w r) (0 # 1)).
    destruct (Qlt_bool (QRectF.w r) (0 # 1)) eqn:E; [| reflexivity].
    reflect_Q. lra. }
  assert (Ev : QRectF.vspan r = (QRectF.yp r, QRectF.yp r + QRectF.h r)%Q).
  { unfold QRectF.vspan.
    change (flt (QRectF.h r) (of_int 0)) with (Qlt_bool (QRectF.h r) (0 # 1)).
    destruct (Qlt_bool (QRectF.h r) (0 # 1)) eqn:E; [| reflexivity].
    reflect_Q. lra. }
  rewrite Eh, Ev.
  destruct (QRectF.hspan page) as [l2 rr2].
  destruct (QRectF.vspan page) as [t2 b2].
  cbn [fst snd] in Hl, Hr, Ht, Hb.
  set (x := QRectF.xp r) in *. set (y := QRectF.yp r) in *.
  set (w := QRectF.w r) in *. set (h := QRectF.h r) in *.
  assert (E1 : feq x (x + w)%Q = false)
    by (apply Qeq_bool_false; lra).
  assert (E2 : feq l2 rr2 = false) by (apply Qeq_bool_false; lra).
  assert (E3 : fle rr2 x || fle (x + w)%Q l2 = false).
  { apply orb_false_intro; apply Qle_bool_false; lra. }
  assert (E4 : feq y (y + h)%Q = false)
    by (apply Qeq_bool_false; lra).
  assert (E5 : feq t2 b2 = false) by (apply Qeq_bool_false; lra).
  assert (E6 : fle b2 y || fle (y + h)%Q t2 = false).
  { apply orb_false_intro; apply Qle_bool_false; lra. }
  rewrite E1, E2, E3, E4, E5, E6.
  cbn [QRectF.xp QRectF.yp QRectF.w QRectF.h].
  change (fsub ?a ?b) with (a - b)%Q.
  destruct (qMax_spec x l2) as (X1 & X2 & X3).
  destruct (qMin_spec (x + w)%Q rr2) as (X4 & X5 & X6).
  destruct (qMax_spec y t2) as (Y1 & Y2 & Y3).
  destruct (qMin_spec (y + h)%Q b2) as (Y4 & Y5 & Y6).
  repeat split;
    try (destruct X3 as [X3 | X3]; destruct X6 as [X6 | X6]; lra);
    try (destruct Y3 as [Y3 | Y3]; destruct Y6 as [Y6 | Y6]; lra).
Qed.

Lemma within_truthy (page r : QRectF.t Q) :
  within page r -> QRectF.truthy r = true.
Proof.
  intros (Hw & _). unfold QRectF.truthy, QRectF.isNull, QRectF.width in *.
  assert (E : feq (QRectF.w r) (of_int 0) = false)
    by (apply Qeq_bool_false; change (of_int 0 : Q) with (0 # 1); lra).
  rewrite E. reflexivity.
Qed.

(** X21: a press inside the previewed signature, away from its corners,
    followed by a pointer move, moves the placement rectangle by the
    displacement of the pointer and keeps its size, as long as the moved
    rectangle lies on the page image (exact arithmetic). *)
Theorem drag_on_page_translates (self : PdfViewer.t Q) (pr : QRectF.t Q)
  (pos pos' : QPointF Q) :
  let p := fst (PdfViewer._pos_local self pos) in
  let p' := fst (PdfViewer._pos_local self pos') in
  let dx := (px p' - px p)%Q in
  let dy := (py p' - py p)%Q in
  let label :=
    QRectF.mk (of_int 0) (of_int 0)
      (of_int (rect_width (PdfViewer.contentsRect self)))
      (of_int (rect_height (PdfViewer.contentsRect self))) in
  PdfViewer._preview_active self = true ->
  PdfViewer._preview_rect self = Some pr ->
  QRectF.contains label p = true ->
  PdfViewer._hit_corner p pr 12 = None ->
  QRectF.contains pr p = true ->
  within (PdfViewer.pix_rect self) (QRectF.translate pr dx dy) ->
  exists r,
    PdfViewer._preview_rect
      (PdfViewer.run [PdfViewer.Press pos; PdfViewer.Move pos'] self)
    = Some r /\
    (QRectF.x r == QRectF.x pr + dx)%Q /\
    (QRectF.y r == QRectF.y pr + dy)%Q /\
    (QRectF.width r == QRectF.width pr)%Q /\
    (QRectF.height r == QRectF.height pr)%Q.
Proof.
  intros p p' dx dy label Hact Hrect Hlabel Hcorner Hin Hon.
  assert (Htruthy : QRectF.truthy pr = true).
  { apply within_truthy in Hon. exact Hon. }
  set (pressed :=
         PdfViewer._draw_canvas
           (PdfViewer.with_gesture true None (Some p) (Some pr) self)).
  assert (Hpress : PdfViewer.handle self (PdfViewer.Press pos) = pressed).
  { cbn [PdfViewer.handle]. unfold PdfViewer._start_sel.
    change (PdfViewer._pos_local self pos)
      with (p, PdfViewer._target_rect self).
    cbv beta iota zeta. unfold PdfViewer._target_rect. fold label.
    rewrite Hlabel, Hact, Hrect, Htruthy, Hcorner, Hin. reflexivity. }
  assert (Hmove :
    PdfViewer.handle pressed (PdfViewer.Move pos')
    = PdfViewer._draw_canvas
        (PdfViewer.with_preview_rect
           (QRectF.intersected (QRectF.translate pr dx dy)
              (PdfViewer.pix_rect self)) pressed)).
  { cbn [PdfViewer.handle]. unfold PdfViewer._drag_sel.
    change (PdfViewer._pos_local pressed pos')
      with (p', PdfViewer._target_rect self).
    cbv beta iota zeta.
    change (PdfViewer._preview_active pressed)
      with (PdfViewer._preview_active self).
    change (PdfViewer._preview_rect pressed)
      with (PdfViewer._preview_rect self).
    rewrite Hact, Hrect. cbn [PdfViewer.rect_truthy]. rewrite Htruthy.
    reflexivity. }
  unfold PdfViewer.run. cbn [fold_left]. rewrite Hpress, Hmove.
  eexists. split; [reflexivity |].
  destruct (intersected_within _ _ Hon) as (Ex & Ey & Ew & Eh).
  unfold QRectF.x, QRectF.y, QRectF.width, QRectF.height.
  rewrite Ex, Ey, Ew, Eh. cbn [QRectF.translate QRectF.xp QRectF.yp
                                QRectF.w QRectF.h].
  repeat split; reflexivity.
Qed.

(** X21 for the one-dot preview over the 200 x 80 selection at (100, 700):
    grabbed at its centre and moved by (50, -40). *)
Lemma drag_on_page_translates_witness :
  exists r,
    PdfViewer._preview_rect
      (PdfViewer.run [PdfViewer.Press (at_ 200 740);
                      PdfViewer.Move (at_ 250 700)] previewing)
    = Some r /\
    (QRectF.x r == 150 # 1)%Q /\
    (QRectF.y r == 660 # 1)%Q /\
    (QRectF.width r == 200 # 1)%Q /\
    (QRectF.height r == 80 # 1)%Q.
Proof.
  assert (Hlabel :
    QRectF.contains
      (QRectF.mk (of_int 0) (of_int 0)
         (of_int (rect_width (PdfViewer.contentsRect previewing)))
         (of_int (rect_height (PdfViewer.contentsRect previewing))))
      (fst (PdfViewer._pos_local previewing (at_ 200 740))) = true)
    by (vm_compute; reflexivity).
  assert (Hcorner :
    PdfViewer._hit_corner
      (fst (PdfViewer._pos_local previewing (at_ 200 740))) selection 12
    = None) by (vm_compute; reflexivity).
  assert (Hin :
    QRectF.contains selection
      (fst (PdfViewer._pos_local previewing (at_ 200 740))) = true)
    by (vm_compute; reflexivity).
  assert (Hon :
    within (PdfViewer.pix_rect previewing)
      (QRectF.translate selection
         (px (fst (PdfViewer._pos_local previewing (at_ 250 700)))
          - px (fst (PdfViewer._pos_local previewing (at_ 200 740))))%Q
         (py (fst (PdfViewer._pos_local previewing (at_ 250 700)))
          - py (fst (PdfViewer._pos_local previewing (at_ 200 740))))%Q))
    by (repeat split; vm_compute; first [reflexivity | discriminate]).
  exact (drag_on_page_translates previewing selection (at_ 200 740)
           (at_ 250 700) eq_refl eq_refl Hlabel Hcorner Hin Hon).
Defined.

(** X22: a wheel turn over the previewed signature multiplies the width
    and the height of the placement rectangle by
    [1 + 0.0015 * delta] and keeps its centre, as long as the scaled
    rectangle lies on the page image (exact arithmetic). *)
Theorem wheel_on_page_scales (self : PdfViewer.t Q) (pr : QRectF.t Q)
  (pos : QPointF Q) (delta : Z) :
  let p := fst (PdfViewer._pos_local self pos) in
  let factor := (1 + (15 # 10000) * inject_Z delta)%Q in
  let zoomed :=
    QRectF.moveCenter
      (QRectF.setHeight
         (QRectF.setWidth pr (QRectF.width pr * factor)%Q)
         (QRectF.height pr * factor)%Q)
      (QRectF.center pr) in
  PdfViewer._preview_active self = true ->
  PdfViewer._preview_rect self = Some pr ->
  QRectF.contains pr p = true ->
  within (PdfViewer.pix_rect self) zoomed ->
  exists r,
    PdfViewer._preview_rect
      (PdfViewer.handle self (PdfViewer.Wheel pos delta))
    = Some r /\
    (QRectF.width r == QRectF.width pr * factor)%Q /\
    (QRectF.height r == QRectF.height pr * factor)%Q /\
    (px (QRectF.center r) == px (QRectF.center pr))%Q /\
    (py (QRectF.center r) == py (QRectF.center pr))%Q.
Proof.
  intros p factor zoomed Hact Hrect Hin Hon.
  assert (Htruthy : QRectF.truthy pr = true).
  { destruct Hon as (Hw & _).
    unfold zoomed, QRectF.width, QRectF.moveCenter, QRectF.setHeight,
      QRectF.setWidth in Hw.
    cbn [QRectF.w QRectF.h QRectF.xp QRectF.yp] in Hw.
    unfold QRectF.truthy, QRectF.isNull.
    assert (E : feq (QRectF.w pr) (of_int 0) = false).
    { apply Qeq_bool_false. change (of_int 0 : Q) with (0 # 1).
      intro E0. rewrite E0 in Hw. lra. }
    rewrite E. reflexivity. }
  assert (Hwheel :
    PdfViewer.handle self (PdfViewer.Wheel pos delta)
    = PdfViewer._draw_canvas
        (PdfViewer.with_preview_rect
           (QRectF.intersected zoomed (PdfViewer.pix_rect self)) self)).
  { cbn [PdfViewer.handle]. unfold PdfViewer._wheel_event.
    rewrite Hact, Hrect, Htruthy. cbn [negb].
    change (PdfViewer._pos_local self pos)
      with (p, PdfViewer._target_rect self).
    cbv beta iota zeta. rewrite Hin. reflexivity. }
  rewrite Hwheel. eexists. split; [reflexivity |].
  destruct (intersected_within _ _ Hon) as (Ex & Ey & Ew & Eh).
  unfold QRectF.width, QRectF.height, QRectF.center. cbn [px py].
  change (fadd ?a ?b) with (a + b)%Q.
  change (fdiv ?a ?b) with (a / b)%Q.
  rewrite Ex, Ey, Ew, Eh.
  unfold zoomed, QRectF.moveCenter, QRectF.setHeight, QRectF.setWidth,
    QRectF.center, QRectF.width, QRectF.height.
  cbn [QRectF.w QRectF.h QRectF.xp QRectF.yp px py].
  exact_arith.
  repeat split; try reflexivity; field.
Qed.

(** X22 for the one-dot preview over the 200 x 80 selection: one notch of
    the wheel (delta 120) makes it 236 x 94.4 around the same centre. *)
Lemma wheel_on_page_scales_witness :
  exists r,
    PdfViewer._preview_rect
      (PdfViewer.handle previewing (PdfViewer.Wheel (at_ 200 740) 120))
    = Some r /\
    (QRectF.width r == (200 # 1) * (1 + (15 # 10000) * inject_Z 120))%Q /\
    (QRectF.height r == (80 # 1) * (1 + (15 # 10000) * inject_Z 120))%Q /\
    (px (QRectF.center r) == px (QRectF.center selection))%Q /\
    (py (QRectF.center r) == py (QRectF.center selection))%Q.
Proof.
  assert (Hin :
    QRectF.contains selection
      (fst (PdfViewer._pos_local previewing (at_ 200 740))) = true)
    by (vm_compute; reflexivity).
  assert (Hon :
    within (PdfViewer.pix_rect previewing)
      (QRectF.moveCenter
         (QRectF.setHeight
            (QRectF.setWidth selection
               (QRectF.width selection
                * (1 + (15 # 10000) * inject_Z 120))%Q)
            (QRectF.height selection
             * (1 + (15 # 10000) * inject_Z 120))%Q)
         (QRectF.center selection)))
    by (repeat split; vm_compute; first [reflexivity | discriminate]).
  exact (wheel_on_page_scales previewing selection (at_ 200 740) 120
           eq_refl eq_refl Hin Hon).
Defined.

(* ------------------------------------------------------------------ *)
(** ** Drawing the selection *)

Lemma normalized_spans (a b : QPointF Q) :
  let r := QRectF.normalized (QRectF.of_points a b) in
  (QRectF.left r == Qmin (px a) (px b))%Q /\
  (QRectF.right r == Qmax (px a) (px b))%Q /\
  (QRectF.top r == Qmin (py a) (py b))%Q /\
  (QRectF.bottom r == Qmax (py a) (py b))%Q.
Proof.
  unfold QRectF.normalized, QRectF.of_points, QRectF.left, QRectF.right,
    QRectF.top, QRectF.bottom.
  cbn [QRectF.w QRectF.h QRectF.xp QRectF.yp].
  exact_arith.
  destruct (negb (Qle_bool (0 # 1) (px b - px a))) eqn:Ex;
    cbn [QRectF.w QRectF.h QRectF.xp QRectF.yp];
    destruct (negb (Qle_bool (0 # 1) (py b - py a))) eqn:Ey;
    cbn [QRectF.w QRectF.h QRectF.xp QRectF.yp];
    reflect_Q;
    destruct (Q.min_spec (px a) (px b)) as [[? ->] | [? ->]];
    destruct (Q.max_spec (px a) (px b)) as [[? ->] | [? ->]];
    destruct (Q.min_spec (py a) (py b)) as [[? ->] | [? ->]];
    destruct (Q.max_spec (py a) (py b)) as [[? ->] | [? ->]];
    repeat split; lra.
Qed.

(** X23: outside a preview, a press inside the label followed by a
    pointer move selects the rectangle spanned by the two points, whatever
    the direction of the move: its edges are the smaller and the larger of
    the two abscissas and of the two ordinates (exact arithmetic). *)
Theorem selection_spans_press_and_pointer (self : PdfViewer.t Q)
  (pos pos' : QPointF Q) :
  let p := fst (PdfViewer._pos_local self pos) in
  let p' := fst (PdfViewer._pos_local self pos') in
  let label :=
    QRectF.mk (of_int 0) (of_int 0)
      (of_int (rect_width (PdfViewer.contentsRect self)))
      (of_int (rect_height (PdfViewer.contentsRect self))) in
  PdfViewer._preview_active self = false ->
  QRectF.contains label p = true ->
  exists r,
    PdfViewer.sel_rect
      (PdfViewer.run [PdfViewer.Press pos; PdfViewer.Move pos'] self)
    = Some r /\
    (QRectF.left r == Qmin (px p) (px p'))%Q /\
    (QRectF.right r == Qmax (px p) (px p'))%Q /\
    (QRectF.top r == Qmin (py p) (py p'))%Q /\
    (QRectF.bottom r == Qmax (py p) (py p'))%Q.
Proof.
  intros p p' label Hact Hlabel.
  set (pressed :=
         PdfViewer._draw_canvas
           (PdfViewer.with_sel (Some p) (Some (QRectF.of_points p p)) self)).
  assert (Hpress : PdfViewer.handle self (PdfViewer.Press pos) = pressed).
  { cbn [PdfViewer.handle]. unfold PdfViewer._start_sel.
    change (PdfViewer._pos_local self pos)
      with (p, PdfViewer._target_rect self).
    cbv beta iota zeta. unfold PdfViewer._target_rect. fold label.
    rewrite Hlabel, Hact. reflexivity. }
  assert (Hmove :
    PdfViewer.handle pressed (PdfViewer.Move pos')
    = PdfViewer._draw_canvas
        (PdfViewer.with_sel (Some p)
           (Some (QRectF.normalized (QRectF.of_points p p'))) pressed)).
  { cbn [PdfViewer.handle]. unfold PdfViewer._drag_sel.
    change (PdfViewer._pos_local pressed pos')
      with (p', PdfViewer._target_rect self).
    cbv beta iota zeta.
    change (PdfViewer._preview_active pressed)
      with (PdfViewer._preview_active self).
    rewrite Hact. reflexivity. }
  unfold PdfViewer.run. cbn [fold_left]. rewrite Hpress, Hmove.
  eexists. split; [reflexivity |].
  apply normalized_spans.
Qed.

(** X23 on the first page of [contract.pdf]: pressed at (300, 300) and
    moved up and to the left, to (100, 250). *)
Lemma selection_spans_press_and_pointer_witness :
  exists r,
    PdfViewer.sel_rect
      (PdfViewer.run [PdfViewer.Press (at_ 300 300);
                      PdfViewer.Move (at_ 100 250)] selecting)
    = Some r /\
    (QRectF.left r == Qmin (300 # 1) (100 # 1))%Q /\
    (QRectF.right r == Qmax (300 # 1) (100 # 1))%Q /\
    (QRectF.top r == Qmin (300 # 1) (250 # 1))%Q /\
    (QRectF.bottom r == Qmax (300 # 1) (250 # 1))%Q.
Proof.
  assert (Hlabel :
    QRectF.contains
      (QRectF.mk (of_int 0) (of_int 0)
         (of_int (rect_width (PdfViewer.contentsRect selecting)))
         (of_int (rect_height (PdfViewer.contentsRect selecting))))
      (fst (PdfViewer._pos_local selecting (at_ 300 300))) = true)
    by (vm_compute; reflexivity).
  exact (selection_spans_press_and_pointer selecting (at_ 300 300)
           (at_ 100 250) eq_refl Hlabel).
Defined.

(** X24: a click on the page without a drag (press and release at one
    place) leaves a selection without extent, and the sign button then
    only opens a warning, whatever the user would have done in the pad,
    which is never opened: the request for a rectangle when a document is
    open, the request for a document otherwise (exact arithmetic). *)
Theorem sign_here_after_click
  (drawLine : QImage.t -> Z -> QPointF Q -> QPointF Q -> QImage.t)
  (self : PdfViewer.t Q) (session : PdfViewer.pad_session Q)
  (pos : QPointF Q) :
  let p := fst (PdfViewer._pos_local self pos) in
  let label :=
    QRectF.mk (of_int 0) (of_int 0)
      (of_int (rect_width (PdfViewer.contentsRect self)))
      (of_int (rect_height (PdfViewer.contentsRect self))) in
  PdfViewer._preview_active self = false ->
  QRectF.contains label p = true ->
  let clicked :=
    PdfViewer.run [PdfViewer.Press pos; PdfViewer.Release] self in
  PdfViewer.sel_rect clicked = Some (QRectF.of_points p p) /\
  PdfViewer.sign_here drawLine session clicked
  = (Return tt,
     PdfViewer.show
       (PdfViewer.warning "Firmar"
          (if PdfViewer.doc_truthy (PdfViewer.doc self)
           then "Dibuja un rectángulo para la firma."
           else "Abre un PDF primero."))
       clicked).
Proof.
  intros p label Hact Hlabel clicked.
  set (pressed :=
         PdfViewer._draw_canvas
           (PdfViewer.with_sel (Some p) (Some (QRectF.of_points p p)) self)).
  assert (Hpress : PdfViewer.handle self (PdfViewer.Press pos) = pressed).
  { cbn [PdfViewer.handle]. unfold PdfViewer._start_sel.
    change (PdfViewer._pos_local self pos)
      with (p, PdfViewer._target_rect self).
    cbv beta iota zeta. unfold PdfViewer._target_rect. fold label.
    rewrite Hlabel, Hact. reflexivity. }
  assert (Hsel : PdfViewer.sel_rect clicked = Some (QRectF.of_points p p)).
  { unfold clicked, PdfViewer.run. cbn [fold_left]. rewrite Hpress.
    reflexivity. }
  assert (Hdoc : PdfViewer.doc clicked = PdfViewer.doc self).
  { unfold clicked, PdfViewer.run. cbn [fold_left]. rewrite Hpress.
    reflexivity. }
  split; [exact Hsel |].
  assert (Hnull : QRectF.truthy (QRectF.of_points p p) = false).
  { unfold QRectF.truthy, QRectF.isNull, QRectF.of_points.
    cbn [QRectF.w QRectF.h].
    assert (Ex : feq (px p - px p)%py (of_int 0) = true)
      by (exact_arith; apply Qeq_bool_iff; ring).
    assert (Ey : feq (py p - py p)%py (of_int 0) = true)
      by (exact_arith; apply Qeq_bool_iff; ring).
    rewrite Ex, Ey. reflexivity. }
  unfold PdfViewer.sign_here, mbind, get, lift, put.
  rewrite Hdoc.
  destruct (PdfViewer.doc_truthy (PdfViewer.doc self)); cbn [negb];
    [| reflexivity].
  unfold PdfViewer._rect_to_pdf_points. rewrite Hsel, Hnull. reflexivity.
Qed.

(** X24 on the first page of [contract.pdf], for a click at (300, 300). *)
Lemma sign_here_after_click_witness :
  let clicked :=
    PdfViewer.run [PdfViewer.Press (at_ 300 300); PdfViewer.Release]
      selecting in
  PdfViewer.sign_here dot_painter stroke_then_confirm clicked
  = (Return tt,
     PdfViewer.show
       (PdfViewer.warning "Firmar" "Dibuja un rectángulo para la firma.")
       clicked).
Proof.
  intro clicked.
  assert (Hlabel :
    QRectF.contains
      (QRectF.mk (of_int 0) (of_int 0)
         (of_int (rect_width (PdfViewer.contentsRect selecting)))
         (of_int (rect_height (PdfViewer.contentsRect selecting))))
      (fst (PdfViewer._pos_local selecting (at_ 300 300))) = true)
    by (vm_compute; reflexivity).
  exact (proj2 (sign_here_after_click dot_painter selecting
                  stroke_then_confirm (at_ 300 300) eq_refl Hlabel)).
Defined.

(* ------------------------------------------------------------------ *)
(** ** Dropping files on the window *)

Lemma drop_some_iff (urls : list string) :
  existsb MainWindow.is_pdf urls = true <->
  exists path, MainWindow.dropEvent urls = Some path.
Proof.
  induction urls as [| u urls IH]; cbn [existsb MainWindow.dropEvent].
  - split; [discriminate | intros (path & E); discriminate].
  - destruct (MainWindow.is_pdf u); cbn [orb].
    + split; [intros _; exists u; reflexivity | reflexivity].
    + exact IH.
Qed.

Lemma drop_is_first_pdf (urls : list string) (path : string) :
  MainWindow.dropEvent urls = Some path ->
  exists before after,
    urls = before ++ path :: after /\
    forallb (fun u => negb (MainWindow.is_pdf u)) before = true /\
    MainWindow.is_pdf path = true.
Proof.
  induction urls as [| u urls IH]; cbn [MainWindow.dropEvent];
    [discriminate |].
  destruct (MainWindow.is_pdf u) eqn:Eu.
  - intro E. inversion E; subst u. exists [], urls.
    split; [reflexivity |]. split; [reflexivity | exact Eu].
  - intro E. destruct (IH E) as (before & after & Hu & Hb & Hp).
    exists (u :: before), after. rewrite Hu.
    split; [reflexivity |]. cbn [forallb]. rewrite Eu, Hb.
    split; [reflexivity | exact Hp].
Qed.

(** X25: a drag is accepted exactly when the drop will open a file: when
    the mime data has URLs and one of them ends in [.pdf], whatever the
    case of the letters.  The file opened is the first such URL in the
    list; the others are ignored. *)
Theorem drop_opens_first_pdf (urls : list string) :
  (MainWindow.dragEnterEvent true urls = true <->
   exists path, MainWindow.dropEvent urls = Some path) /\
  MainWindow.dragEnterEvent false urls = false /\
  match MainWindow.dropEvent urls with
  | None => forallb (fun u => negb (MainWindow.is_pdf u)) urls = true
  | Some path =>
      exists before after,
        urls = before ++ path :: after /\
        forallb (fun u => negb (MainWindow.is_pdf u)) before = true /\
        MainWindow.is_pdf path = true
  end.
Proof.
  split; [apply drop_some_iff |]. split; [reflexivity |].
  destruct (MainWindow.dropEvent urls) as [path |] eqn:E.
  - apply drop_is_first_pdf. exact E.
  - induction urls as [| u urls IH]; [reflexivity |].
    cbn [MainWindow.dropEvent forallb] in *.
    destruct (MainWindow.is_pdf u); [discriminate |].
    cbn [negb andb]. apply IH. exact E.
Qed.

Lemma lower_append (a b : string) :
  lower (a ++ b) = (lower a ++ lower b)%string.
Proof.
  induction a as [| c a IH]; cbn; [reflexivity |]. rewrite IH. reflexivity.
Qed.

Lemma length_append (a b : string) :
  String.length (a ++ b) = (String.length a + String.length b)%nat.
Proof.
  induction a as [| c a IH]; cbn; [reflexivity |]. rewrite IH. reflexivity.
Qed.

Lemma substring_append (a b : string) :
  substring (String.length a) (String.length b) (a ++ b) = b.
Proof.
  induction a as [| c a IH]; cbn [String.length append].
  - apply substring_all. lia.
  - cbn [substring]. exact IH.
Qed.

(** X26: the test on the name of a dropped file ignores the case of the
    extension: a name whose last four characters are [.pdf] in any mix of
    upper and lower case is taken for a PDF. *)
Theorem is_pdf_ignores_case (base ext : string) :
  lower ext = ".pdf"%string ->
  MainWindow.is_pdf (base ++ ext) = true.
Proof.
  intro Hext. unfold MainWindow.is_pdf, endswith.
  rewrite lower_append, Hext, length_append.
  change (String.length ".pdf") with 4%nat.
  destruct (Nat.leb_spec 4 (String.length (lower base) + 4)); [| lia].
  replace (String.length (lower base) + 4 - 4)%nat
    with (String.length (lower base)) by lia.
  change 4%nat with (String.length ".pdf") at 1.
  rewrite substring_append. reflexivity.
Qed.

(** X26 for a scan saved by a camera. *)
Lemma is_pdf_ignores_case_witness :
  MainWindow.is_pdf ("/home/ana/SCAN_0001" ++ ".PDF") = true.
Proof. apply is_pdf_ignores_case. reflexivity. Defined.

(* ------------------------------------------------------------------ *)
(** ** Rendering and turning pages *)

(** [render_page], whether it returns or raises, keeps the document, the
    page index, the rectangle of the label and the message boxes. *)
Lemma render_page_frame {F : Type} `{PyFloat F}
  (get_pixmap : fitz.Page F -> F -> QImage.t) (pv : PdfViewer.page_view F) :
  let pv' := snd (PdfViewer.render_page get_pixmap pv) in
  PdfViewer.doc (PdfViewer.viewer pv') = PdfViewer.doc (PdfViewer.viewer pv) /\
  PdfViewer.page_index (PdfViewer.viewer pv')
  = PdfViewer.page_index (PdfViewer.viewer pv) /\
  PdfViewer.contentsRect (PdfViewer.viewer pv')
  = PdfViewer.contentsRect (PdfViewer.viewer pv) /\
  PdfViewer.message_boxes (PdfViewer.viewer pv')
  = PdfViewer.message_boxes (PdfViewer.viewer pv).
Proof.
  unfold PdfViewer.render_page, mbind, get, put, lift, raise, ret.
  destruct (PdfViewer.doc (PdfViewer.viewer pv)) as [d |] eqn:Ed;
    [| cbn; rewrite Ed; repeat split].
  destruct (fitz.len d =? 0); [cbn; rewrite Ed; repeat split |].
  destruct (fitz.getitem d _) as [e | n]; [cbn; rewrite Ed; repeat split |].
  destruct (nth_error (fitz.pages d) n) as [page |];
    [| cbn; rewrite Ed; repeat split].
  cbn [PdfViewer.viewer PdfViewer._target_rect].
  destruct (_ || _); [cbn; rewrite Ed; repeat split |].
  destruct (truediv _ _) as [e | a]; [cbn; rewrite Ed; repeat split |].
  destruct (truediv _ _) as [e | b]; [cbn; rewrite Ed; repeat split |].
  cbn. rewrite Ed. repeat split.
Qed.

(** X27: with a document open and the page index within it, the two page
    buttons keep the document and keep the index within the document:
    the next-page button adds one unless the last page is shown, the
    previous-page button takes one off unless the first page is shown,
    whether the rendering that follows returns or raises. *)
Theorem navigation_stays_in_document {F : Type} `{PyFloat F}
  (get_pixmap : fitz.Page F -> F -> QImage.t) (pv : PdfViewer.page_view F)
  (d : fitz.Document F) :
  PdfViewer.doc (PdfViewer.viewer pv) = Some d ->
  0 <= PdfViewer.page_index (PdfViewer.viewer pv) < fitz.len d ->
  let i := PdfViewer.page_index (PdfViewer.viewer pv) in
  let after_next := snd (PdfViewer.next_page get_pixmap pv) in
  let after_prev := snd (PdfViewer.prev_page get_pixmap pv) in
  PdfViewer.doc (PdfViewer.viewer after_next) = Some d /\
  PdfViewer.page_index (PdfViewer.viewer after_next)
  = Z.min (i + 1) (fitz.len d - 1) /\
  PdfViewer.doc (PdfViewer.viewer after_prev) = Some d /\
  PdfViewer.page_index (PdfViewer.viewer after_prev) = Z.max (i - 1) 0.
Proof.
  intros Hdoc Hi i after_next after_prev.
  assert (Hlen : (fitz.len d =? 0) = false) by (apply Z.eqb_neq; lia).
  assert (Hprev :
    PdfViewer.doc (PdfViewer.viewer after_prev) = Some d /\
    PdfViewer.page_index (PdfViewer.viewer after_prev) = Z.max (i - 1) 0).
  { unfold after_prev, PdfViewer.prev_page, mbind, get, put, ret.
    rewrite Hdoc. cbn [PdfViewer.doc_truthy]. rewrite Hlen. cbn [negb].
    fold i. destruct (Z.ltb_spec 0 i).
    - destruct (render_page_frame get_pixmap (PdfViewer.at_page (i - 1) pv))
        as (Hd & Hp & _).
      cbn [PdfViewer.at_page PdfViewer.viewer PdfViewer.with_page_index
           PdfViewer.doc PdfViewer.page_index] in Hd, Hp.
      cbn [fst snd]. rewrite Hd, Hp. split; [exact Hdoc | lia].
    - cbn [snd]. split; [exact Hdoc | fold i; lia]. }
  split; [| split; [| exact Hprev]].
  - unfold after_next, PdfViewer.next_page, mbind, get, put, ret.
    rewrite Hdoc, Hlen. fold i.
    destruct (Z.ltb_spec i (fitz.len d - 1)).
    + destruct (render_page_frame get_pixmap (PdfViewer.at_page (i + 1) pv))
        as (Hd & _).
      cbn [PdfViewer.at_page PdfViewer.viewer PdfViewer.with_page_index
           PdfViewer.doc] in Hd.
      cbn [fst snd]. rewrite Hd. exact Hdoc.
    + cbn [snd]. exact Hdoc.
  - unfold after_next, PdfViewer.next_page, mbind, get, put, ret.
    rewrite Hdoc, Hlen. fold i.
    destruct (Z.ltb_spec i (fitz.len d - 1)).
    + destruct (render_page_frame get_pixmap (PdfViewer.at_page (i + 1) pv))
        as (_ & Hp & _).
      cbn [PdfViewer.at_page PdfViewer.viewer PdfViewer.with_page_index
           PdfViewer.page_index] in Hp.
      cbn [fst snd]. rewrite Hp. lia.
    + cbn [snd]. fold i. lia.
Qed.

(** X27 on the first page of the two-page [contract.pdf]. *)
Lemma navigation_stays_in_document_witness :
  let pv := PdfViewer.mk_page_view selecting "1/2" (595 # 1, 842 # 1) in
  let get_pixmap := fun (_ : fitz.Page Q) (_ : Q) => one_dot in
  PdfViewer.doc (PdfViewer.viewer (snd (PdfViewer.next_page get_pixmap pv)))
  = Some contract /\
  PdfViewer.page_index
    (PdfViewer.viewer (snd (PdfViewer.next_page get_pixmap pv)))
  = Z.min (0 + 1) (fitz.len contract - 1) /\
  PdfViewer.doc (PdfViewer.viewer (snd (PdfViewer.prev_page get_pixmap pv)))
  = Some contract /\
  PdfViewer.page_index
    (PdfViewer.viewer (snd (PdfViewer.prev_page get_pixmap pv)))
  = Z.max (0 - 1) 0.
Proof.
  intros pv get_pixmap.
  assert (Hi : 0 <= PdfViewer.page_index (PdfViewer.viewer pv)
               < fitz.len contract)
    by (vm_compute; split; [discriminate | reflexivity]).
  exact (navigation_stays_in_document get_pixmap pv contract eq_refl Hi).
Defined.

Lemma max_float_is_Qmax (a b : Q) : (max_float a b == Qmax a b)%Q.
Proof.
  unfold max_float. exact_arith.
  destruct (Q.max_spec a b) as [[Hlt ->] | [Hle ->]];
    destruct (negb (Qle_bool b a)) eqn:E; reflect_Q; lra.
Qed.

Lemma getitem_in_range {F : Type} `{PyFloat F} (d : fitz.Document F) (i : Z) :
  0 <= i < fitz.len d ->
  exists page,
    fitz.getitem d i = Return (Z.to_nat i) /\
    nth_error (fitz.pages d) (Z.to_nat i) = Some page /\
    In page (fitz.pages d).
Proof.
  intro Hi. unfold fitz.getitem.
  destruct (Z.ltb_spec i (fitz.len d)); [| lia].
  rewrite Z.mod_small by lia.
  destruct (nth_error (fitz.pages d) (Z.to_nat i)) as [page |] eqn:E.
  - exists page. split; [reflexivity |]. split; [reflexivity |].
    apply nth_error_In in E. exact E.
  - apply nth_error_None in E. unfold fitz.len in Hi. lia.
Qed.

(** X28: in a label of at least 5 x 5 pixels, for a document whose pages
    have a positive size, [render_page] returns.  The page is rendered at
    the scale [max(0.1, min(W / w, H / h))], which is at least [0.1], [w]
    and [h] being the size of the page in points; the selection is
    dropped, the preview is cancelled with its two buttons hidden, and the
    label reads the page number, counted from one, over the number of
    pages (exact arithmetic). *)
Theorem render_page_resets
  (get_pixmap : fitz.Page Q -> Q -> QImage.t) (pv : PdfViewer.page_view Q)
  (d : fitz.Document Q) :
  let self := PdfViewer.viewer pv in
  let i := PdfViewer.page_index self in
  let W := inject_Z (rect_width (PdfViewer.contentsRect self)) in
  let H := inject_Z (rect_height (PdfViewer.contentsRect self)) in
  PdfViewer.doc self = Some d ->
  0 <= i < fitz.len d ->
  5 <= rect_width (PdfViewer.contentsRect self) ->
  5 <= rect_height (PdfViewer.contentsRect self) ->
  (forall page, In page (fitz.pages d) ->
                (0 < fitz.page_width page)%Q /\ (0 < fitz.page_height page)%Q) ->
  exists page pv',
    nth_error (fitz.pages d) (Z.to_nat i) = Some page /\
    PdfViewer.render_page get_pixmap pv = (Return tt, pv') /\
    let v := PdfViewer.viewer pv' in
    let s := PdfViewer.render_scale v in
    (s == Qmax (1 # 10)
            (Qmin (W / fitz.page_width page) (H / fitz.page_height page)))%Q /\
    (1 # 10 <= s)%Q /\
    PdfViewer._page_pix v = Some (get_pixmap page s) /\
    PdfViewer.pm_size v
    = mkQSize (QImage.width (get_pixmap page s))
              (QImage.height (get_pixmap page s)) /\
    PdfViewer.sel_rect v = None /\
    PdfViewer._preview_active v = false /\
    PdfViewer._preview_img v = None /\
    PdfViewer._preview_rect v = None /\
    PdfViewer.btn_apply_visible v = false /\
    PdfViewer.btn_cancel_visible v = false /\
    PdfViewer.lbl_page pv'
    = (str_int (i + 1) ++ "/" ++ str_int (fitz.len d))%string /\
    PdfViewer._page_pt_size pv'
    = (fitz.page_width page, fitz.page_height page).
Proof.
  intros self i W H Hdoc Hi HW HH Hpages.
  destruct (getitem_in_range d i Hi) as (page & Hget & Hnth & Hin).
  destruct (Hpages page Hin) as [Hpw Hph].
  exists page.
  unfold PdfViewer.render_page, mbind, get, put, lift, ret.
  fold self. rewrite Hdoc.
  assert (Hlen : (fitz.len d =? 0) = false) by (apply Z.eqb_neq; lia).
  rewrite Hlen. fold i. rewrite Hget, Hnth.
  cbn [PdfViewer.viewer fst snd]. unfold PdfViewer._target_rect.
  destruct (Z.ltb_spec (rect_width (PdfViewer.contentsRect self)) 5);
    [lia |].
  destruct (Z.ltb_spec (rect_height (PdfViewer.contentsRect self)) 5);
    [lia |].
  cbn [orb].
  rewrite !truediv_returns by lra.
  eexists. split; [reflexivity |]. split; [reflexivity |].
  cbn [PdfViewer.viewer PdfViewer.lbl_page PdfViewer._page_pt_size].
  unfold PdfViewer.cancel_signature.
  cbn [PdfViewer._draw_canvas PdfViewer.with_canvas_pixmap
       PdfViewer.with_buttons PdfViewer.with_preview PdfViewer.with_sel
       PdfViewer.with_rendering PdfViewer.render_scale PdfViewer._page_pix
       PdfViewer.pm_size PdfViewer.sel_rect PdfViewer._preview_active
       PdfViewer._preview_img PdfViewer._preview_rect
       PdfViewer.btn_apply_visible PdfViewer.btn_cancel_visible
       PdfViewer.page_index].
  assert (Hs : (max_float (lit 1 10)
                  (min_float (of_int (rect_width (PdfViewer.contentsRect self))
                              / fitz.page_width page)%py
                             (of_int (rect_height (PdfViewer.contentsRect self))
                              / fitz.page_height page)%py)
                == Qmax (1 # 10)
                     (Qmin (W / fitz.page_width page)
                           (H / fitz.page_height page)))%Q).
  { rewrite max_float_is_Qmax, min_float_is_Qmin. reflexivity. }
  split; [exact Hs |].
  split; [rewrite Hs; apply Q.le_max_l |].
  repeat split.
Qed.

(** X28 for the first page of [contract.pdf] in a label of 595 x 842: the
    page is rendered at scale 1 and the label reads [1/2]. *)
Lemma render_page_resets_witness :
  let pv :=
    PdfViewer.mk_page_view previewing "-/-"%string (0 # 1, 0 # 1) in
  let get_pixmap := fun (_ : fitz.Page Q) (_ : Q) => one_dot in
  exists page pv',
    nth_error (fitz.pages contract) 0 = Some page /\
    PdfViewer.render_page get_pixmap pv = (Return tt, pv') /\
    (1 # 10 <= PdfViewer.render_scale (PdfViewer.viewer pv'))%Q /\
    PdfViewer.sel_rect (PdfViewer.viewer pv') = None /\
    PdfViewer._preview_active (PdfViewer.viewer pv') = false /\
    PdfViewer.lbl_page pv' = "1/2"%string.
Proof.
  intros pv get_pixmap.
  assert (Hi : 0 <= PdfViewer.page_index (PdfViewer.viewer pv)
               < fitz.len contract)
    by (vm_compute; split; [discriminate | reflexivity]).
  assert (HW : 5 <= rect_width (PdfViewer.contentsRect (PdfViewer.viewer pv)))
    by (vm_compute; discriminate).
  assert (HH : 5 <= rect_height (PdfViewer.contentsRect (PdfViewer.viewer pv)))
    by (vm_compute; discriminate).
  assert (Hpages :
    forall page, In page (fitz.pages contract) ->
                 (0 < fitz.page_width page)%Q /\ (0 < fitz.page_height page)%Q).
  { intros page [<- | [<- | []]]; split; vm_compute; reflexivity. }
  destruct (render_page_resets get_pixmap pv contract eq_refl Hi HW HH Hpages)
    as (page & pv' & Hnth & Hrun & _ & Hs & _ & _ & Hsel & Hact & _ & _ & _
        & _ & Hlbl & _).
  exists page, pv'.
  split; [exact Hnth |]. split; [exact Hrun |]. split; [exact Hs |].
  split; [exact Hsel |]. split; [exact Hact | exact Hlbl].
Defined.

(** X29: in a label narrower or lower than 5 pixels the next-page button
    still moves to the next page, but [render_page] returns before
    drawing: the page image, the text of the page label, the selection and
    a preview in progress all stay those of the page left behind; only the
    page index and the recorded size of the page change. *)
Theorem next_page_in_tiny_label {F : Type} `{PyFloat F}
  (get_pixmap : fitz.Page F -> F -> QImage.t) (pv : PdfViewer.page_view F)
  (d : fitz.Document F) :
  let self := PdfViewer.viewer pv in
  let i := PdfViewer.page_index self in
  PdfViewer.doc self = Some d ->
  0 <= i -> i + 1 < fitz.len d ->
  rect_width (PdfViewer.contentsRect self) < 5 \/
  rect_height (PdfViewer.contentsRect self) < 5 ->
  exists page,
    nth_error (fitz.pages d) (Z.to_nat (i + 1)) = Some page /\
    PdfViewer.next_page get_pixmap pv
    = (Return tt,
       PdfViewer.mk_page_view (PdfViewer.with_page_index (i + 1) self)
         (PdfViewer.lbl_page pv)
         (fitz.page_width page, fitz.page_height page)).
Proof.
  intros self i Hdoc Hi Hnext Htiny.
  destruct (getitem_in_range d (i + 1)) as (page & Hget & Hnth & _);
    [lia |].
  exists page. split; [exact Hnth |].
  assert (Hlen : (fitz.len d =? 0) = false) by (apply Z.eqb_neq; lia).
  unfold PdfViewer.next_page, mbind, get, put, ret. fold self.
  rewrite Hdoc, Hlen. fold i.
  destruct (Z.ltb_spec i (fitz.len d - 1)); [| lia].
  unfold PdfViewer.render_page, mbind, get, put, lift, ret.
  cbn [PdfViewer.at_page PdfViewer.viewer PdfViewer.with_page_index
       PdfViewer.doc PdfViewer.page_index PdfViewer.lbl_page
       PdfViewer._page_pt_size fst snd].
  fold self. rewrite Hdoc, Hlen, Hget, Hnth.
  unfold PdfViewer._target_rect.
  cbn [PdfViewer.viewer PdfViewer.contentsRect PdfViewer.with_page_index
       fst snd].
  assert (Hsmall :
    (rect_width (PdfViewer.contentsRect self) <? 5)
    || (rect_height (PdfViewer.contentsRect self) <? 5) = true).
  { apply orb_true_iff.
    destruct Htiny; [left | right]; apply Z.ltb_lt; assumption. }
  rewrite Hsmall. reflexivity.
Qed.

(** X29 for [contract.pdf] in a label of 4 x 842. *)
Lemma next_page_in_tiny_label_witness :
  let self :=
    PdfViewer.mk (F:=Q) (Some contract) 0 (1 # 1) (mkQSize 595 842)
      (mkQRect 0 0 4 842) [] false false None None None
      false None None false None None None [] in
  let pv := PdfViewer.mk_page_view self "1/2"%string (595 # 1, 842 # 1) in
  let get_pixmap := fun (_ : fitz.Page Q) (_ : Q) => one_dot in
  exists page,
    nth_error (fitz.pages contract) 1 = Some page /\
    PdfViewer.next_page get_pixmap pv
    = (Return tt,
       PdfViewer.mk_page_view (PdfViewer.with_page_index 1 self) "1/2"%string
         (fitz.page_width page, fitz.page_height page)).
Proof.
  intros self pv get_pixmap.
  assert (Hi : 0 <= PdfViewer.page_index (PdfViewer.viewer pv)) by reflexivity.
  assert (Hnext : PdfViewer.page_index (PdfViewer.viewer pv) + 1
                  < fitz.len contract) by (vm_compute; reflexivity).
  assert (Htiny :
    rect_width (PdfViewer.contentsRect (PdfViewer.viewer pv)) < 5 \/
    rect_height (PdfViewer.contentsRect (PdfViewer.viewer pv)) < 5)
    by (left; vm_compute; reflexivity).
  exact (next_page_in_tiny_label get_pixmap pv contract eq_refl Hi Hnext Htiny).
Defined.

(* ------------------------------------------------------------------ *)
(** ** Resizing by a corner *)

(** X30: in a resize the grabbed corner follows the pointer and the width
    and height are then raised to 40 and 20 from the left and top edges.
    So the left edge moves by [dx] for the two left corners and stays for
    the right ones, the top edge moves by [dy] for the two top corners and
    stays for the bottom ones, and the size is the larger of the minimum
    and the size the pointer asks for: a rectangle shrunk below the
    minimum by a left or top corner keeps its minimum size and slides
    with the pointer (exact arithmetic, before the clamp to the page). *)
Theorem resized_follows_corner (c : PdfViewer.corner) (orig : QRectF.t Q)
  (dx dy : Q) :
  let r := PdfViewer.resized c orig dx dy in
  let on_left := match c with PdfViewer.tl | PdfViewer.bl => true
                            | _ => false end in
  let on_top := match c with PdfViewer.tl | PdfViewer.tr => true
                           | _ => false end in
  (QRectF.left r
   == QRectF.left orig + (if on_left then dx else 0))%Q /\
  (QRectF.top r
   == QRectF.top orig + (if on_top then dy else 0))%Q /\
  (QRectF.width r
   == Qmax (40 # 1)
        (QRectF.width orig + (if on_left then - dx else dx)))%Q /\
  (QRectF.height r
   == Qmax (20 # 1)
        (QRectF.height orig + (if on_top then - dy else dy)))%Q.
Proof.
  destruct orig as [x y w h].
  destruct c; cbv zeta; unfold PdfViewer.resized;
    unfold QRectF.width, QRectF.height, QRectF.left, QRectF.top,
      QRectF.right, QRectF.bottom, QRectF.setLeft, QRectF.setRight,
      QRectF.setTop, QRectF.setBottom;
    cbn [QRectF.xp QRectF.yp QRectF.w QRectF.h];
    exact_arith;
    match goal with
    | |- context [if negb (Qle_bool (40 # 1) ?a) then _ else _] =>
        destruct (negb (Qle_bool (40 # 1) a)) eqn:Ew;
        destruct (Q.max_spec (40 # 1) (w + - dx)) as [[? Mw1] | [? Mw1]];
        destruct (Q.max_spec (40 # 1) (w + dx)) as [[? Mw2] | [? Mw2]]
    end;
    cbn [QRectF.xp QRectF.yp QRectF.w QRectF.h];
    match goal with
    | |- context [if negb (Qle_bool (20 # 1) ?a) then _ else _] =>
        destruct (negb (Qle_bool (20 # 1) a)) eqn:Eh;
        destruct (Q.max_spec (20 # 1) (h + - dy)) as [[? Mh1] | [? Mh1]];
        destruct (Q.max_spec (20 # 1) (h + dy)) as [[? Mh2] | [? Mh2]]
    end;
    cbn [QRectF.xp QRectF.yp QRectF.w QRectF.h];
    reflect_Q;
    try rewrite Mw1; try rewrite Mw2; try rewrite Mh1; try rewrite Mh2;
    repeat split; lra.
Qed.
